(** * Shape refinement and shape assertions of XLA's Python bindings

    A shallow embedding of
    [tensorflow/compiler/xla/python/refine_polymorphic_shapes.cc]:
    the [CheckShapeAssertionsPass] (its walk callback, [verifyShapeAssertion]
    and [formatErrorMessage]), [RefinePolymorphicShapes] on an in-memory
    module and [ValidateStaticShapes].

    Conventions.  A C++ [int] or [int64_t] is a [Z]; texts are [string]s and
    stand for the C strings the code reads through [data()].  Code that can
    stop the process (an exception of [std::stoi], a failed [cast<>], a read
    past the end of a vector) returns an [Outcome] that records why. *)

From Stdlib Require Import String Ascii List ZArith NArith Lia Bool.
From Stdlib Require Import Decimal DecimalString DecimalN DecimalZ.
From Stdlib Require HexadecimalString.
From Equations Require Import Equations.
Import ListNotations.

Local Open Scope string_scope.
Local Open Scope Z_scope.

Set Implicit Arguments.

(* ===================================================================== *)
(** ** Outcomes *)
(* ===================================================================== *)

(** Why a run stops without returning. *)
Inductive Crash : Type :=
| StoiInvalidArgument   (* std::stoi finds no digit *)
| StoiOutOfRange        (* std::stoi: the value does not fit an int *)
| BadAttributeCast      (* cast<StringAttr> of another kind of attribute *)
| IndexOutOfBounds.     (* operator[] past the end of a SmallVector *)

Inductive Outcome (A : Type) : Type :=
| Ok (a : A)
| Abort (c : Crash).

Arguments Ok {A} a.
Arguments Abort {A} c.

Definition obind {A B} (x : Outcome A) (f : A -> Outcome B) : Outcome B :=
  match x with
  | Ok a => f a
  | Abort c => Abort c
  end.

(* ===================================================================== *)
(** ** Texts: digits, decimal numbers *)
(* ===================================================================== *)

Module Text.

Definition isDigit (c : ascii) : bool :=
  match c with
  | "0" | "1" | "2" | "3" | "4" | "5" | "6" | "7" | "8" | "9" => true
  | _ => false
  end%char.

(** The longest run of digits a text starts with, and what follows it. *)
Fixpoint spanDigits (s : string) : string * string :=
  match s with
  | String c t =>
      if isDigit c then let (ds, r) := spanDigits t in (String c ds, r)
      else (EmptyString, s)
  | EmptyString => (EmptyString, EmptyString)
  end.

Fixpoint allDigits (s : string) : bool :=
  match s with
  | EmptyString => true
  | String c t => isDigit c && allDigits t
  end.

(** The number a run of decimal digits writes; [None] off digits. *)
Definition digitsValue (ds : string) : option N :=
  option_map N.of_uint (NilEmpty.uint_of_string ds).

(** Decimal rendering, as [operator<<] and [formatv] print integers. *)
Definition decimalN (n : N) : string := NilZero.string_of_uint (N.to_uint n).
Definition decimalZ (z : Z) : string := NilZero.string_of_int (Z.to_int z).

(** [a] occurs in [b]. *)
Definition Occurs (a b : string) : Prop := exists p q, b = p ++ a ++ q.

End Text.

Import Text.

(* ===================================================================== *)
(** ** The format-specifier regex and [std::stoi] *)
(* ===================================================================== *)

Module FormatSpec.

(** [llvm::Regex("{([0-9]+)[,:}]")]: an opening brace, one digit or more,
    then one of [,], [:] and [}]. *)
Definition isDelim (c : ascii) : bool :=
  match c with
  | "," | ":" | "}" => true
  | _ => false
  end%char.

(** A match: the text before it, the digits of group 1, the closing
    character and the text after it. *)
Record Match : Type := mkMatch {
  mPrefix : string;
  mDigits : string;
  mDelim : ascii;
  mSuffix : string
}.

(** [formatSpec[0]], the whole matched text. *)
Definition matched (m : Match) : string :=
  String "{" (mDigits m ++ String (mDelim m) EmptyString).

(** What [formatSpec[1].data()] points at: group 1 and the rest of the
    text, up to its end. *)
Definition group1Data (m : Match) : string :=
  mDigits m ++ String (mDelim m) (mSuffix m).

(** The regex tried at the first character only. *)
Definition matchHere (s : string) : option (string * ascii * string) :=
  match s with
  | String "{" t =>
      match spanDigits t with
      | (String d ds, String c rest) =>
          if isDelim c then Some (String d ds, c, rest) else None
      | _ => None
      end
  | _ => None
  end.

(** [Regex::match]: the leftmost match. *)
Fixpoint regexMatch (s : string) : option Match :=
  match matchHere s with
  | Some (ds, c, rest) => Some (mkMatch EmptyString ds c rest)
  | None =>
      match s with
      | EmptyString => None
      | String a t =>
          match regexMatch t with
          | Some m =>
              Some (mkMatch (String a (mPrefix m)) (mDigits m) (mDelim m)
                      (mSuffix m))
          | None => None
          end
      end
  end.

(** [Regex::sub("", s)] at a match: the first match is cut out. *)
Definition subEmpty (m : Match) : string := mPrefix m ++ mSuffix m.

Definition INT_MAX : Z := 2147483647.

(** [std::stoi] on a text: the leading digits as an [int].  It throws when
    there is no digit or when the value exceeds [INT_MAX].  (The code calls
    it on text that starts with a digit, so blanks and signs are left out.) *)
Definition stoi (s : string) : Outcome Z :=
  match fst (spanDigits s) with
  | EmptyString => Abort StoiInvalidArgument
  | ds =>
      match digitsValue ds with
      | Some v => if Z.of_N v <=? INT_MAX then Ok (Z.of_N v)
                  else Abort StoiOutOfRange
      | None => Abort StoiInvalidArgument
      end
  end.

(** The diagnostic of lines 179-182. *)
Definition badSpecifierMessage (nrErrorMessageInputs : Z) (m : Match) : string :=
  "expects error_message to contain format specifiers with "
  ++ "error_message_input index less than " ++ decimalZ nrErrorMessageInputs
  ++ ". Found specifier " ++ matched m.

(** A value kept together with the equation that names it. *)
Definition inspect {A} (a : A) : {b : A | a = b} := exist _ a eq_refl.

(** The [do ... while (true)] loop of lines 172-185 on the working copy
    [errorMessage]: [Ok None] when it leaves through [break], [Ok (Some d)]
    when it returns the error [d]. *)
Equations? checkFormatSpecifiers (nrErrorMessageInputs : Z)
    (errorMessage : string) : Outcome (option string)
    by wf (String.length errorMessage) lt :=
  checkFormatSpecifiers n errorMessage with inspect (regexMatch errorMessage) => {
    | exist _ None _ => Ok None
    | exist _ (Some m) Hm with stoi (group1Data m) => {
        | Abort c => Abort c
        | Ok index with (0 <=? index) && (index <? n) => {
            | false => Ok (Some (badSpecifierMessage n m))
            | true => checkFormatSpecifiers n (subEmpty m) } } }.
Proof.
  (* the match that is cut out is not empty, so the working copy shrinks *)
  assert (Hspan : forall u ds r, spanDigits u = (ds, r) ->
            (String.length r <= String.length u)%nat).
  { induction u as [|x u IH]; simpl; intros ds r.
    - intros [= <- <-]. simpl. lia.
    - destruct (isDigit x).
      + destruct (spanDigits u) as [d1 r1] eqn:E. intros [= <- <-].
        specialize (IH _ _ eq_refl). lia.
      + intros [= <- <-]. simpl. lia. }
  assert (Hhere : forall u ds c rest, matchHere u = Some (ds, c, rest) ->
            (String.length rest < String.length u)%nat).
  { intros [|a t] ds c rest; [discriminate|]. unfold matchHere.
    destruct (Ascii.eqb_spec a "{"%char) as [->|Hne].
    - destruct (spanDigits t) as [d r] eqn:E.
      destruct d as [|d0 d']; [discriminate|].
      destruct r as [|c0 r']; [discriminate|].
      destruct (isDelim c0); [|discriminate].
      intros [= <- <- <-]. apply Hspan in E. simpl in *. lia.
    - destruct a as [[|] [|] [|] [|] [|] [|] [|] [|]]; try discriminate.
      now elim Hne. }
  clear - Hm Hhere. revert m Hm.
  induction errorMessage as [|a t IH]; intros m.
  - simpl. discriminate.
  - cbn [regexMatch].
    destruct (matchHere (String a t)) as [[[ds c] rest]|] eqn:E.
    + intros [= <-]. unfold subEmpty. cbn. now apply Hhere in E.
    + destruct (regexMatch t) as [m'|]; [|discriminate].
      intros [= <-]. specialize (IH _ eq_refl). unfold subEmpty in *.
      cbn in *. lia.
Qed.

End FormatSpec.

Import FormatSpec.

(* ===================================================================== *)
(** ** [llvm::formatv] and [formatErrorMessage] *)
(* ===================================================================== *)

Module Formatter.

(** *** [llvm::formatv]

    The library function is not part of this repository.  Its model follows
    the specification (replacement fields [{index[,layout][:format]}], the
    decimal rendering of integers) and, for what the specification leaves
    open, the LLVM library as [formatErrorMessage] calls it: on [int64_t]
    arguments and compiled without assertions.  It is a total function from
    the format and the arguments to a text. *)

(** Modelled from the spec: the blanks [StringRef::trim] removes. *)
Definition isSpace (c : ascii) : bool :=
  match c with
  | " " | "009" | "010" | "011" | "012" | "013" => true
  | _ => false
  end%char.

(** Modelled from the spec: [StringRef::ltrim]. *)
Fixpoint ltrim (s : string) : string :=
  match s with
  | String c t => if isSpace c then ltrim t else s
  | EmptyString => EmptyString
  end.

(** Modelled from the spec: [StringRef::rtrim]. *)
Fixpoint rtrim (s : string) : string :=
  match s with
  | EmptyString => EmptyString
  | String c t =>
      match rtrim t with
      | EmptyString => if isSpace c then EmptyString else String c EmptyString
      | t' => String c t'
      end
  end.

(** Modelled from the spec: [StringRef::trim]. *)
Definition trim (s : string) : string := rtrim (ltrim s).

(** Modelled from the spec: [StringRef::drop_front]. *)
Fixpoint drop_front (n : nat) (s : string) : string :=
  match n, s with
  | S n', String _ t => drop_front n' t
  | _, _ => s
  end.

(** Modelled from the spec: whether a character occurs in a text
    ([find_first_of] is not [npos]). *)
Fixpoint contains (c : ascii) (s : string) : bool :=
  match s with
  | EmptyString => false
  | String a t => Ascii.eqb a c || contains c t
  end.

(** Modelled from the spec: a text of [n] copies of a character. *)
Fixpoint fill (n : nat) (c : ascii) : string :=
  match n with
  | O => EmptyString
  | S n' => String c (fill n' c)
  end.

(** Modelled from the spec: the value of a character as a digit, in
    [consumeUnsignedInteger]. *)
Definition charValue (c : ascii) : option N :=
  let n := N_of_ascii c in
  (if (48 <=? n) && (n <=? 57) then Some (n - 48)
   else if (97 <=? n) && (n <=? 122) then Some (n - 97 + 10)
   else if (65 <=? n) && (n <=? 90) then Some (n - 65 + 10)
   else None)%N.

(** Modelled from the spec: [GetAutoSenseRadix], the radix a prefix
    announces and the text after the prefix. *)
Definition GetAutoSenseRadix (s : string) : N * string :=
  if String.prefix "0x" s || String.prefix "0X" s then (16%N, drop_front 2 s)
  else if String.prefix "0b" s || String.prefix "0B" s then (2%N, drop_front 2 s)
  else if String.prefix "0o" s then (8%N, drop_front 2 s)
  else
    match s with
    | String "0" (String d t) =>
        if isDigit d then (8%N, String d t) else (10%N, s)
    | _ => (10%N, s)
    end.

(** Modelled from the spec: the loop of [consumeUnsignedInteger], the
    digits of the radix a text starts with, read as an [unsigned long long];
    [None] when the value overflows. *)
Fixpoint consumeDigits (radix : N) (s : string) (acc : N) : option (N * string) :=
  match s with
  | EmptyString => Some (acc, EmptyString)
  | String c t =>
      match charValue c with
      | Some v =>
          if (v <? radix)%N then
            let acc' := (acc * radix + v)%N in
            if (acc' <? 2 ^ 64)%N then consumeDigits radix t acc' else None
          else Some (acc, s)
      | None => Some (acc, s)
      end
  end.

(** Modelled from the spec: [StringRef::consumeInteger] on an unsigned
    64-bit result: the number read, if any, and the text left.  Radix [0]
    asks for the radix to be read off the prefix; a failure leaves the text
    after the prefix. *)
Definition consumeUnsignedInteger (radix : N) (s : string) : option N * string :=
  let (radix', s1) := if (radix =? 0)%N then GetAutoSenseRadix s else (radix, s) in
  match s1 with
  | EmptyString => (None, s1)
  | _ =>
      match consumeDigits radix' s1 0 with
      | None => (None, s1)
      | Some (value, s2) =>
          if Nat.eqb (String.length s2) (String.length s1) then (None, s1)
          else (Some value, s2)
      end
  end.

Inductive AlignStyle : Type := AlignLeft | AlignCenter | AlignRight.

(** Modelled from the spec: [translateLocChar]. *)
Definition translateLocChar (c : ascii) : option AlignStyle :=
  match c with
  | "-" => Some AlignLeft
  | "=" => Some AlignCenter
  | "+" => Some AlignRight
  | _ => None
  end%char.

(** A replacement field, parsed. *)
Record ReplacementItem : Type := mkReplacementItem {
  itemSpec : string;
  itemIndex : N;
  itemAlign : N;
  itemWhere : AlignStyle;
  itemPad : ascii;
  itemOptions : string
}.

(** Modelled from the spec: [consumeFieldLayout], the layout
    [[[pad]where]width] of a field: where, width and pad, and the text left. *)
Definition consumeFieldLayout (spec : string)
  : AlignStyle * N * ascii * string :=
  match spec with
  | EmptyString => (AlignRight, 0%N, " "%char, EmptyString)
  | _ =>
      let '(where_, pad, spec1) :=
        match spec with
        | String c0 (String c1 t) =>
            match translateLocChar c1 with
            | Some loc => (loc, c0, t)
            | None =>
                match translateLocChar c0 with
                | Some loc => (loc, " "%char, String c1 t)
                | None => (AlignRight, " "%char, spec)
                end
            end
        | _ => (AlignRight, " "%char, spec)
        end in
      let (align, rest) := consumeUnsignedInteger 0 spec1 in
      (where_, match align with Some a => a | None => 0%N end, pad, rest)
  end.

(** Modelled from the spec: [parseReplacementItem] on the text between the
    braces: the index, then a layout after [,], then the options after [:].
    [None] is the empty item it gives when no index can be read. *)
Definition parseReplacementItem (spec : string) : option ReplacementItem :=
  match consumeUnsignedInteger 0 (trim spec) with
  | (None, _) => None
  | (Some index, rep1) =>
      let rep2 := trim rep1 in
      let '(where_, align, pad, rep3) :=
        match rep2 with
        | String "," t => consumeFieldLayout t
        | _ => (AlignRight, 0%N, " "%char, rep2)
        end in
      let options :=
        match trim rep3 with
        | String ":" t => trim t
        | _ => EmptyString
        end in
      Some (mkReplacementItem spec index align where_ pad options)
  end.

Inductive HexPrintStyle : Type := Upper | Lower | PrefixUpper | PrefixLower.

Inductive IntegerStyle : Type := Integer | Number.

Definition isPrefixedHexStyle (style : HexPrintStyle) : bool :=
  match style with
  | PrefixUpper | PrefixLower => true
  | _ => false
  end.

(** Modelled from the spec: [consumeHexStyle]. *)
Definition consumeHexStyle (style : string) : option (HexPrintStyle * string) :=
  match style with
  | String "x" (String "-" t) => Some (Lower, t)
  | String "X" (String "-" t) => Some (Upper, t)
  | String "x" (String "+" t) => Some (PrefixLower, t)
  | String "x" t => Some (PrefixLower, t)
  | String "X" (String "+" t) => Some (PrefixUpper, t)
  | String "X" t => Some (PrefixUpper, t)
  | _ => None
  end.

(** Modelled from the spec: the hexadecimal digits in capitals. *)
Definition upperHex (c : ascii) : ascii :=
  let code := N_of_ascii c in
  if ((97 <=? code) && (code <=? 102))%N then ascii_of_N (code - 32) else c.

Fixpoint upperHexDigits (digits : string) : string :=
  match digits with
  | String digit more => String (upperHex digit) (upperHexDigits more)
  | EmptyString => EmptyString
  end.

(** Modelled from the spec: [write_hex] on a 64-bit value: at least [width]
    characters (at most 128), the prefix counted in. *)
Definition write_hex (n : N) (style : HexPrintStyle) (width : N) : string :=
  let digits :=
    match n with
    | N0 => EmptyString
    | _ => HexadecimalString.NilEmpty.string_of_uint (N.to_hex_uint n)
    end in
  let digits :=
    match style with
    | Upper | PrefixUpper => upperHexDigits digits
    | _ => digits
    end in
  let prefixChars := if isPrefixedHexStyle style then 2%nat else 0%nat in
  let numChars :=
    Nat.max (N.to_nat (N.min 128 width))
            (Nat.max 1 (String.length digits) + prefixChars) in
  (if isPrefixedHexStyle style then "0x" else EmptyString)
  ++ fill (numChars - prefixChars - String.length digits) "0"
  ++ digits.

(** Modelled from the spec: [writeWithCommas], the digits in groups of
    three. *)
Fixpoint groupsOfThree (digits : string) : string :=
  match digits with
  | String a (String b (String c t)) =>
      String "," (String a (String b (String c (groupsOfThree t))))
  | _ => EmptyString
  end.

Definition writeWithCommas (digits : string) : string :=
  let initial := ((String.length digits - 1) mod 3 + 1)%nat in
  substring 0 initial digits
  ++ groupsOfThree (substring initial (String.length digits - initial) digits).

(** Modelled from the spec: [write_integer] on an [int64_t]: the sign, then
    the decimal digits, padded with zeros to [minDigits] or grouped. *)
Definition write_integer (v : Z) (minDigits : N) (style : IntegerStyle) : string :=
  let digits := decimalN (Z.abs_N v) in
  (if v <? 0 then "-" else EmptyString)
  ++ match style with
     | Number => writeWithCommas digits
     | Integer => fill (N.to_nat minDigits - String.length digits) "0" ++ digits
     end.

(** Modelled from the spec: the [format_provider] of integers: a
    hexadecimal style [x], [X], [x-], [X-], [x+], [X+], or [n], [d] or
    nothing, each followed by a number of digits. *)
Definition formatInteger (v : Z) (style : string) : string :=
  match consumeHexStyle style with
  | Some (hexStyle, rest) =>
      let digits :=
        match fst (consumeUnsignedInteger 10 rest) with
        | Some d => d
        | None => 0%N
        end in
      write_hex (Z.to_N (v mod 2 ^ 64)) hexStyle
        (if isPrefixedHexStyle hexStyle then digits + 2 else digits)%N
  | None =>
      let (integerStyle, rest) :=
        match style with
        | String "N" t | String "n" t => (Number, t)
        | String "D" t | String "d" t => (Integer, t)
        | _ => (Integer, style)
        end in
      write_integer v
        (match fst (consumeUnsignedInteger 10 rest) with
         | Some d => d
         | None => 0%N
         end)
        integerStyle
  end.

(** Modelled from the spec: [FmtAlign::format], the text padded to the
    width of the layout. *)
Definition alignText (where_ : AlignStyle) (amount : N) (pad : ascii)
    (text : string) : string :=
  let padAmount := (N.to_nat amount - String.length text)%nat in
  match where_ with
  | AlignLeft => text ++ fill padAmount pad
  | AlignCenter =>
      fill (padAmount / 2) pad ++ text ++ fill (padAmount - padAmount / 2) pad
  | AlignRight => fill padAmount pad ++ text
  end.

(** Modelled from the spec: what [formatv_object::format] writes for the
    field [{spec}]: nothing for an item without index, the text of the field
    when the index is past the arguments, the argument in its style and
    layout otherwise. *)
Definition replaceField (spec : string) (args : list Z) : string :=
  match parseReplacementItem spec with
  | None => EmptyString
  | Some item =>
      if (itemIndex item <? N.of_nat (List.length args))%N then
        alignText (itemWhere item) (itemAlign item) (itemPad item)
          (formatInteger (nth (N.to_nat (itemIndex item)) args 0)
             (itemOptions item))
      else itemSpec item
  end.

(** Where the scan of a format string stands: in literal text, after
    [count] opening braces in a row, or inside a replacement field (after a
    single brace) whose text so far is kept. *)
Inductive ScanState : Type :=
| InLiteral
| InBraces (count : nat)
| InField (spec : string).

(** Modelled from the spec: [llvm::formatv(fmt, args...)], read one
    character at a time.  Literal text is copied; of braces in a row, half
    are kept (an odd one opens a field); a field [{spec}] is replaced by
    [replaceField]; a brace that no [}] follows makes the rest literal; a
    second brace before the [}] makes the text before it literal. *)
Fixpoint formatvFrom (st : ScanState) (fmt : string) (args : list Z) : string :=
  match fmt with
  | EmptyString =>
      match st with
      | InLiteral => EmptyString
      | InBraces count =>
          fill (count / 2) "{" ++ (if Nat.even count then EmptyString else "{")
      | InField spec => String "{" spec
      end
  | String c rest =>
      match st with
      | InLiteral =>
          if Ascii.eqb c "{" then formatvFrom (InBraces 1) rest args
          else String c (formatvFrom InLiteral rest args)
      | InBraces count =>
          if Ascii.eqb c "{" then formatvFrom (InBraces (S count)) rest args
          else
            fill (count / 2) "{"
            ++ (if Nat.even count then String c (formatvFrom InLiteral rest args)
                else if negb (contains "}" fmt) then String "{" fmt
                else if Ascii.eqb c "}" then
                  replaceField EmptyString args ++ formatvFrom InLiteral rest args
                else formatvFrom (InField (String c EmptyString)) rest args)
      | InField spec =>
          if Ascii.eqb c "}" then
            replaceField spec args ++ formatvFrom InLiteral rest args
          else if Ascii.eqb c "{" then
            String "{" spec ++ formatvFrom (InBraces 1) rest args
          else formatvFrom (InField (spec ++ String c EmptyString)) rest args
      end
  end.

Definition formatv (fmt : string) (args : list Z) : string :=
  formatvFrom InLiteral fmt args.

(** Which arm of the [switch] of [formatErrorMessage] runs. *)
Inductive FormatArm : Type :=
| ArmNoInput        (* case 0 *)
| ArmFormatv        (* case 1 ... case 4 *)
| ArmDefault.       (* default *)

Definition formatArm (nrErrorMessageInputs : nat) : FormatArm :=
  match nrErrorMessageInputs with
  | 0%nat => ArmNoInput
  | 1%nat | 2%nat | 3%nat | 4%nat => ArmFormatv
  | _ => ArmDefault
  end.

(** [CheckShapeAssertionsPass::formatErrorMessage].  It always returns. *)
Definition formatErrorMessage (errorMessage : string)
    (errorMessageInputs : list Z) : Outcome string :=
  match errorMessageInputs with
  | [] => Ok errorMessage
  | [i0] => Ok (formatv errorMessage [i0])
  | [i0; i1] => Ok (formatv errorMessage [i0; i1])
  | [i0; i1; i2] => Ok (formatv errorMessage [i0; i1; i2])
  | [i0; i1; i2; i3] => Ok (formatv errorMessage [i0; i1; i2; i3])
  | _ => Ok errorMessage
  end.

(** Templates written as pieces, to state what formatting does. *)
Inductive Piece : Type :=
| Literal (text : string)
| Placeholder (index : nat).

Fixpoint braceFree (s : string) : bool :=
  match s with
  | EmptyString => true
  | String c t => negb (Ascii.eqb c "{") && braceFree t
  end.

Definition pieceText (p : Piece) : string :=
  match p with
  | Literal t => t
  | Placeholder i => "{" ++ decimalN (N.of_nat i) ++ "}"
  end.

Definition pieceValue (inputs : list Z) (p : Piece) : string :=
  match p with
  | Literal t => t
  | Placeholder i => decimalZ (nth i inputs 0)
  end.

(** The template a list of pieces writes, and its expansion. *)
Definition templateText (ps : list Piece) : string :=
  fold_right (fun p acc => pieceText p ++ acc) EmptyString ps.

Definition expansion (inputs : list Z) (ps : list Piece) : string :=
  fold_right (fun p acc => pieceValue inputs p ++ acc) EmptyString ps.

Definition pieceOk (nrInputs : nat) (p : Piece) : bool :=
  match p with
  | Literal t => braceFree t
  | Placeholder i => (i <? nrInputs)%nat
  end.

(** The template of the spec, as pieces. *)
Definition badValueTemplate : list Piece :=
  [Literal "bad value "; Placeholder 0; Literal ", expected "; Placeholder 1].

End Formatter.

Import Formatter.

(* ===================================================================== *)
(** ** The program representation *)
(* ===================================================================== *)

Module IR.

Inductive Signedness : Type := Signless | Signed | Unsigned.

Inductive ElementType : Type :=
| IntegerType (width : N) (sign : Signedness)
| OtherElementType (name : string).

Inductive Dim : Type :=
| StaticDim (size : Z)
| DynamicDim.

(** Types.  The shaped types are the two kinds of tensor. *)
Inductive Type_ : Type :=
| RankedTensorType (shape : list Dim) (elementType : ElementType)
| UnrankedTensorType (elementType : ElementType)
| OtherType (name : string).

Definition isShapedType (t : Type_) : bool :=
  match t with
  | RankedTensorType _ _ | UnrankedTensorType _ => true
  | OtherType _ => false
  end.

Definition hasRank (t : Type_) : bool :=
  match t with
  | RankedTensorType _ _ => true
  | _ => false
  end.

Definition getRank (t : Type_) : Z :=
  match t with
  | RankedTensorType shape _ => Z.of_nat (List.length shape)
  | _ => 0
  end.

Definition isDynamicDim (d : Dim) : bool :=
  match d with
  | DynamicDim => true
  | StaticDim _ => false
  end.

(** [ShapedType::hasStaticShape]: ranked, and no dimension is dynamic. *)
Definition hasStaticShape (t : Type_) : bool :=
  match t with
  | RankedTensorType shape _ => negb (existsb isDynamicDim shape)
  | _ => false
  end.

Definition getElementType (t : Type_) : option ElementType :=
  match t with
  | RankedTensorType _ e | UnrankedTensorType e => Some e
  | OtherType _ => None
  end.

Definition isSignlessInteger (e : ElementType) : bool :=
  match e with
  | IntegerType _ Signless => true
  | _ => false
  end.

Definition getElementTypeBitWidth (e : ElementType) : N :=
  match e with
  | IntegerType w _ => w
  | OtherElementType _ => 0%N
  end.

(** A value: its type and, when a constant of integer elements produces it,
    those elements (sign-extended to 64 bits). *)
Record Value : Type := mkValue {
  vType : Type_;
  vConstant : option (list Z)
}.

(** [mlir::hlo::matchInts]. *)
Definition matchInts (v : Value) : option (list Z) := vConstant v.

Inductive Attribute : Type :=
| StringAttr (value : string)
| BoolAttr (value : bool)
| IntegerAttr (value : Z)
| OtherAttr (text : string).

Definition NamedAttribute : Type := (string * Attribute)%type.

(** A [stablehlo.custom_call].  Its declared attributes are read through
    their accessors; [otherAttrs] holds every other entry of the attribute
    dictionary ([api_version], [error_message], ...). *)
Record CustomCallOp : Type := mkCustomCall {
  callTargetName : string;          (* getCallTargetName() *)
  hasSideEffect : bool;             (* getHasSideEffect(), false by default *)
  backendConfig : string;           (* getBackendConfig(), empty by default *)
  inputs : list Value;              (* getInputs(), the operands *)
  resultTypes : list Type_;
  otherAttrs : list NamedAttribute
}.

(** [op->getAttrs()].  The three declared entries come first: their names
    are all among those [verifyShapeAssertion] supports, so their place does
    not change which other entry its loop stops at. *)
Definition getAttrs (op : CustomCallOp) : list NamedAttribute :=
  ("backend_config", StringAttr (backendConfig op))
  :: ("call_target_name", StringAttr (callTargetName op))
  :: ("has_side_effect", BoolAttr (hasSideEffect op))
  :: otherAttrs op.

Definition getAttr (op : CustomCallOp) (name : string) : option Attribute :=
  option_map snd (find (fun a => String.eqb (fst a) name) (getAttrs op)).

Definition hasAttr (op : CustomCallOp) (name : string) : bool :=
  match getAttr op name with
  | Some _ => true
  | None => false
  end.

(** Operations: the custom call, and any other operation with its results
    and nested regions.  A region is a list of blocks; a block has arguments
    and operations. *)
Inductive Operation : Type :=
| CustomCall (op : CustomCallOp)
| OtherOp (name : string) (operands : list Value) (results : list Type_)
          (regions : Regions)
with Regions : Type :=
| NoRegion
| ConsRegion (blocks : Blocks) (rest : Regions)
with Blocks : Type :=
| NoBlock
| ConsBlock (arguments : list Type_) (body : Ops) (rest : Blocks)
with Ops : Type :=
| NoOp
| ConsOp (op : Operation) (rest : Ops).

Scheme Operation_mut := Induction for Operation Sort Prop
  with Regions_mut := Induction for Regions Sort Prop
  with Blocks_mut := Induction for Blocks Sort Prop
  with Ops_mut := Induction for Ops Sort Prop.
Combined Scheme ir_mutind from Operation_mut, Regions_mut, Blocks_mut, Ops_mut.

Definition getName (o : Operation) : string :=
  match o with
  | CustomCall _ => "stablehlo.custom_call"
  | OtherOp name _ _ _ => name
  end.

Definition getResults (o : Operation) : list Type_ :=
  match o with
  | CustomCall op => resultTypes op
  | OtherOp _ _ results _ => results
  end.

(** [region.getArguments()]: the arguments of the first block. *)
Definition getArguments (region : Blocks) : list Type_ :=
  match region with
  | NoBlock => []
  | ConsBlock arguments _ _ => arguments
  end.

(** The argument lists [op->getRegions()] gives, region by region. *)
Fixpoint regionArguments (rs : Regions) : list (list Type_) :=
  match rs with
  | NoRegion => []
  | ConsRegion blocks rest => getArguments blocks :: regionArguments rest
  end.

Definition getRegionArguments (o : Operation) : list (list Type_) :=
  match o with
  | CustomCall _ => []
  | OtherOp _ _ _ regions => regionArguments regions
  end.

(** A module: the operations of its body. *)
Record ModuleOp : Type := mkModule { moduleBody : Ops }.

Definition moduleOperation (m : ModuleOp) : Operation :=
  OtherOp "builtin.module" [] []
    (ConsRegion (ConsBlock [] (moduleBody m) NoBlock) NoRegion).

Definition isFuncOp (o : Operation) : bool :=
  String.eqb (getName o) "func.func".

(** A diagnostic: the operation it is attached to and its message. *)
Record Diagnostic : Type := mkDiagnostic {
  diagOp : Operation;
  diagMessage : string
}.

Inductive LogicalResult : Type := success | failure.

Definition succeeded (r : LogicalResult) : bool :=
  match r with success => true | failure => false end.

(** The operations of a tree in the order the walk calls back on them:
    nested operations first, then the operation itself. *)
Fixpoint opsOfOperation (o : Operation) : list Operation :=
  match o with
  | CustomCall _ => [o]
  | OtherOp _ _ _ regions => opsOfRegions regions ++ [o]
  end
with opsOfRegions (rs : Regions) : list Operation :=
  match rs with
  | NoRegion => []
  | ConsRegion blocks rest => opsOfBlocks blocks ++ opsOfRegions rest
  end
with opsOfBlocks (bs : Blocks) : list Operation :=
  match bs with
  | NoBlock => []
  | ConsBlock _ body rest => opsOfOps body ++ opsOfBlocks rest
  end
with opsOfOps (os : Ops) : list Operation :=
  match os with
  | NoOp => []
  | ConsOp op rest => opsOfOperation op ++ opsOfOps rest
  end.

End IR.

Import IR.
(* ===================================================================== *)
(** ** A state and error monad for passes *)
(* ===================================================================== *)

Module PassMonad.

Section WithState.
Variable St : Type.

(** A computation reads and writes the state of the pass, and returns or
    stops. *)
Definition M (A : Type) : Type := St -> Outcome (A * St).

Definition ret {A} (a : A) : M A := fun s => Ok (a, s).

Definition bind {A B} (m : M A) (f : A -> M B) : M B :=
  fun s => match m s with
           | Ok (a, s') => f a s'
           | Abort c => Abort c
           end.

Definition lift {A} (x : Outcome A) : M A :=
  fun s => match x with
           | Ok a => Ok (a, s)
           | Abort c => Abort c
           end.

Definition modify (f : St -> St) : M unit := fun s => Ok (tt, f s).

Definition get : M St := fun s => Ok (s, s).

End WithState.

Arguments ret {St A} a.
Arguments bind {St A B} m f.
Arguments lift {St A} x.
Arguments modify {St} f.
Arguments get {St}.

End PassMonad.

Import PassMonad.

Declare Scope pass_scope.
Delimit Scope pass_scope with pass.
Notation "x <- m ;; k" := (bind m (fun x => k))
  (at level 61, m at next level, right associativity) : pass_scope.
Notation "m ;; k" := (bind m (fun _ => k))
  (at level 61, right associativity) : pass_scope.

(* ===================================================================== *)
(** ** The walk *)
(* ===================================================================== *)

Module Walk.

Local Open Scope pass_scope.

(** What a callback did to the operation it was called on. *)
Inductive Visit : Type := Kept | Erased.

Section Walk.
Variable St : Type.
Variable callback : Operation -> M St Visit.

(** [op->walk(callback)] in mlir's default order: the operations nested in
    an operation come first, then the operation.  An operation the callback
    erases leaves its block. *)
Fixpoint walkOperation (o : Operation) : M St (option Operation) :=
  o' <- match o with
        | CustomCall _ => ret o
        | OtherOp name operands results regions =>
            regions' <- walkRegions regions ;;
            ret (OtherOp name operands results regions')
        end ;;
  v <- callback o' ;;
  ret (match v with Kept => Some o' | Erased => None end)
with walkRegions (rs : Regions) : M St Regions :=
  match rs with
  | NoRegion => ret NoRegion
  | ConsRegion blocks rest =>
      blocks' <- walkBlocks blocks ;;
      rest' <- walkRegions rest ;;
      ret (ConsRegion blocks' rest')
  end
with walkBlocks (bs : Blocks) : M St Blocks :=
  match bs with
  | NoBlock => ret NoBlock
  | ConsBlock arguments body rest =>
      body' <- walkOps body ;;
      rest' <- walkBlocks rest ;;
      ret (ConsBlock arguments body' rest')
  end
with walkOps (os : Ops) : M St Ops :=
  match os with
  | NoOp => ret NoOp
  | ConsOp op rest =>
      op' <- walkOperation op ;;
      rest' <- walkOps rest ;;
      ret (match op' with
           | Some kept => ConsOp kept rest'
           | None => rest'
           end)
  end.

End Walk.

End Walk.

Import Walk.
(* ===================================================================== *)
(** ** [CheckShapeAssertionsPass] *)
(* ===================================================================== *)

Module CheckShapeAssertionsPass.

Local Open Scope pass_scope.

Definition shapeAssertionName : string := "shape_assertion".
Definition errorMessageAttrName : string := "error_message".
Definition maxErrorMessageInputs : Z := 4.

(** The calls a run makes, in order.  The log is not part of the program: it
    is kept to state which calls happen, and when. *)
Inductive Event : Type :=
| EvVerify (op : CustomCallOp)                     (* verifyShapeAssertion(op) *)
| EvMatchInts (op : CustomCallOp) (operand : nat)  (* matchInts(inputs[operand]) *)
| EvFormat (op : CustomCallOp) (errorMessageInputs : list Z)
                                                   (* formatErrorMessage(...) *)
| EvErase (op : CustomCallOp).                     (* op.erase() *)

(** The state a run of the pass works on: the diagnostics emitted so far,
    oldest first, whether [signalPassFailure] was called, and the log. *)
Record PassState : Type := mkPassState {
  diags : list Diagnostic;
  failed : bool;
  trace : list Event
}.

Definition emitError (op : CustomCallOp) (message : string) : M PassState unit :=
  modify (fun s => mkPassState (diags s ++ [mkDiagnostic (CustomCall op) message])
                     (failed s) (trace s)).

Definition signalPassFailure : M PassState unit :=
  modify (fun s => mkPassState (diags s) true (trace s)).

Definition logEvent (e : Event) : M PassState unit :=
  modify (fun s => mkPassState (diags s) (failed s) (trace s ++ [e])).

(** [return op.emitError() << ...;] *)
Definition emitFailure (op : CustomCallOp) (message : string)
  : M PassState LogicalResult :=
  emitError op message ;; ret failure.

(** [v[i]] on a vector or an operand range. *)
Definition at_ {A} (v : list A) (i : nat) : Outcome A :=
  match nth_error v i with
  | Some a => Ok a
  | None => Abort IndexOutOfBounds
  end.

(** The attribute names lines 126-130 let through. *)
Definition supportedAttribute (name : string) : bool :=
  String.eqb name "api_version" || String.eqb name "backend_config"
  || String.eqb name "call_target_name" || String.eqb name "error_message"
  || String.eqb name "has_side_effect".

(** The test of lines 144-147 on the type of operand #0. *)
Definition badAssertWhatType (t : Type_) : bool :=
  match getElementType t with
  | None => true                                   (* !assertWhatType *)
  | Some elementType =>
      negb (hasRank t) || negb (getRank t =? 0)
      || negb (isSignlessInteger elementType)
      || negb (getElementTypeBitWidth elementType =? 1)%N
  end.

(** The test of lines 155-159 on the type of an error message input. *)
Definition badErrorMessageInputType (t : Type_) : bool :=
  match getElementType t with
  | None => true
  | Some elementType =>
      negb (hasRank t) || negb (getRank t =? 0)
      || negb (isSignlessInteger elementType)
      || (negb (getElementTypeBitWidth elementType =? 32)%N
          && negb (getElementTypeBitWidth elementType =? 64)%N)
  end.

(** The loop of lines 152-163 over operands [#(i+1)], from [i] on: the first
    [i] whose operand has a bad type. *)
Fixpoint firstBadErrorMessageInput (i : Z) (operands : list Value) : option Z :=
  match operands with
  | [] => None
  | v :: rest =>
      if badErrorMessageInputType (vType v) then Some i
      else firstBadErrorMessageInput (i + 1) rest
  end.

Definition getErrorMessage (op : CustomCallOp) : Outcome string :=
  match getAttr op errorMessageAttrName with
  | Some (StringAttr value) => Ok value
  | _ => Abort BadAttributeCast
  end.

(** [CheckShapeAssertionsPass::verifyShapeAssertion]. *)
Definition verifyShapeAssertion (op : CustomCallOp) : M PassState LogicalResult :=
  let numOperands := Z.of_nat (List.length (inputs op)) in
  if negb ((1 <=? numOperands) && (numOperands <=? 1 + maxErrorMessageInputs))
  then emitFailure op ("expects 1 <= size(operands) <= "
                       ++ decimalZ (1 + maxErrorMessageInputs))
  else
  let nrErrorMessageInputs := numOperands - 1 in
  if negb (Nat.eqb (List.length (resultTypes op)) 0)
  then emitFailure op "expects size(results) = 0"
  else
  match find (fun attr => negb (supportedAttribute (fst attr))) (getAttrs op) with
  | Some attr => emitFailure op (fst attr ++ " is not a supported attribute")
  | None =>
  if negb (String.eqb (backendConfig op) "")
  then emitFailure op "expects an empty backend_config"
  else
  if negb (String.eqb (callTargetName op) shapeAssertionName)
  then emitFailure op "expects @shape_assertion"
  else
  if negb (hasSideEffect op)
  then emitFailure op "expects has_side_effect=true"
  else
  assertWhat <- lift (at_ (inputs op) 0) ;;
  if badAssertWhatType (vType assertWhat)
  then emitFailure op ("expects assert_what (operand #0) "
                       ++ "to be a constant of type tensor<i1>")
  else
  match firstBadErrorMessageInput 0 (tl (inputs op)) with
  | Some i =>
      emitFailure op ("expects error_message_input (operand #"
                      ++ decimalZ (i + 1) ++ ") "
                      ++ "to be a constant of type tensor<i32> or tensor<i64>")
  | None =>
  if negb (hasAttr op errorMessageAttrName)
  then emitFailure op "expects an error_message attribute"
  else
  errorMessage <- lift (getErrorMessage op) ;;
  bad <- lift (checkFormatSpecifiers nrErrorMessageInputs errorMessage) ;;
  match bad with
  | Some message => emitFailure op message
  | None => ret success
  end
  end
  end.

(** [op.erase()]. *)
Definition erase (op : CustomCallOp) : M PassState Visit :=
  logEvent (EvErase op) ;; ret Erased.

(** The loop of lines 102-111 from operand [#i] on, [operands] being the
    operands left and [errorMessageInputs] the values pushed so far.  [None]
    when the callback returns from inside the loop. *)
Fixpoint matchErrorMessageInputs (op : CustomCallOp) (i : nat)
    (operands : list Value) (errorMessageInputs : list Z)
  : M PassState (option (list Z)) :=
  match operands with
  | [] => ret (Some errorMessageInputs)
  | operand :: rest =>
      logEvent (EvMatchInts op i) ;;
      match matchInts operand with
      | None =>
          emitError op ("expects static error_message_input (operand #"
                        ++ decimalN (N.of_nat i) ++ ")") ;;
          signalPassFailure ;;
          ret None
      | Some input =>
          input0 <- lift (at_ input 0) ;;
          matchErrorMessageInputs op (S i) rest (errorMessageInputs ++ [input0])
      end
  end.

(** The callback of [runOnOperation] (lines 78-114). *)
Definition visitCustomCall (enable_shape_assertions : bool) (op : CustomCallOp)
  : M PassState Visit :=
  if negb (String.eqb (callTargetName op) shapeAssertionName) then ret Kept
  else
  if negb enable_shape_assertions then erase op
  else
  logEvent (EvVerify op) ;;
  verified <- verifyShapeAssertion op ;;
  if negb (succeeded verified) then signalPassFailure ;; ret Kept
  else
  input0 <- lift (at_ (inputs op) 0) ;;
  logEvent (EvMatchInts op 0) ;;
  match matchInts input0 with
  | None =>
      emitError op "expects static assert_what (operand #0)" ;;
      signalPassFailure ;;
      ret Kept
  | Some assertWhat =>
      assertWhat0 <- lift (at_ assertWhat 0) ;;
      if negb (assertWhat0 =? 0) then erase op
      else
      errorMessage <- lift (getErrorMessage op) ;;
      collected <- matchErrorMessageInputs op 1 (tl (inputs op)) [] ;;
      match collected with
      | None => ret Kept
      | Some errorMessageInputs =>
          logEvent (EvFormat op errorMessageInputs) ;;
          message <- lift (formatErrorMessage errorMessage errorMessageInputs) ;;
          emitError op message ;;
          signalPassFailure ;;
          ret Kept
      end
  end.

(** The walk calls back on [stablehlo.custom_call] operations only. *)
Definition callback (enable_shape_assertions : bool) (o : Operation)
  : M PassState Visit :=
  match o with
  | CustomCall op => visitCustomCall enable_shape_assertions op
  | OtherOp _ _ _ _ => ret Kept
  end.

(** [CheckShapeAssertionsPass::runOnOperation] on the operations of a
    function. *)
Definition runOnOperation (enable_shape_assertions : bool) (func_op : Operation)
  : M PassState (option Operation) :=
  walkOperation (callback enable_shape_assertions) func_op.

Definition isShapeAssertion (o : Operation) : bool :=
  match o with
  | CustomCall op => String.eqb (callTargetName op) shapeAssertionName
  | OtherOp _ _ _ _ => false
  end.

Definition initialState : PassState := mkPassState [] false [].

(** [s'] comes after [s]: it holds the diagnostics of [s] and what came
    later, and a failure signalled in [s] is still signalled. *)
Definition Extends (s s' : PassState) : Prop :=
  (exists later, diags s' = (diags s ++ later)%list)
  /\ (failed s = true -> failed s' = true).

(** A computation that never drops a diagnostic nor a failure. *)
Definition Monotone {A} (m : M PassState A) : Prop :=
  forall s a s', m s = Ok (a, s') -> Extends s s'.

(** The state after the markers [erased] were erased, and nothing else. *)
Definition afterErasing (s : PassState) (erased : list CustomCallOp) : PassState :=
  mkPassState (diags s) (failed s) (trace s ++ map EvErase erased).

Definition isMatchInts (e : Event) : Prop :=
  match e with
  | EvMatchInts _ _ => True
  | _ => False
  end.

End CheckShapeAssertionsPass.

Import CheckShapeAssertionsPass.
(* ===================================================================== *)
(** ** Statuses and the scoped diagnostic handler *)
(* ===================================================================== *)

Module Status.

(** [absl::Status], with the two error codes the file builds. *)
Inductive Status : Type :=
| OkStatus
| InvalidArgumentError (message : string)
| InternalError (message : string).

Definition newline : string := String "010"%char EmptyString.

(** Modelled from the spec: [BaseScopedDiagnosticHandler]
    ([xla/mlir/utils/error_util.h]) is not under src/.  The handler collects
    the diagnostics emitted while it lives; [ConsumeStatus().ToString()]
    drains them into one text, the messages concatenated in the order of
    emission, a line each. *)
Definition ConsumeStatus (collected : list Diagnostic) : string :=
  fold_right (fun d text => diagMessage d ++ newline ++ text) EmptyString
    collected.

End Status.

Import Status.

(* ===================================================================== *)
(** ** [ValidateStaticShapes] *)
(* ===================================================================== *)

Module Validate.

Local Open Scope pass_scope.

(** The two flags of [ValidateStaticShapes] and what its handler holds. *)
Record AuditState : Type := mkAuditState {
  moduleHasDynamicShapes : bool;
  moduleHasShapeAssertions : bool;
  collected : list Diagnostic
}.

(** The lambda [hasDynamicShape] (lines 312-315) on the type of a value. *)
Definition hasDynamicShape (t : Type_) : bool :=
  if isShapedType t then negb (hasStaticShape t) else false.

(** Lines 316-321. *)
Definition opHasDynamicShapes (o : Operation) : bool :=
  fold_left (fun acc arguments => acc || existsb hasDynamicShape arguments)
    (getRegionArguments o)
    (false || existsb hasDynamicShape (getResults o)).

(** [op->emitOpError() << message]. *)
Definition opErrorMessage (o : Operation) (message : string) : string :=
  "'" ++ getName o ++ "' op " ++ message.

Definition emitOpError (o : Operation) (message : string) (s : AuditState)
  : AuditState :=
  mkAuditState (moduleHasDynamicShapes s) (moduleHasShapeAssertions s)
    (collected s ++ [mkDiagnostic o (opErrorMessage o message)]).

(** The callback of the walk (lines 309-333). *)
Definition auditOperation (o : Operation) : M AuditState Visit :=
  (if opHasDynamicShapes o
   then modify (fun s =>
          emitOpError o "has dynamic shapes"
            (mkAuditState true (moduleHasShapeAssertions s) (collected s)))
   else ret tt) ;;
  (if isShapeAssertion o
   then modify (fun s =>
          emitOpError o "has residual shape assertions"
            (mkAuditState (moduleHasDynamicShapes s) true (collected s)))
   else ret tt) ;;
  ret Kept.

Definition auditStart : AuditState := mkAuditState false false [].

(** The state after [module->walk(...)]. *)
Definition auditWalk (module : ModuleOp) : Outcome AuditState :=
  obind (walkOperation auditOperation (moduleOperation module) auditStart)
        (fun r => Ok (snd r)).

(** [ValidateStaticShapes]. *)
Definition ValidateStaticShapes (module : ModuleOp) : Outcome Status :=
  obind (auditWalk module) (fun s =>
    if moduleHasDynamicShapes s then
      Ok (InvalidArgumentError
            ("Module has dynamic shapes: " ++ ConsumeStatus (collected s)))
    else if moduleHasShapeAssertions s then
      Ok (InvalidArgumentError
            ("Module has residual shape assertions: "
             ++ ConsumeStatus (collected s)))
    else Ok OkStatus).

(** The diagnostics the callback emits on one operation. *)
Definition diagnosticsOf (o : Operation) : list Diagnostic :=
  (if opHasDynamicShapes o
   then [mkDiagnostic o (opErrorMessage o "has dynamic shapes")] else [])
  ++ (if isShapeAssertion o
      then [mkDiagnostic o (opErrorMessage o "has residual shape assertions")]
      else []).

(** No operation of the module has a result or a region argument whose
    shape is dynamic. *)
Definition FullyRefined (module : ModuleOp) : Prop :=
  forall o, In o (opsOfOperation (moduleOperation module)) ->
            opHasDynamicShapes o = false.

(** No operation of the module is a shape assertion. *)
Definition MarkerFree (module : ModuleOp) : Prop :=
  forall o, In o (opsOfOperation (moduleOperation module)) ->
            isShapeAssertion o = false.

(** The state of the audit after the callback ran on the operations [l]. *)
Definition auditAfter (s : AuditState) (l : list Operation) : AuditState :=
  mkAuditState
    (moduleHasDynamicShapes s || existsb opHasDynamicShapes l)
    (moduleHasShapeAssertions s || existsb isShapeAssertion l)
    (collected s ++ flat_map diagnosticsOf l).

End Validate.

Import Validate.
(* ===================================================================== *)
(** ** [RefinePolymorphicShapes] on a module *)
(* ===================================================================== *)

Module Pipeline.

Local Open Scope pass_scope.

(** The steps of a run: the verification of the module, the passes of the
    pass manager (those nested on functions name their function) and the
    final validation. *)
Inductive Step : Type :=
| VerifyModule
| Inliner
| CSE
| RefineShapes
| CanonicalizeDynamism (func : Operation)
| CheckShapeAssertions (func : Operation)
| ValidateShapes.

(** What the handler of [RefinePolymorphicShapes] holds, and the steps run
    so far with their results, oldest first (a log, as in the pass). *)
Record RunState : Type := mkRunState {
  handled : list Diagnostic;
  steps : list (Step * LogicalResult)
}.

Definition report (ds : list Diagnostic) (step : Step) (r : LogicalResult)
  : M RunState unit :=
  modify (fun s => mkRunState (handled s ++ ds) (steps s ++ [(step, r)])).

(** What a transformation of the libraries gives: its result, the
    operation as it leaves it, and the diagnostics it emits. *)
Definition Transformed (A : Type) : Type :=
  (LogicalResult * A * list Diagnostic)%type.

(** The functions the nested passes run on. *)
Fixpoint functionsOf (body : Ops) : list Operation :=
  match body with
  | NoOp => []
  | ConsOp op rest =>
      if isFuncOp op then op :: functionsOf rest else functionsOf rest
  end.

Section Refine.

(** The library functions the pipeline is built from. *)
Variable verify : ModuleOp -> LogicalResult * list Diagnostic.
Variable createInlinerPass : ModuleOp -> Transformed ModuleOp.
Variable createCSEPass : ModuleOp -> Transformed ModuleOp.
Variable createStablehloRefineShapesPass : ModuleOp -> Transformed ModuleOp.
Variable createStablehloCanonicalizeDynamismPass :
  Operation -> Transformed Operation.

Variable enable_shape_assertions : bool.

(** A pass of the pass manager, run on the module. *)
Definition Pass : Type := ModuleOp -> M RunState (LogicalResult * ModuleOp).

Definition modulePass (step : Step) (run : ModuleOp -> Transformed ModuleOp)
  : Pass :=
  fun module =>
    let '(r, module', ds) := run module in
    report ds step r ;; ret (r, module').

(** The two passes nested on [func.func], on one function. *)
Definition canonicalizeFunction (func : Operation)
  : M RunState (LogicalResult * Operation) :=
  let '(r, func', ds) := createStablehloCanonicalizeDynamismPass func in
  report ds (CanonicalizeDynamism func) r ;; ret (r, func').

(** A run of [CheckShapeAssertionsPass] on one function: it fails when
    [signalPassFailure] was called. *)
Definition checkFunction (func : Operation)
  : M RunState (LogicalResult * option Operation) :=
  ran <- lift (runOnOperation enable_shape_assertions func initialState) ;;
  let r := if failed (snd ran) then failure else success in
  report (diags (snd ran)) (CheckShapeAssertions func) r ;;
  ret (r, fst ran).

Definition consOption (o : option Operation) (rest : Ops) : Ops :=
  match o with
  | Some op => ConsOp op rest
  | None => rest
  end.

(** The nested passes over the functions of the module body, in order; the
    first failure ends the run. *)
Fixpoint runOnFunctions (body : Ops) : M RunState (LogicalResult * Ops) :=
  match body with
  | NoOp => ret (success, NoOp)
  | ConsOp op rest =>
      if isFuncOp op then
        c <- canonicalizeFunction op ;;
        if negb (succeeded (fst c)) then ret (failure, ConsOp (snd c) rest)
        else
        k <- checkFunction (snd c) ;;
        if negb (succeeded (fst k)) then ret (failure, consOption (snd k) rest)
        else
        r <- runOnFunctions rest ;;
        ret (fst r, consOption (snd k) (snd r))
      else
        r <- runOnFunctions rest ;;
        ret (fst r, ConsOp op (snd r))
  end.

Definition nestedFunctionPasses : Pass :=
  fun module =>
    r <- runOnFunctions (moduleBody module) ;;
    ret (fst r, mkModule (snd r)).

(** [pm.run(module)]: the passes in the order they were added; the first
    failure ends the run. *)
Fixpoint PassManager_run (passes : list Pass) (module : ModuleOp)
  : M RunState (LogicalResult * ModuleOp) :=
  match passes with
  | [] => ret (success, module)
  | pass :: rest =>
      r <- pass module ;;
      if negb (succeeded (fst r)) then ret (failure, snd r)
      else PassManager_run rest (snd r)
  end.

(** The passes lines 262-268 add. *)
Definition pm : list Pass :=
  [ modulePass Inliner createInlinerPass;
    modulePass CSE createCSEPass;
    modulePass RefineShapes createStablehloRefineShapesPass;
    nestedFunctionPasses ].

(** [RefinePolymorphicShapes(module, enable_shape_assertions)]: the status
    it returns and the module as it leaves it. *)
Definition refine (module : ModuleOp) : M RunState (Status * ModuleOp) :=
  let '(verified, ds) := verify module in
  report ds VerifyModule verified ;;
  if negb (succeeded verified) then
    s <- get ;;
    ret (InvalidArgumentError
           ("Module verification failed: " ++ ConsumeStatus (handled s)),
         module)
  else
    r <- PassManager_run pm module ;;
    if negb (succeeded (fst r)) then
      s <- get ;;
      ret (InvalidArgumentError
             ("Module shape refinement failed: " ++ ConsumeStatus (handled s)),
           snd r)
    else
      status <- lift (ValidateStaticShapes (snd r)) ;;
      report [] ValidateShapes
        (match status with OkStatus => success | _ => failure end) ;;
      ret (status, snd r).

(** The module passes the verification, and the transformations of the
    libraries succeed on it and leave it as it is. *)
Definition AtFixpoint (module : ModuleOp) : Prop :=
  fst (verify module) = success
  /\ fst (createInlinerPass module) = (success, module)
  /\ fst (createCSEPass module) = (success, module)
  /\ fst (createStablehloRefineShapesPass module) = (success, module)
  /\ forall f, In f (functionsOf (moduleBody module)) ->
               fst (createStablehloCanonicalizeDynamismPass f) = (success, f).

(** A finished run. *)
Record Run : Type := mkRun {
  runStatus : Status;
  runModule : ModuleOp;
  runSteps : list (Step * LogicalResult)
}.

Definition RefinePolymorphicShapes (module : ModuleOp) : Outcome Run :=
  obind (refine module (mkRunState [] []))
        (fun r => Ok (mkRun (fst (fst r)) (snd (fst r)) (steps (snd r)))).

(** *** The orchestration, as the specification words it

    The steps are fixed and ordered: the verification, the inliner, CSE,
    the refinement of shapes, then on each function the canonicalization
    and the check of the assertions, and last the validation.  A run stops
    at the first step that fails. *)

(** The module each pass on the module works on. *)
Definition afterInliner (module : ModuleOp) : ModuleOp :=
  snd (fst (createInlinerPass module)).

Definition afterCSE (module : ModuleOp) : ModuleOp :=
  snd (fst (createCSEPass (afterInliner module))).

Definition afterRefineShapes (module : ModuleOp) : ModuleOp :=
  snd (fst (createStablehloRefineShapesPass (afterCSE module))).

(** The steps on functions: each function is canonicalized, and what the
    canonicalization leaves is checked. *)
Definition nestedPlan (functions : list Operation) : list Step :=
  flat_map (fun f =>
              [CanonicalizeDynamism f;
               CheckShapeAssertions
                 (snd (fst (createStablehloCanonicalizeDynamismPass f)))])
           functions.

(** The steps of a run that nothing stops. *)
Definition plan (module : ModuleOp) : list Step :=
  ([VerifyModule; Inliner; CSE; RefineShapes]
   ++ nestedPlan (functionsOf (moduleBody (afterRefineShapes module)))
   ++ [ValidateShapes])%list.

(** The result a step gives on its own in a run on [module] that leaves the
    module [left]: that of the library function or of the pass it runs. *)
Definition stepResult (module left : ModuleOp) (step : Step) : LogicalResult :=
  match step with
  | VerifyModule => fst (verify module)
  | Inliner => fst (fst (createInlinerPass module))
  | CSE => fst (fst (createCSEPass (afterInliner module)))
  | RefineShapes => fst (fst (createStablehloRefineShapesPass (afterCSE module)))
  | CanonicalizeDynamism f => fst (fst (createStablehloCanonicalizeDynamismPass f))
  | CheckShapeAssertions f =>
      match runOnOperation enable_shape_assertions f initialState with
      | Ok (_, s) => if failed s then failure else success
      | Abort _ => failure
      end
  | ValidateShapes =>
      match ValidateStaticShapes left with
      | Ok OkStatus => success
      | _ => failure
      end
  end.

(** The diagnostics a step hands to the handler of the run. *)
Definition stepDiagnostics (module : ModuleOp) (step : Step) : list Diagnostic :=
  match step with
  | VerifyModule => snd (verify module)
  | Inliner => snd (createInlinerPass module)
  | CSE => snd (createCSEPass (afterInliner module))
  | RefineShapes => snd (createStablehloRefineShapesPass (afterCSE module))
  | CanonicalizeDynamism f => snd (createStablehloCanonicalizeDynamismPass f)
  | CheckShapeAssertions f =>
      match runOnOperation enable_shape_assertions f initialState with
      | Ok (_, s) => diags s
      | Abort _ => []
      end
  | ValidateShapes => []
  end.

End Refine.

(** The steps the pass manager runs, and those it runs on functions. *)
Definition isPassStep (step : Step) : bool :=
  match step with
  | Inliner | CSE | RefineShapes | CanonicalizeDynamism _
  | CheckShapeAssertions _ => true
  | VerifyModule | ValidateShapes => false
  end.

Definition isNestedStep (step : Step) : bool :=
  match step with
  | CanonicalizeDynamism _ | CheckShapeAssertions _ => true
  | _ => false
  end.

Definition allSucceeded (log : list (Step * LogicalResult)) : bool :=
  forallb (fun e => succeeded (snd e)) log.

(** The log of a part of a run that gave [r]: every step succeeded, or the
    last one failed and those before it succeeded. *)
Definition LogOf (r : LogicalResult) (log : list (Step * LogicalResult)) : Prop :=
  match r with
  | success => allSucceeded log = true
  | failure =>
      exists before step,
        log = (before ++ [(step, failure)])%list
        /\ allSucceeded before = true
  end.

(** A transformation that succeeds and changes nothing. *)
Definition unchanged {A} (a : A) : Transformed A := (success, a, []).

(** A part of the structural verifier: a [func.func] has one region. *)
Definition hasOneRegion (o : Operation) : bool :=
  match o with
  | OtherOp _ _ _ (ConsRegion _ NoRegion) => true
  | _ => false
  end.

Definition verifyFunctions (module : ModuleOp) : LogicalResult * list Diagnostic :=
  match find (fun f => negb (hasOneRegion f)) (functionsOf (moduleBody module)) with
  | Some f => (failure, [mkDiagnostic f "'func.func' op requires one region"])
  | None => (success, [])
  end.

(** A module of one function with an empty body. *)
Definition emptyFunction : ModuleOp :=
  mkModule
    (ConsOp (OtherOp "func.func" [] []
               (ConsRegion (ConsBlock [] NoOp NoBlock) NoRegion))
            NoOp).

(** A module of one function, whose first marker is ill-formed. *)
Definition illFormedModule : ModuleOp :=
  mkModule
    (ConsOp
       (OtherOp "func.func" [] []
          (ConsRegion
             (ConsBlock []
                (ConsOp
                   (CustomCall
                      (mkCustomCall "shape_assertion" true EmptyString [] []
                         []))
                   NoOp)
                NoBlock)
             NoRegion))
       NoOp).

(** A module whose function has no region: nothing in it has a dynamic
    shape and it holds no marker. *)
Definition functionWithoutRegion : ModuleOp :=
  mkModule (ConsOp (OtherOp "func.func" [] [] NoRegion) NoOp).

End Pipeline.

Import Pipeline.
(* ===================================================================== *)
(** ** The well-formedness rules, as the specification words them *)
(* ===================================================================== *)

Module Rules.

(** A rule gives the diagnostic of its violation, or nothing. *)
Definition Rule : Type := CustomCallOp -> option string.

Definition violatedWhen (violated : bool) (diagnostic : string) : option string :=
  if violated then Some diagnostic else None.

(** A ranked tensor of rank 0 whose elements are signless integers of one
    of the given widths. *)
Definition isScalarInteger (widths : list N) (t : Type_) : bool :=
  match t with
  | RankedTensorType [] (IntegerType w Signless) => existsb (N.eqb w) widths
  | _ => false
  end.

Definition allowList : list string :=
  ["api_version"; "backend_config"; "call_target_name"; "error_message";
   "has_side_effect"].

(** Rule 1: the operand count is in [[1, 5]]. *)
Definition operandCountRule : Rule := fun op =>
  let n := List.length (inputs op) in
  violatedWhen (negb ((1 <=? n)%nat && (n <=? 5)%nat))
    "expects 1 <= size(operands) <= 5".

(** Rule 2: there is no result. *)
Definition resultCountRule : Rule := fun op =>
  violatedWhen (negb (Nat.eqb (List.length (resultTypes op)) 0))
    "expects size(results) = 0".

(** Rule 3: every attribute name is in the allow-list. *)
Definition allowListRule : Rule := fun op =>
  option_map (fun attr => fst attr ++ " is not a supported attribute")
    (find (fun attr => negb (existsb (String.eqb (fst attr)) allowList))
          (getAttrs op)).

(** Rule 4: the backend config is the empty string. *)
Definition backendConfigRule : Rule := fun op =>
  violatedWhen (negb (String.eqb (backendConfig op) EmptyString))
    "expects an empty backend_config".

(** Rule 5: the call target is the marker name. *)
Definition callTargetRule : Rule := fun op =>
  violatedWhen (negb (String.eqb (callTargetName op) "shape_assertion"))
    "expects @shape_assertion".

(** Rule 6: has-side-effect is true. *)
Definition sideEffectRule : Rule := fun op =>
  violatedWhen (negb (hasSideEffect op)) "expects has_side_effect=true".

(** Rule 7: operand #0 is a boolean scalar. *)
Definition predicateTypeRule : Rule := fun op =>
  match inputs op with
  | assertWhat :: _ =>
      violatedWhen (negb (isScalarInteger [1%N] (vType assertWhat)))
        "expects assert_what (operand #0) to be a constant of type tensor<i1>"
  | [] => None
  end.

(** The first operand, counted from [#i], that is not a 32- or 64-bit
    integer scalar. *)
Fixpoint firstNonScalar (i : nat) (operands : list Value) : option nat :=
  match operands with
  | [] => None
  | v :: rest =>
      if isScalarInteger [32%N; 64%N] (vType v) then firstNonScalar (S i) rest
      else Some i
  end.

(** Rule 8: operands #1..#k are 32- or 64-bit integer scalars. *)
Definition messageInputTypesRule : Rule := fun op =>
  option_map
    (fun i => "expects error_message_input (operand #" ++ decimalN (N.of_nat i)
              ++ ") to be a constant of type tensor<i32> or tensor<i64>")
    (firstNonScalar 1 (tl (inputs op))).

(** Rule 9: there is an error-message attribute. *)
Definition errorMessageRule : Rule := fun op =>
  violatedWhen (negb (hasAttr op "error_message"))
    "expects an error_message attribute".

(** Rules 1 to 9, in the order of the specification. *)
Definition structuralRules : list Rule :=
  [operandCountRule; resultCountRule; allowListRule; backendConfigRule;
   callTargetRule; sideEffectRule; predicateTypeRule; messageInputTypesRule;
   errorMessageRule].

(** The diagnostic of the first rule violated. *)
Fixpoint firstViolation (rules : list Rule) (op : CustomCallOp) : option string :=
  match rules with
  | [] => None
  | rule :: rest =>
      match rule op with
      | Some diagnostic => Some diagnostic
      | None => firstViolation rest op
      end
  end.

(** *** Rule 10, as the specification words it

    "Repeatedly scan the template for the next placeholder matching pattern
    [{] digits followed by [,], [:] or [}]; for each match, parse the digit
    run as index; if index is not in [[0, inputCount)], fail with a
    descriptive diagnostic naming the offending placeholder and the valid
    bound; otherwise remove the matched placeholder text from the working
    copy and continue scanning until no placeholder remains." *)

(** The characters that close a placeholder. *)
Definition closes (c : ascii) : Prop :=
  c = ","%char \/ c = ":"%char \/ c = "}"%char.

(** [work] holds a placeholder after [before]: an opening brace, the digits
    [digits], one or more, and the closing character [close]. *)
Definition PlaceholderAt (work before digits : string) (close : ascii)
    (after : string) : Prop :=
  work = before ++ String "{" (digits ++ String close after)
  /\ digits <> EmptyString
  /\ allDigits digits = true
  /\ closes close.

(** The next placeholder of [work]: the one that starts first. *)
Definition NextPlaceholder (work before digits : string) (close : ascii)
    (after : string) : Prop :=
  PlaceholderAt work before digits close after
  /\ forall before' digits' close' after',
       PlaceholderAt work before' digits' close' after' ->
       (String.length before <= String.length before')%nat.

(** The index a digit run writes, as a number. *)
Definition indexOf (digits : string) : Z :=
  match digitsValue digits with
  | Some index => Z.of_N index
  | None => 0
  end.

(** The text of a placeholder. *)
Definition placeholderText (digits : string) (close : ascii) : string :=
  String "{" (digits ++ String close EmptyString).

(** [Validation inputCount work offending]: what the validation of the
    working copy [work] comes to: [None] when it succeeds, the offending
    placeholder when it fails. *)
Inductive Validation (inputCount : Z) : string -> option (string * ascii) -> Prop :=
| ValidationSucceeds (work : string) :
    (forall before digits close after,
        ~ PlaceholderAt work before digits close after) ->
    Validation inputCount work None
| ValidationFails (work before digits : string) (close : ascii) (after : string) :
    NextPlaceholder work before digits close after ->
    ~ (0 <= indexOf digits < inputCount) ->
    Validation inputCount work (Some (digits, close))
| ValidationContinues (work before digits : string) (close : ascii)
    (after : string) (offending : option (string * ascii)) :
    NextPlaceholder work before digits close after ->
    0 <= indexOf digits < inputCount ->
    Validation inputCount (before ++ after) offending ->
    Validation inputCount work offending.

(** The diagnostic of rule 10: it names the bound and the placeholder. *)
Definition placeholderDiagnostic (inputCount : Z) (digits : string)
    (close : ascii) : string :=
  "expects error_message to contain format specifiers with "
  ++ "error_message_input index less than " ++ decimalZ inputCount
  ++ ". Found specifier " ++ placeholderText digits close.

(** The number of message inputs of a marker. *)
Definition inputCount (op : CustomCallOp) : Z :=
  Z.of_nat (List.length (inputs op)) - 1.

(** *** What the code comes to *)

(** What [verifyShapeAssertion] does after its nine tests (lines 168-187):
    it reads the message and runs its loop on it.  This is the code, not a
    rule of the specification; it is kept to say that an operation passes
    [verifyShapeAssertion]. *)
Definition messageCheck (op : CustomCallOp) : Outcome (option string) :=
  obind (getErrorMessage op)
        (checkFormatSpecifiers (Z.of_nat (List.length (inputs op)) - 1)).

(** The outcome of [verifyShapeAssertion]: the diagnostic of the first of
    rules 1 to 9 that is violated, or what the loop of the code gives. *)
Definition verdict (op : CustomCallOp) : Outcome (option string) :=
  match firstViolation structuralRules op with
  | Some diagnostic => Ok (Some diagnostic)
  | None => messageCheck op
  end.

(** A well-formed marker: one that passes [verifyShapeAssertion]. *)
Definition wellFormed (op : CustomCallOp) : Prop := verdict op = Ok None.

(** [Scanned n template work]: the loop of the validation, started on
    [template], reaches the working copy [work] after cutting out
    placeholders whose index is in [[0, n)]. *)
Inductive Scanned (n : Z) : string -> string -> Prop :=
| ScannedStart (template : string) : Scanned n template template
| ScannedNext (template work : string) (m : Match) (index : Z) :
    regexMatch template = Some m ->
    stoi (group1Data m) = Ok index ->
    0 <= index < n ->
    Scanned n (subEmpty m) work ->
    Scanned n template work.

(** The operands [#1..#k] resolve to the constants [values]. *)
Definition Resolved (operands : list Value) (values : list Z) : Prop :=
  Forall2 (fun operand value =>
             exists more, matchInts operand = Some (value :: more))
          operands values.

(** The state after [op.emitError() << diagnostic]. *)
Definition afterError (op : CustomCallOp) (diagnostic : string) (s : PassState)
  : PassState :=
  mkPassState (diags s ++ [mkDiagnostic (CustomCall op) diagnostic])
    (failed s) (trace s).

End Rules.

Import Rules.

(* ===================================================================== *)
(** ** Erasing every marker, and the markers of a tree *)
(* ===================================================================== *)

Module Erasure.

(** A tree without its shape assertions; [None] when the operation is one
    itself. *)
Fixpoint eraseAssertions (o : Operation) : option Operation :=
  match o with
  | CustomCall _ => if isShapeAssertion o then None else Some o
  | OtherOp name operands results regions =>
      Some (OtherOp name operands results (eraseAssertionsRegions regions))
  end
with eraseAssertionsRegions (rs : Regions) : Regions :=
  match rs with
  | NoRegion => NoRegion
  | ConsRegion blocks rest =>
      ConsRegion (eraseAssertionsBlocks blocks) (eraseAssertionsRegions rest)
  end
with eraseAssertionsBlocks (bs : Blocks) : Blocks :=
  match bs with
  | NoBlock => NoBlock
  | ConsBlock arguments body rest =>
      ConsBlock arguments (eraseAssertionsOps body) (eraseAssertionsBlocks rest)
  end
with eraseAssertionsOps (os : Ops) : Ops :=
  match os with
  | NoOp => NoOp
  | ConsOp op rest =>
      match eraseAssertions op with
      | Some kept => ConsOp kept (eraseAssertionsOps rest)
      | None => eraseAssertionsOps rest
      end
  end.

(** The shape assertions among operations, in order. *)
Definition assertionsOf (o : Operation) : list CustomCallOp :=
  match o with
  | CustomCall op => if isShapeAssertion o then [op] else []
  | OtherOp _ _ _ _ => []
  end.

Definition assertionsIn (l : list Operation) : list CustomCallOp :=
  flat_map assertionsOf l.

(** The operations of an operation that may have been erased. *)
Definition opsOfKept (o : option Operation) : list Operation :=
  match o with
  | Some kept => opsOfOperation kept
  | None => []
  end.

End Erasure.

Import Erasure.

(* ===================================================================== *)
(** ** Sample operations *)
(* ===================================================================== *)

Module Samples.

Definition i1 : Type_ := RankedTensorType [] (IntegerType 1 Signless).
Definition i32 : Type_ := RankedTensorType [] (IntegerType 32 Signless).

(** The result of a [stablehlo.constant] of one element. *)
Definition constant (t : Type_) (element : Z) : Value :=
  mkValue t (Some [element]).

(** [stablehlo.custom_call @shape_assertion(assertWhat, inputs...)]. *)
Definition assertion (assertWhat : Value) (errorMessageInputs : list Value)
    (error_message : string) : CustomCallOp :=
  mkCustomCall "shape_assertion" true EmptyString
    (assertWhat :: errorMessageInputs) []
    [("error_message", StringAttr error_message)].

(** An [i1] constant true reads as -1 once sign-extended. *)
Definition holding : CustomCallOp :=
  assertion (constant i1 (-1)) [] "never shown".

Definition violatedAssertion : CustomCallOp :=
  assertion (constant i1 0) [constant i32 3; constant i32 7]
    "bad value {0}, expected {1}".

Definition sixOperands : CustomCallOp :=
  assertion (constant i1 0)
    [constant i32 1; constant i32 2; constant i32 3; constant i32 4;
     constant i32 5]
    "too many inputs".

Definition outOfRange : CustomCallOp :=
  assertion (constant i1 0) [constant i32 3] "bad value {0}, expected {1}".

(** A marker whose placeholder has an index that does not fit an [int]. *)
Definition bigIndex : CustomCallOp :=
  assertion (constant i1 0) [constant i32 3] "bad value {99999999999}".

(** A marker whose [error_message] attribute is not a string. *)
Definition nonStringMessage : CustomCallOp :=
  mkCustomCall "shape_assertion" true EmptyString [constant i1 0] []
    [("error_message", IntegerAttr 42)].

Definition withResult : CustomCallOp :=
  mkCustomCall "shape_assertion" true EmptyString [constant i1 0] [i1]
    [("error_message", StringAttr "has a result")].

Definition func (body : Ops) : Operation :=
  OtherOp "func.func" [] [] (ConsRegion (ConsBlock [] body NoBlock) NoRegion).


(** A function whose first marker is ill-formed and whose second holds. *)
Definition illFormedThenHolding : Operation :=
  func (ConsOp (CustomCall withResult) (ConsOp (CustomCall holding) NoOp)).

End Samples.

Import Samples.

(* ===================================================================== *)
(** ** Templates written as pieces, under the validation *)
(* ===================================================================== *)

Module Templates.

(** Every literal piece is free of opening braces. *)
Definition literalsBraceFree (ps : list Piece) : bool :=
  forallb (fun p => match p with
                    | Literal t => braceFree t
                    | Placeholder _ => true
                    end) ps.

(** The index [i] passes the test of line 178 without [std::stoi]
    throwing. *)
Definition accepted (n : Z) (i : nat) : bool :=
  (Z.of_nat i <? n) && (Z.of_nat i <=? INT_MAX).

(** The first placeholder of a template that is not accepted. *)
Fixpoint firstRejected (n : Z) (ps : list Piece) : option nat :=
  match ps with
  | [] => None
  | Literal _ :: rest => firstRejected n rest
  | Placeholder i :: rest =>
      if accepted n i then firstRejected n rest else Some i
  end.

(** The diagnostic of lines 179-182 on placeholder [{k}]. *)
Definition rejectedMessage (n : Z) (k : nat) : string :=
  "expects error_message to contain format specifiers with "
  ++ "error_message_input index less than " ++ decimalZ n
  ++ ". Found specifier {" ++ decimalN (N.of_nat k) ++ "}".

(** What the validation gives on a template, from its first placeholder
    that is not accepted. *)
Definition validationOf (n : Z) (ps : list Piece) : Outcome (option string) :=
  match firstRejected n ps with
  | None => Ok None
  | Some k =>
      if Z.of_nat k <=? INT_MAX then Ok (Some (rejectedMessage n k))
      else Abort StoiOutOfRange
  end.

(** The indices of the placeholders of a template. *)
Fixpoint placeholders (ps : list Piece) : list nat :=
  match ps with
  | [] => []
  | Literal _ :: rest => placeholders rest
  | Placeholder i :: rest => i :: placeholders rest
  end.

End Templates.

Import Templates.

(* ===================================================================== *)
(** ** The contract of a shape assertion *)
(* ===================================================================== *)

Module Contract.

(** [tensor<iW>]: a ranked tensor of rank 0 of signless [W]-bit integers. *)
Definition scalarOf (width : N) : Type_ :=
  RankedTensorType [] (IntegerType width Signless).

(** What a [stablehlo.custom_call] must be for [verifyShapeAssertion] to
    succeed, on the fields of the operation. *)
Definition ShapeContract (op : CustomCallOp) : Prop :=
  (1 <= List.length (inputs op) <= 5)%nat
  /\ resultTypes op = []
  /\ (forall attr, In attr (otherAttrs op) ->
        In (fst attr)
           ["api_version"; "backend_config"; "call_target_name";
            "error_message"; "has_side_effect"])
  /\ backendConfig op = EmptyString
  /\ callTargetName op = "shape_assertion"
  /\ hasSideEffect op = true
  /\ (exists assertWhat operands,
        inputs op = assertWhat :: operands
        /\ vType assertWhat = scalarOf 1
        /\ Forall (fun v => vType v = scalarOf 32 \/ vType v = scalarOf 64)
                  operands)
  /\ exists template,
       getAttr op "error_message" = Some (StringAttr template)
       /\ checkFormatSpecifiers (Z.of_nat (List.length (inputs op)) - 1) template
          = Ok None.

End Contract.

Import Contract.

(* ===================================================================== *)
(** ** What a walk of the pass did, from its log *)
(* ===================================================================== *)

Module Summary.

(** The markers [verifyShapeAssertion] was called on, and those erased, in
    the order of the calls. *)
Definition verifiedIn (log : list Event) : list CustomCallOp :=
  flat_map (fun e => match e with EvVerify op => [op] | _ => [] end) log.

Definition erasedIn (log : list Event) : list CustomCallOp :=
  flat_map (fun e => match e with EvErase op => [op] | _ => [] end) log.

Definition nonEmpty {A} (l : list A) : bool :=
  match l with
  | [] => false
  | _ :: _ => true
  end.

(** [WalkSummary enable before after s s']: a walk over the operations
    [before] that left the operations [after] took the state from [s] to
    [s']. *)
Definition WalkSummary (enable : bool) (before after : list Operation)
    (s s' : PassState) : Prop :=
  exists (emitted : list Diagnostic) (logged : list Event),
    diags s' = (diags s ++ emitted)%list
    /\ trace s' = (trace s ++ logged)%list
    /\ failed s' = failed s || nonEmpty emitted
    /\ (forall d, In d emitted ->
          isShapeAssertion (diagOp d) = true /\ In (diagOp d) after)
    /\ (forall m, In m (assertionsIn after) ->
          In (CustomCall m) (map diagOp emitted))
    /\ verifiedIn logged = (if enable then assertionsIn before else [])
    /\ (List.length (erasedIn logged) + List.length (assertionsIn after)
        = List.length (assertionsIn before))%nat.

(** A tree that may have been erased, without its shape assertions. *)
Definition eraseAssertionsKept (o : option Operation) : option Operation :=
  match o with
  | Some kept => eraseAssertions kept
  | None => None
  end.

(** A marker whose predicate is not a constant, and one whose second
    message input is not a constant. *)
Definition dynamicPredicate : CustomCallOp :=
  assertion (mkValue i1 None) [] "never shown".

Definition dynamicInput : CustomCallOp :=
  assertion (constant i1 0) [constant i32 3; mkValue i32 None]
    "bad value {0}, expected {1}".

(** The diagnostic of the validation on a marker left in the module. *)
Definition residualDiagnostic (o : Operation) : Diagnostic :=
  mkDiagnostic o "'stablehlo.custom_call' op has residual shape assertions".

(** A module whose function holds two markers and no dynamic shape. *)
Definition twoResidualMarkers : ModuleOp :=
  mkModule
    (ConsOp (func (ConsOp (CustomCall holding)
                     (ConsOp (CustomCall violatedAssertion) NoOp)))
            NoOp).

(** A module whose function holds a violated marker. *)
Definition violatedModule : ModuleOp :=
  mkModule (ConsOp (func (ConsOp (CustomCall violatedAssertion) NoOp)) NoOp).

(** A function with three markers: one that holds, one that is violated,
    one that holds. *)
Definition threeMarkers : Operation :=
  func (ConsOp (CustomCall holding)
          (ConsOp (CustomCall violatedAssertion)
             (ConsOp (CustomCall holding) NoOp))).

End Summary.

Import Summary.

(* ===================================================================== *)
(** ** [RefinePolymorphicShapes] on the text of a module *)
(* ===================================================================== *)

Module TextEntry.

Section RefineText.

(** [mlir::parseSourceString]: the module a text writes, if any; and
    [mlir::writeBytecodeToFile]: its result and the bytes the stream
    received. *)
Variable parseSourceString : string -> option ModuleOp.
Variable writeBytecodeToFile : ModuleOp -> LogicalResult * string.

Variable verify : ModuleOp -> LogicalResult * list Diagnostic.
Variable createInlinerPass : ModuleOp -> Transformed ModuleOp.
Variable createCSEPass : ModuleOp -> Transformed ModuleOp.
Variable createStablehloRefineShapesPass : ModuleOp -> Transformed ModuleOp.
Variable createStablehloCanonicalizeDynamismPass :
  Operation -> Transformed Operation.

Variable enable_shape_assertions : bool.

(** [RefinePolymorphicShapes(module_str, os, enable_shape_assertions)]
    (lines 277-302): the status it returns and what [os] received. *)
Definition RefinePolymorphicShapes (module_str : string)
  : Outcome (Status * string) :=
  match parseSourceString module_str with
  | None => Ok (InvalidArgumentError "Cannot parse module.", EmptyString)
  | Some module =>
      obind (Pipeline.RefinePolymorphicShapes verify createInlinerPass
               createCSEPass createStablehloRefineShapesPass
               createStablehloCanonicalizeDynamismPass
               enable_shape_assertions module)
        (fun run =>
           match runStatus run with
           | OkStatus =>
               let (written, bytes) := writeBytecodeToFile (runModule run) in
               if succeeded written then Ok (OkStatus, bytes)
               else Ok (InternalError "Cannot serialize module.", bytes)
           | error => Ok (error, EmptyString)
           end)
  end.

End RefineText.

(** A parser that knows one text, and a writer that writes one byte for
    each operation of the body. *)
Definition parseSample (text : string) : option ModuleOp :=
  if String.eqb text "module { func.func @main() { return } }"
  then Some emptyFunction else None.

Fixpoint bytesOf (body : Ops) : string :=
  match body with
  | NoOp => EmptyString
  | ConsOp _ rest => String "001"%char (bytesOf rest)
  end.

Definition writeSample (module : ModuleOp) : LogicalResult * string :=
  (success, bytesOf (moduleBody module)).

End TextEntry.

(* ===================================================================== *)
(** * Properties *)
(* ===================================================================== *)

(** ** Texts and decimal numbers *)

Section TextFacts.

Lemma append_assoc (a b c : string) : (a ++ b) ++ c = a ++ (b ++ c).
Proof. induction a as [|x a IH]; simpl; [reflexivity | now rewrite IH]. Qed.

Lemma append_empty_r (a : string) : a ++ EmptyString = a.
Proof. induction a as [|x a IH]; simpl; [reflexivity | now rewrite IH]. Qed.

Lemma allDigits_uint (u : Decimal.uint) :
  allDigits (NilEmpty.string_of_uint u) = true.
Proof. induction u; simpl; auto. Qed.

Lemma N_to_uint_not_Nil (n : N) : N.to_uint n <> Decimal.Nil.
Proof.
  destruct n as [|p]; [discriminate|].
  simpl. intros H.
  pose proof (DecimalPos.Unsigned.of_to p) as Hp. rewrite H in Hp.
  discriminate.
Qed.

Lemma decimalN_NilEmpty (n : N) :
  decimalN n = NilEmpty.string_of_uint (N.to_uint n).
Proof.
  unfold decimalN, NilZero.string_of_uint.
  pose proof (N_to_uint_not_Nil n).
  destruct (N.to_uint n); congruence.
Qed.

Lemma allDigits_decimalN (n : N) : allDigits (decimalN n) = true.
Proof. rewrite decimalN_NilEmpty. apply allDigits_uint. Qed.

Lemma digitsValue_decimalN (n : N) : digitsValue (decimalN n) = Some n.
Proof.
  unfold digitsValue. rewrite decimalN_NilEmpty, NilEmpty.usu. simpl.
  now rewrite DecimalN.Unsigned.of_to.
Qed.

Lemma spanDigits_app (ds : string) (c : ascii) (rest : string) :
  allDigits ds = true -> isDigit c = false ->
  spanDigits (ds ++ String c rest) = (ds, String c rest).
Proof.
  intros Hds Hc. induction ds as [|d ds IH]; simpl in *.
  - now rewrite Hc.
  - apply andb_true_iff in Hds as [Hd Hds]. rewrite Hd, (IH Hds). reflexivity.
Qed.

Lemma spanDigits_allDigits (s : string) : allDigits (fst (spanDigits s)) = true.
Proof.
  induction s as [|c s IH]; simpl; [reflexivity|].
  destruct (isDigit c) eqn:Hc; [|reflexivity].
  destruct (spanDigits s) as [ds r]. simpl in *. now rewrite Hc, IH.
Qed.

Lemma Occurs_intro (p a q : string) : Occurs a (p ++ a ++ q).
Proof. now exists p, q. Qed.

Lemma Occurs_prepend (p a b : string) : Occurs a b -> Occurs a (p ++ b).
Proof.
  intros (x & y & ->). exists (p ++ x), y. now rewrite append_assoc.
Qed.

Lemma Occurs_append (a b q : string) : Occurs a b -> Occurs a (b ++ q).
Proof.
  intros (x & y & ->). exists x, (y ++ q). now rewrite !append_assoc.
Qed.

End TextFacts.

(** ** The formatter *)

Section FormatterFacts.

Lemma formatvFrom_literal (t rest : string) (args : list Z) :
  braceFree t = true ->
  formatvFrom InLiteral (t ++ rest) args = t ++ formatvFrom InLiteral rest args.
Proof.
  induction t as [|c t IH]; simpl; intros H; [reflexivity|].
  apply andb_true_iff in H as [Hc Ht]. apply negb_true_iff in Hc.
  now rewrite Hc, (IH Ht).
Qed.

(** Without a minimal number of digits an integer is written as the
    decimal number it is. *)
Lemma write_integer_decimal (v : Z) : write_integer v 0 Integer = decimalZ v.
Proof. destruct v; reflexivity. Qed.

Lemma replaceField_decimal (i : nat) (args : list Z) :
  (i < 10)%nat -> (i < List.length args)%nat ->
  replaceField (decimalN (N.of_nat i)) args = decimalZ (nth i args 0).
Proof.
  intros Hten Hi. unfold replaceField.
  assert (Hparse : parseReplacementItem (decimalN (N.of_nat i))
                   = Some (mkReplacementItem (decimalN (N.of_nat i))
                             (N.of_nat i) 0 AlignRight " " EmptyString)).
  { do 10 (destruct i as [|i]; [reflexivity|]). lia. }
  rewrite Hparse. cbn [itemIndex itemAlign itemWhere itemPad itemOptions].
  assert (H : (N.of_nat i <? N.of_nat (List.length args))%N = true)
    by (apply N.ltb_lt; lia).
  rewrite H, Nat2N.id. unfold alignText, formatInteger. cbn.
  apply write_integer_decimal.
Qed.

Lemma formatv_placeholder (i : nat) (rest : string) (args : list Z) :
  (i < 10)%nat -> (i < List.length args)%nat ->
  formatvFrom InLiteral (pieceText (Placeholder i) ++ rest) args
  = decimalZ (nth i args 0) ++ formatvFrom InLiteral rest args.
Proof.
  intros Hten Hi. rewrite <- (replaceField_decimal args Hten Hi).
  do 10 (destruct i as [|i]; [reflexivity|]). lia.
Qed.

Lemma formatv_template (args : list Z) (ps : list Piece) :
  (List.length args <= 10)%nat ->
  forallb (pieceOk (List.length args)) ps = true ->
  formatv (templateText ps) args = expansion args ps.
Proof.
  intros Hlen. unfold formatv. induction ps as [|p ps IH]; simpl; intros H.
  - reflexivity.
  - apply andb_true_iff in H as [Hp Hps]. specialize (IH Hps).
    destruct p as [t|i]; simpl in Hp.
    + cbn [pieceText pieceValue]. now rewrite formatvFrom_literal, IH.
    + apply Nat.ltb_lt in Hp.
      rewrite formatv_placeholder by lia. now rewrite IH.
Qed.

Lemma template_without_inputs (ps : list Piece) :
  forallb (pieceOk 0) ps = true -> templateText ps = expansion [] ps.
Proof.
  induction ps as [|p ps IH]; simpl; intros H; [reflexivity|].
  apply andb_true_iff in H as [Hp Hps].
  destruct p as [t|i]; simpl in *; [|discriminate].
  now rewrite IH.
Qed.

Lemma formatErrorMessage_arm (t : string) (args : list Z) :
  formatErrorMessage t args
  = match formatArm (List.length args) with
    | ArmFormatv => Ok (formatv t args)
    | _ => Ok t
    end.
Proof.
  destruct args as [|a [|b [|c [|d [|e r]]]]]; reflexivity.
Qed.

(** C5. [formatErrorMessage] on a template made of literal text and
    placeholders [{i}], with at most four inputs and every [i] below their
    number, returns the template with each placeholder replaced by input
    [i] in decimal; so ["bad value {0}, expected {1}"] with inputs [3; 7]
    gives ["bad value 3, expected 7"]; and with more than four inputs it
    returns the template as it is. *)
Theorem formatErrorMessage_substitutes :
  (forall (ps : list Piece) (inputs : list Z),
      (List.length inputs <= 4)%nat ->
      forallb (pieceOk (List.length inputs)) ps = true ->
      formatErrorMessage (templateText ps) inputs = Ok (expansion inputs ps))
  /\ formatErrorMessage "bad value {0}, expected {1}" [3; 7]
     = Ok "bad value 3, expected 7"
  /\ (forall (template : string) (inputs : list Z),
        (4 < List.length inputs)%nat ->
        formatErrorMessage template inputs = Ok template).
Proof.
  split; [|split].
  - intros ps inputs Hlen Hok. rewrite formatErrorMessage_arm.
    destruct inputs as [|a [|b [|c [|d [|e r]]]]]; simpl in Hlen; try lia;
      cbn [List.length formatArm];
      try (f_equal; apply formatv_template; [simpl; lia | exact Hok]).
    f_equal. now apply template_without_inputs.
  - reflexivity.
  - intros template inputs Hlen. rewrite formatErrorMessage_arm.
    destruct inputs as [|a [|b [|c [|d [|e r]]]]]; simpl in Hlen; try lia.
    reflexivity.
Qed.

Lemma formatErrorMessage_substitutes_witness :
  formatErrorMessage (templateText badValueTemplate) [3; 7]
  = Ok (expansion [3; 7] badValueTemplate)
  /\ formatErrorMessage "{0}" [1; 2; 3; 4; 5] = Ok "{0}".
Proof.
  split.
  - apply (proj1 formatErrorMessage_substitutes); [simpl; lia | reflexivity].
  - apply (proj2 (proj2 formatErrorMessage_substitutes)). simpl. lia.
Defined.

End FormatterFacts.

(** ** The well-formedness check *)

Section VerifyFacts.

Lemma badAssertWhatType_spec (t : Type_) :
  badAssertWhatType t = negb (isScalarInteger [1%N] t).
Proof.
  destruct t as [shape [w sg|n]|[w sg|n]|n]; try reflexivity.
  all: destruct shape as [|d shape]; cbn.
  all: try destruct sg; cbn; try reflexivity.
  now rewrite orb_false_r.
Qed.

Lemma badErrorMessageInputType_spec (t : Type_) :
  badErrorMessageInputType t = negb (isScalarInteger [32%N; 64%N] t).
Proof.
  destruct t as [shape [w sg|n]|[w sg|n]|n]; try reflexivity.
  all: destruct shape as [|d shape]; cbn.
  all: try destruct sg; cbn; try reflexivity.
  now rewrite orb_false_r, negb_orb.
Qed.

Lemma firstBadErrorMessageInput_spec (i : nat) (operands : list Value) :
  firstBadErrorMessageInput (Z.of_nat i) operands
  = option_map (fun k => Z.of_nat (pred k)) (firstNonScalar (S i) operands).
Proof.
  revert i. induction operands as [|v rest IH]; intros i; simpl.
  - reflexivity.
  - rewrite badErrorMessageInputType_spec.
    destruct (isScalarInteger [32%N; 64%N] (vType v)); simpl; [|reflexivity].
    replace (Z.of_nat i + 1) with (Z.of_nat (S i)) by lia. apply IH.
Qed.

Lemma firstNonScalar_positive (i k : nat) (operands : list Value) :
  firstNonScalar i operands = Some k -> (i <= k)%nat.
Proof.
  revert i. induction operands as [|v rest IH]; intros i; simpl.
  - discriminate.
  - destruct (isScalarInteger [32%N; 64%N] (vType v)).
    + intros H. apply IH in H. lia.
    + intros [= <-]. lia.
Qed.

Lemma decimalZ_of_nat (k : nat) : decimalZ (Z.of_nat k) = decimalN (N.of_nat k).
Proof.
  unfold decimalZ, decimalN. destruct k as [|k]; [reflexivity|].
  simpl. reflexivity.
Qed.

Lemma supportedAttribute_spec (name : string) :
  supportedAttribute name = existsb (String.eqb name) allowList.
Proof.
  unfold supportedAttribute, allowList. simpl.
  now rewrite orb_false_r, !orb_assoc.
Qed.

Lemma find_pointwise {A} (f g : A -> bool) (l : list A) :
  (forall a, f a = g a) -> find f l = find g l.
Proof.
  intros H. induction l as [|a l IH]; simpl; [reflexivity|].
  now rewrite H, IH.
Qed.

(** What [verifyShapeAssertion] does, from the verdict of the rules. *)
Lemma verifyShapeAssertion_verdict (op : CustomCallOp) (s : PassState) :
  verifyShapeAssertion op s
  = match verdict op with
    | Ok None => Ok (success, s)
    | Ok (Some diagnostic) => Ok (failure, afterError op diagnostic s)
    | Abort c => Abort c
    end.
Proof.
  unfold verifyShapeAssertion, verdict, structuralRules.
  cbn [firstViolation].
  unfold operandCountRule, maxErrorMessageInputs.
  replace ((1 <=? Z.of_nat (List.length (inputs op)))
           && (Z.of_nat (List.length (inputs op)) <=? 1 + 4))
    with ((1 <=? List.length (inputs op))%nat
          && (List.length (inputs op) <=? 5)%nat).
  2:{ destruct (Nat.leb_spec 1 (List.length (inputs op)));
      destruct (Nat.leb_spec (List.length (inputs op)) 5);
      destruct (Z.leb_spec 1 (Z.of_nat (List.length (inputs op))));
      destruct (Z.leb_spec (Z.of_nat (List.length (inputs op))) (1 + 4));
      simpl; try reflexivity; lia. }
  destruct ((1 <=? List.length (inputs op))%nat
            && (List.length (inputs op) <=? 5)%nat) eqn:Hcount;
    cbn [negb violatedWhen]; [|reflexivity].
  unfold resultCountRule.
  destruct (Nat.eqb (List.length (resultTypes op)) 0);
    cbn [negb violatedWhen]; [|reflexivity].
  unfold allowListRule.
  rewrite (find_pointwise
             (fun attr : NamedAttribute => negb (supportedAttribute (fst attr)))
             (fun attr => negb (existsb (String.eqb (fst attr)) allowList)))
    by (intros a; now rewrite supportedAttribute_spec).
  change NamedAttribute with (string * Attribute)%type.
  match goal with
  | |- context [find ?f ?l] => destruct (find f l) as [attr|]
  end; cbn [option_map]; [reflexivity|].
  unfold backendConfigRule.
  destruct (String.eqb (backendConfig op) ""); cbn [negb violatedWhen];
    [|reflexivity].
  unfold callTargetRule, shapeAssertionName.
  destruct (String.eqb (callTargetName op) "shape_assertion");
    cbn [negb violatedWhen]; [|reflexivity].
  unfold sideEffectRule.
  destruct (hasSideEffect op); cbn [negb violatedWhen]; [|reflexivity].
  unfold predicateTypeRule.
  destruct (inputs op) as [|assertWhat rest] eqn:Hin; [discriminate|].
  unfold bind at 1. cbn [at_ nth_error lift].
  rewrite badAssertWhatType_spec.
  destruct (isScalarInteger [1%N] (vType assertWhat));
    cbn [negb violatedWhen]; [|reflexivity].
  unfold messageInputTypesRule. rewrite Hin. cbn [tl].
  rewrite (firstBadErrorMessageInput_spec 0).
  destruct (firstNonScalar 1 rest) as [k|] eqn:Hk; cbn [option_map].
  { apply firstNonScalar_positive in Hk.
    replace (Z.of_nat (pred k) + 1) with (Z.of_nat k) by lia.
    now rewrite decimalZ_of_nat. }
  unfold errorMessageRule, errorMessageAttrName.
  destruct (hasAttr op "error_message"); cbn [negb violatedWhen];
    [|reflexivity].
  unfold messageCheck, bind, lift. rewrite Hin.
  cbn [List.length].
  destruct (getErrorMessage op) as [template|c]; cbn [obind]; [|reflexivity].
  destruct (checkFormatSpecifiers _ template) as [[d|]|c]; reflexivity.
Qed.

End VerifyFacts.

(** ** The validation of placeholders *)

Section FormatSpecFacts.

Lemma checkFormatSpecifiers_unfold (n : Z) (s : string) :
  checkFormatSpecifiers n s
  = match regexMatch s with
    | None => Ok None
    | Some m =>
        match stoi (group1Data m) with
        | Abort c => Abort c
        | Ok index =>
            if (0 <=? index) && (index <? n)
            then checkFormatSpecifiers n (subEmpty m)
            else Ok (Some (badSpecifierMessage n m))
        end
    end.
Proof.
  funelim (checkFormatSpecifiers n s);
    match goal with E : regexMatch _ = _ |- _ => rewrite E end;
    try match goal with E : stoi _ = _ |- _ => rewrite E end;
    try match goal with E : (_ && _) = _ |- _ => rewrite E end;
    reflexivity.
Qed.

Lemma checkFormatSpecifiers_scanned (n : Z) (template work : string) :
  Scanned n template work ->
  checkFormatSpecifiers n template = checkFormatSpecifiers n work.
Proof.
  induction 1 as [|template work m index Hm Hstoi Hrange _ IH];
    [reflexivity|].
  rewrite checkFormatSpecifiers_unfold, Hm, Hstoi.
  assert (H : (0 <=? index) && (index <? n) = true).
  { apply andb_true_iff. split; [apply Z.leb_le | apply Z.ltb_lt]; lia. }
  now rewrite H.
Qed.

(** A placeholder whose index is not below [n] ends the validation with
    the diagnostic that names it. *)
Lemma checkFormatSpecifiers_out_of_range (n : Z) (template work : string)
    (m : Match) (k : Z) :
  Scanned n template work ->
  regexMatch work = Some m ->
  stoi (group1Data m) = Ok k ->
  n <= k ->
  checkFormatSpecifiers n template = Ok (Some (badSpecifierMessage n m)).
Proof.
  intros Hscan Hm Hstoi Hk.
  rewrite (checkFormatSpecifiers_scanned Hscan).
  rewrite checkFormatSpecifiers_unfold, Hm, Hstoi.
  assert (H : (0 <=? k) && (k <? n) = false).
  { apply andb_false_iff. right. apply Z.ltb_ge. lia. }
  now rewrite H.
Qed.

(** An index that does not fit an [int] makes [std::stoi] throw: the
    validation does not return. *)
Lemma checkFormatSpecifiers_stoi_overflow :
  checkFormatSpecifiers 1 "bad value {99999999999}" = Abort StoiOutOfRange.
Proof. reflexivity. Qed.

Lemma badSpecifierMessage_names (n : Z) (m : Match) :
  Occurs (matched m) (badSpecifierMessage n m)
  /\ Occurs ("index less than " ++ decimalZ n) (badSpecifierMessage n m).
Proof.
  unfold badSpecifierMessage. split.
  - exists ("expects error_message to contain format specifiers with "
            ++ "error_message_input index less than " ++ decimalZ n
            ++ ". Found specifier "), EmptyString.
    now rewrite append_empty_r, !append_assoc.
  - exists ("expects error_message to contain format specifiers with "
            ++ "error_message_input "), (". Found specifier " ++ matched m).
    now rewrite !append_assoc.
Qed.

End FormatSpecFacts.

(** ** Rule 10 of the specification and the loop of the code *)

Section ValidationFacts.

Lemma closes_isDelim (c : ascii) : closes c <-> isDelim c = true.
Proof.
  split.
  - intros [-> | [-> | ->]]; reflexivity.
  - unfold closes.
    destruct c as [[] [] [] [] [] [] [] []]; cbn; intros H;
      try discriminate H; auto.
Qed.

Lemma closes_not_digit (c : ascii) : closes c -> isDigit c = false.
Proof. intros [-> | [-> | ->]]; reflexivity. Qed.

Lemma spanDigits_eq (s ds r : string) : spanDigits s = (ds, r) -> s = ds ++ r.
Proof.
  revert ds r. induction s as [|c s IH]; simpl; intros ds r.
  - now intros [= <- <-].
  - destruct (isDigit c).
    + destruct (spanDigits s) as [ds' r']. intros [= <- <-].
      simpl. now rewrite (IH _ _ eq_refl).
    + now intros [= <- <-].
Qed.

Lemma digitsValue_allDigits (ds : string) :
  allDigits ds = true -> exists index, digitsValue ds = Some index.
Proof.
  unfold digitsValue. induction ds as [|c ds IH]; simpl; intros H.
  - eexists. reflexivity.
  - apply andb_true_iff in H as [Hc Hds].
    destruct (IH Hds) as [index Hindex].
    destruct (NilEmpty.uint_of_string ds) as [u|]; [|discriminate].
    destruct c as [[] [] [] [] [] [] [] []]; try discriminate Hc;
      simpl; eexists; reflexivity.
Qed.

(** [std::stoi] on a digit run that a closing character follows. *)
Lemma stoi_digits (digits : string) (close : ascii) (after : string) :
  digits <> EmptyString -> allDigits digits = true -> closes close ->
  stoi (digits ++ String close after)
  = if indexOf digits <=? INT_MAX then Ok (indexOf digits)
    else Abort StoiOutOfRange.
Proof.
  intros Hne Hds Hc. unfold stoi, indexOf.
  rewrite (@spanDigits_app digits close after Hds (closes_not_digit Hc)). cbn [fst].
  destruct (@digitsValue_allDigits digits Hds) as [index Hindex].
  destruct digits as [|d ds]; [congruence|].
  now rewrite Hindex.
Qed.

Lemma matchHere_inv (s digits : string) (close : ascii) (after : string) :
  matchHere s = Some (digits, close, after) ->
  PlaceholderAt s EmptyString digits close after.
Proof.
  destruct s as [|a t]; [discriminate|]. unfold matchHere.
  destruct (Ascii.eqb_spec a "{"%char) as [->|Hne].
  - destruct (spanDigits t) as [ds r] eqn:E.
    destruct ds as [|d ds]; [discriminate|].
    destruct r as [|c r]; [discriminate|].
    destruct (isDelim c) eqn:Hc; [|discriminate].
    intros [= <- <- <-]. pose proof (spanDigits_allDigits t) as Hds.
    rewrite E in Hds. apply spanDigits_eq in E.
    repeat split; [now rewrite E | discriminate | exact Hds|].
    now apply closes_isDelim.
  - destruct a as [[|] [|] [|] [|] [|] [|] [|] [|]]; try discriminate.
    now elim Hne.
Qed.

Lemma matchHere_intro (digits : string) (close : ascii) (after : string) :
  digits <> EmptyString -> allDigits digits = true -> closes close ->
  matchHere (String "{" (digits ++ String close after))
  = Some (digits, close, after).
Proof.
  intros Hne Hds Hc. unfold matchHere.
  rewrite (@spanDigits_app digits close after Hds (closes_not_digit Hc)).
  destruct digits as [|d ds]; [congruence|].
  apply closes_isDelim in Hc. now rewrite Hc.
Qed.

Lemma regexMatch_eq (s : string) :
  regexMatch s
  = match matchHere s with
    | Some (ds, c, rest) => Some (mkMatch EmptyString ds c rest)
    | None =>
        match s with
        | EmptyString => None
        | String a t =>
            match regexMatch t with
            | Some m =>
                Some (mkMatch (String a (mPrefix m)) (mDigits m) (mDelim m)
                        (mSuffix m))
            | None => None
            end
        end
    end.
Proof. destruct s; reflexivity. Qed.

(** The regex finds the next placeholder of the specification. *)
Lemma regexMatch_next (before : string) :
  forall (work digits : string) (close : ascii) (after : string),
    NextPlaceholder work before digits close after ->
    regexMatch work = Some (mkMatch before digits close after).
Proof.
  induction before as [|x before IH];
    intros work digits close after [(Hwork & Hne & Hds & Hc) Hfirst].
  - cbn [append] in Hwork. subst work.
    now rewrite regexMatch_eq, matchHere_intro.
  - cbn [append] in Hwork. subst work. rewrite regexMatch_eq.
    destruct (matchHere _) as [[[ds c] rest]|] eqn:Ehere.
    + apply matchHere_inv, Hfirst in Ehere. simpl in Ehere. lia.
    + rewrite (IH _ digits close after); [reflexivity|].
      split; [now repeat split|].
      intros before' digits' close' after' (Hw' & Hne' & Hds' & Hc').
      assert (H : PlaceholderAt
                    (String x (before ++ String "{" (digits ++ String close after)))
                    (String x before') digits' close' after').
      { repeat split; try assumption. cbn [append]. now rewrite Hw'. }
      apply Hfirst in H. simpl in H. lia.
Qed.

(** It finds nothing where the specification sees no placeholder. *)
Lemma regexMatch_none (work : string) :
  (forall before digits close after,
      ~ PlaceholderAt work before digits close after) ->
  regexMatch work = None.
Proof.
  induction work as [|x work IH]; intros Hnone; [reflexivity|].
  rewrite regexMatch_eq.
  destruct (matchHere _) as [[[ds c] rest]|] eqn:Ehere.
  - apply matchHere_inv in Ehere. now apply Hnone in Ehere.
  - rewrite IH; [reflexivity|].
    intros before digits close after (Hw & Hne & Hds & Hc).
    apply (Hnone (String x before) digits close after).
    repeat split; try assumption. cbn [append]. now rewrite Hw.
Qed.

Lemma badSpecifierMessage_diagnostic (n : Z) (before digits : string)
    (close : ascii) (after : string) :
  badSpecifierMessage n (mkMatch before digits close after)
  = placeholderDiagnostic n digits close.
Proof.
  unfold badSpecifierMessage, placeholderDiagnostic, matched, placeholderText.
  reflexivity.
Qed.

(** The loop of the code against rule 10 of the specification: they agree
    unless the offending index does not fit an [int], where [std::stoi]
    throws. *)
Lemma checkFormatSpecifiers_validation (n : Z) (template : string)
    (offending : option (string * ascii)) :
  n <= INT_MAX + 1 ->
  Validation n template offending ->
  checkFormatSpecifiers n template
  = match offending with
    | None => Ok None
    | Some (digits, close) =>
        if indexOf digits <=? INT_MAX
        then Ok (Some (placeholderDiagnostic n digits close))
        else Abort StoiOutOfRange
    end.
Proof.
  intros Hn Hv.
  induction Hv as [work Hnone
                  |work before digits close after Hnext Hout
                  |work before digits close after offending Hnext Hin _ IH].
  - rewrite checkFormatSpecifiers_unfold, regexMatch_none by exact Hnone.
    reflexivity.
  - rewrite checkFormatSpecifiers_unfold,
      (@regexMatch_next before work digits close after Hnext).
    destruct Hnext as [(_ & Hne & Hds & Hc) _].
    unfold group1Data. cbn [mDigits mDelim mSuffix].
    rewrite (@stoi_digits digits close after Hne Hds Hc).
    destruct (indexOf digits <=? INT_MAX); [|reflexivity].
    assert (H : (0 <=? indexOf digits) && (indexOf digits <? n) = false).
    { destruct (Z.leb_spec 0 (indexOf digits));
        destruct (Z.ltb_spec (indexOf digits) n); try reflexivity. lia. }
    rewrite H. now rewrite badSpecifierMessage_diagnostic.
  - rewrite checkFormatSpecifiers_unfold,
      (@regexMatch_next before work digits close after Hnext).
    destruct Hnext as [(_ & Hne & Hds & Hc) _].
    unfold group1Data. cbn [mDigits mDelim mSuffix].
    rewrite (@stoi_digits digits close after Hne Hds Hc).
    assert (Hfit : (indexOf digits <=? INT_MAX) = true) by (apply Z.leb_le; lia).
    rewrite Hfit.
    assert (H : (0 <=? indexOf digits) && (indexOf digits <? n) = true).
    { apply andb_true_iff. split; [apply Z.leb_le | apply Z.ltb_lt]; lia. }
    rewrite H. exact IH.
Qed.

Lemma PlaceholderAt_tail (x : ascii) (work before digits : string)
    (close : ascii) (after : string) :
  PlaceholderAt (String x work) (String x before) digits close after
  <-> PlaceholderAt work before digits close after.
Proof.
  unfold PlaceholderAt. cbn [append]. split.
  - intros (Hw & H). injection Hw as Hw. now split.
  - intros (Hw & H). now rewrite <- Hw.
Qed.

(** What the regex finds is the next placeholder of the specification. *)
Lemma regexMatch_sound (work : string) :
  forall m, regexMatch work = Some m ->
            NextPlaceholder work (mPrefix m) (mDigits m) (mDelim m) (mSuffix m).
Proof.
  induction work as [|x work IH]; intros m; [discriminate|].
  rewrite regexMatch_eq.
  destruct (matchHere (String x work)) as [[[ds c] rest]|] eqn:Ehere.
  - intros [= <-]. cbn [mPrefix mDigits mDelim mSuffix].
    split; [now apply matchHere_inv|]. intros. simpl. lia.
  - destruct (regexMatch work) as [m'|]; [|discriminate].
    intros [= <-]. cbn [mPrefix mDigits mDelim mSuffix].
    destruct (IH m' eq_refl) as [Hat Hfirst]. split.
    + exact (proj2 (PlaceholderAt_tail x work _ _ _ _) Hat).
    + intros before' digits' close' after' Hat'.
      destruct before' as [|y before'].
      * destruct Hat' as (Hw & Hne & Hds & Hc). cbn [append] in Hw.
        rewrite Hw, matchHere_intro in Ehere by assumption. discriminate.
      * assert (y = x) as -> by (destruct Hat' as (Hw & _); now injection Hw).
        pose proof (Hfirst _ _ _ _
                      (proj1 (PlaceholderAt_tail x work before' digits' close'
                                after') Hat')).
        simpl. lia.
Qed.

Lemma regexMatch_complete (work : string) :
  regexMatch work = None ->
  forall before digits close after,
    ~ PlaceholderAt work before digits close after.
Proof.
  induction work as [|x work IH]; intros Hnone before digits close after Hat.
  - destruct Hat as (Hw & _). destruct before; discriminate.
  - rewrite regexMatch_eq in Hnone.
    destruct (matchHere (String x work)) as [[[ds c] rest]|] eqn:Ehere;
      [discriminate|].
    destruct before as [|y before].
    + destruct Hat as (Hw & Hne & Hds & Hc). cbn [append] in Hw.
      rewrite Hw, matchHere_intro in Ehere by assumption. discriminate.
    + assert (y = x) as -> by (destruct Hat as (Hw & _); now injection Hw).
      destruct (regexMatch work); [discriminate|].
      exact (IH eq_refl _ _ _ _
               (proj1 (PlaceholderAt_tail x work before digits close after) Hat)).
Qed.

Lemma length_append (a b : string) :
  String.length (a ++ b) = (String.length a + String.length b)%nat.
Proof. induction a as [|x a IH]; simpl; [reflexivity | now rewrite IH]. Qed.

(** The validation of the specification comes to a verdict on every
    template. *)
Lemma Validation_total (n : Z) (template : string) :
  exists offending, Validation n template offending.
Proof.
  remember (String.length template) as k eqn:Hk. revert template Hk.
  induction k as [k IH] using lt_wf_ind. intros template ->.
  destruct (regexMatch template) as [m|] eqn:Em.
  - apply regexMatch_sound in Em. destruct m as [before digits close after].
    cbn [mPrefix mDigits mDelim mSuffix] in Em.
    destruct (Z.le_gt_cases 0 (indexOf digits)) as [Hlo|Hlo];
      [destruct (Z.lt_ge_cases (indexOf digits) n) as [Hhi|Hhi]|].
    + destruct (IH (String.length (before ++ after))) with (template := (before ++ after))
        as [offending Hv]; [|reflexivity|].
      * destruct Em as [(-> & _) _]. rewrite !length_append. simpl.
        rewrite length_append. simpl. lia.
      * exists offending. eapply ValidationContinues; eauto.
    + exists (Some (digits, close)). eapply ValidationFails; eauto. lia.
    + exists (Some (digits, close)). eapply ValidationFails; eauto. lia.
  - exists None. apply ValidationSucceeds. now apply regexMatch_complete.
Qed.

(** An offending placeholder has an index that is not below the number of
    inputs. *)
Lemma Validation_offending (n : Z) (template digits : string) (close : ascii) :
  Validation n template (Some (digits, close)) -> n <= indexOf digits.
Proof.
  intros Hv. remember (Some (digits, close)) as offending eqn:Ho.
  induction Hv as [work Hnone
                  |work before ds c after Hnext Hout
                  |work before ds c after offending Hnext Hin _ IH];
    [discriminate | | now apply IH].
  injection Ho as <- <-.
  assert (0 <= indexOf ds) by (unfold indexOf; destruct (digitsValue ds); lia).
  lia.
Qed.

End ValidationFacts.

(** ** The walk *)

Section WalkFacts.

Variable St : Type.
Variable cb : Operation -> M St Visit.

Local Open Scope pass_scope.

Lemma walkOperation_eq (o : Operation) :
  walkOperation cb o
  = (o' <- match o with
           | CustomCall _ => ret o
           | OtherOp name operands results regions =>
               regions' <- walkRegions cb regions ;;
               ret (OtherOp name operands results regions')
           end ;;
     v <- cb o' ;;
     ret (match v with Kept => Some o' | Erased => None end)).
Proof. destruct o; reflexivity. Qed.

Lemma walkRegions_eq (blocks : Blocks) (rest : Regions) :
  walkRegions cb (ConsRegion blocks rest)
  = (blocks' <- walkBlocks cb blocks ;;
     rest' <- walkRegions cb rest ;;
     ret (ConsRegion blocks' rest')).
Proof. reflexivity. Qed.

Lemma walkBlocks_eq (arguments : list Type_) (body : Ops) (rest : Blocks) :
  walkBlocks cb (ConsBlock arguments body rest)
  = (body' <- walkOps cb body ;;
     rest' <- walkBlocks cb rest ;;
     ret (ConsBlock arguments body' rest')).
Proof. reflexivity. Qed.

Lemma walkOps_eq (op : Operation) (rest : Ops) :
  walkOps cb (ConsOp op rest)
  = (op' <- walkOperation cb op ;;
     rest' <- walkOps cb rest ;;
     ret (match op' with
          | Some kept => ConsOp kept rest'
          | None => rest'
          end)).
Proof. reflexivity. Qed.

Lemma walkOps_cons (op : Operation) (rest : Ops) (s : St) :
  walkOps cb (ConsOp op rest) s
  = match walkOperation cb op s with
    | Ok (Some kept, s1) =>
        obind (walkOps cb rest s1) (fun r => Ok (ConsOp kept (fst r), snd r))
    | Ok (None, s1) => walkOps cb rest s1
    | Abort c => Abort c
    end.
Proof.
  rewrite walkOps_eq. unfold bind, ret.
  destruct (walkOperation cb op s) as [[[kept|] s1]|c]; try reflexivity;
    destruct (walkOps cb rest s1) as [[rest' s2]|c]; reflexivity.
Qed.

Lemma walkOperation_custom_call (op : CustomCallOp) (s : St) :
  walkOperation cb (CustomCall op) s
  = match cb (CustomCall op) s with
    | Ok (Kept, s1) => Ok (Some (CustomCall op), s1)
    | Ok (Erased, s1) => Ok (None, s1)
    | Abort c => Abort c
    end.
Proof.
  rewrite walkOperation_eq. unfold bind, ret.
  destruct (cb (CustomCall op) s) as [[[|] s1]|c]; reflexivity.
Qed.

(** A property of the state that the callback keeps is kept by the walk. *)
Lemma walk_invariant (P : St -> Prop) :
  (forall o s v s', cb o s = Ok (v, s') -> P s -> P s') ->
  (forall o s r s', walkOperation cb o s = Ok (r, s') -> P s -> P s')
  /\ (forall rs s r s', walkRegions cb rs s = Ok (r, s') -> P s -> P s')
  /\ (forall bs s r s', walkBlocks cb bs s = Ok (r, s') -> P s -> P s')
  /\ (forall os s r s', walkOps cb os s = Ok (r, s') -> P s -> P s').
Proof.
  intros Hcb. apply ir_mutind.
  - intros op s r s'. rewrite walkOperation_custom_call.
    destruct (cb (CustomCall op) s) as [[[|] s1]|c] eqn:E; intros [= <- <-];
      eauto.
  - intros name operands results regions IH s r s'.
    rewrite walkOperation_eq. unfold bind, ret.
    destruct (walkRegions cb regions s) as [[rs' s1]|c] eqn:E; [|discriminate].
    destruct (cb _ s1) as [[v s2]|c] eqn:E2; [|discriminate].
    intros [= <- <-] HP. eauto.
  - intros s r s' [= <- <-]. auto.
  - intros blocks IHb rest IHr s r s'. rewrite walkRegions_eq. unfold bind, ret.
    destruct (walkBlocks cb blocks s) as [[b' s1]|c] eqn:E1; [|discriminate].
    destruct (walkRegions cb rest s1) as [[r' s2]|c] eqn:E2; [|discriminate].
    intros [= <- <-] HP. eauto.
  - intros s r s' [= <- <-]. auto.
  - intros arguments body IHb rest IHr s r s'. rewrite walkBlocks_eq.
    unfold bind, ret.
    destruct (walkOps cb body s) as [[b' s1]|c] eqn:E1; [|discriminate].
    destruct (walkBlocks cb rest s1) as [[r' s2]|c] eqn:E2; [|discriminate].
    intros [= <- <-] HP. eauto.
  - intros s r s' [= <- <-]. auto.
  - intros op IHo rest IHr s r s'. rewrite walkOps_eq. unfold bind, ret.
    destruct (walkOperation cb op s) as [[o' s1]|c] eqn:E1; [|discriminate].
    destruct (walkOps cb rest s1) as [[r' s2]|c] eqn:E2; [|discriminate].
    intros [= <- <-] HP. eauto.
Qed.

End WalkFacts.

(** ** The callback of the pass *)

Section CallbackFacts.

Lemma firstViolation_none (rules : list Rule) (op : CustomCallOp) :
  firstViolation rules op = None <-> Forall (fun rule => rule op = None) rules.
Proof.
  induction rules as [|rule rest IH]; simpl.
  - split; [constructor | reflexivity].
  - destruct (rule op) as [d|] eqn:E.
    + split; [discriminate|]. intros H. inversion H. congruence.
    + rewrite IH. split; [now constructor | now inversion 1].
Qed.

Lemma firstViolation_at (pre post : list Rule) (rule : Rule)
    (op : CustomCallOp) (d : string) :
  Forall (fun r => r op = None) pre ->
  rule op = Some d ->
  firstViolation (pre ++ rule :: post) op = Some d.
Proof.
  induction 1 as [|r pre Hr _ IH]; simpl; intros Hd.
  - now rewrite Hd.
  - rewrite Hr. now apply IH.
Qed.

(** The state after the callback gave up on an ill-formed marker. *)
Lemma visit_ill_formed (op : CustomCallOp) (s : PassState) (d : string) :
  callTargetName op = shapeAssertionName ->
  verdict op = Ok (Some d) ->
  visitCustomCall true op s
  = Ok (Kept, mkPassState (diags s ++ [mkDiagnostic (CustomCall op) d])%list true
                (trace s ++ [EvVerify op])%list).
Proof.
  intros Hname Hv. unfold visitCustomCall.
  rewrite Hname, String.eqb_refl. cbn [negb].
  unfold bind at 1. cbn [logEvent modify].
  unfold bind at 1. rewrite verifyShapeAssertion_verdict, Hv.
  reflexivity.
Qed.

Lemma matchErrorMessageInputs_resolved (op : CustomCallOp) (operands : list Value)
    (values : list Z) :
  Resolved operands values ->
  forall (i : nat) (acc : list Z) (s : PassState),
    matchErrorMessageInputs op i operands acc s
    = Ok (Some (acc ++ values)%list,
          mkPassState (diags s) (failed s)
            (trace s ++ map (EvMatchInts op) (seq i (List.length operands)))%list).
Proof.
  induction 1 as [|operand value operands values [more Hv] _ IH];
    intros i acc s.
  - cbn. rewrite !app_nil_r. now destruct s.
  - cbn [matchErrorMessageInputs]. unfold bind at 1. cbn [logEvent modify].
    rewrite Hv. unfold bind at 1. cbn [at_ nth_error lift].
    rewrite IH. cbn [diags failed trace List.length seq map].
    now rewrite <- !app_assoc.
Qed.

(** A well-formed marker whose predicate is a constant other than zero is
    erased. *)
Lemma visit_holds (op : CustomCallOp) (s : PassState) (assertWhat : Value)
    (operands : list Value) (c : Z) (more : list Z) :
  callTargetName op = shapeAssertionName ->
  wellFormed op ->
  inputs op = assertWhat :: operands ->
  matchInts assertWhat = Some (c :: more) ->
  c <> 0 ->
  visitCustomCall true op s
  = Ok (Erased, mkPassState (diags s) (failed s)
                  (trace s ++ [EvVerify op; EvMatchInts op 0; EvErase op])%list).
Proof.
  intros Hname Hwf Hin Hc Hnz. unfold visitCustomCall.
  rewrite Hname, String.eqb_refl. cbn [negb].
  unfold bind at 1. cbn [logEvent modify].
  unfold bind at 1. rewrite verifyShapeAssertion_verdict, Hwf.
  cbn [succeeded negb]. rewrite Hin.
  unfold bind at 1. cbn [at_ nth_error lift].
  unfold bind at 1. cbn [logEvent modify]. rewrite Hc.
  unfold bind at 1. cbn [at_ nth_error lift].
  apply Z.eqb_neq in Hnz. rewrite Hnz. cbn [negb].
  unfold erase, bind. cbn. now rewrite <- !app_assoc.
Qed.

(** A well-formed marker whose predicate is the constant zero and whose
    message inputs are constants stays, with the formatted message. *)
Lemma visit_violated (op : CustomCallOp) (s : PassState) (assertWhat : Value)
    (operands : list Value) (more : list Z) (values : list Z)
    (template : string) :
  callTargetName op = shapeAssertionName ->
  wellFormed op ->
  inputs op = assertWhat :: operands ->
  matchInts assertWhat = Some (0 :: more) ->
  Resolved operands values ->
  getErrorMessage op = Ok template ->
  visitCustomCall true op s
  = obind (formatErrorMessage template values) (fun message =>
      Ok (Kept,
          mkPassState (diags s ++ [mkDiagnostic (CustomCall op) message])%list
            true
            (trace s ++ [EvVerify op; EvMatchInts op 0]
             ++ map (EvMatchInts op) (seq 1 (List.length operands))
             ++ [EvFormat op values])%list)).
Proof.
  intros Hname Hwf Hin Hc Hres Hmsg. unfold visitCustomCall.
  rewrite Hname, String.eqb_refl. cbn [negb].
  unfold bind at 1. cbn [logEvent modify].
  unfold bind at 1. rewrite verifyShapeAssertion_verdict, Hwf.
  cbn [succeeded negb]. rewrite Hin.
  unfold bind at 1. cbn [at_ nth_error lift].
  unfold bind at 1. cbn [logEvent modify]. rewrite Hc.
  unfold bind at 1. cbn [at_ nth_error lift Z.eqb negb].
  unfold bind at 1. rewrite Hmsg. cbn [lift tl].
  unfold bind at 1. rewrite (matchErrorMessageInputs_resolved op Hres).
  cbn [app diags failed trace].
  unfold bind at 1. cbn [logEvent modify].
  change ([] ++ values)%list with values.
  unfold bind at 1.
  destruct (formatErrorMessage template values) as [message|c]; cbn [lift obind];
    [|reflexivity].
  unfold bind, emitError, signalPassFailure, modify, ret. cbn.
  now rewrite <- !app_assoc.
Qed.

Lemma verdict_structural (op : CustomCallOp) (d : string) :
  firstViolation structuralRules op = Some d -> verdict op = Ok (Some d).
Proof. unfold verdict. now intros ->. Qed.

Lemma verdict_messageCheck (op : CustomCallOp) :
  firstViolation structuralRules op = None -> verdict op = messageCheck op.
Proof. unfold verdict. now intros ->. Qed.

Lemma wellFormed_structural (op : CustomCallOp) :
  wellFormed op -> firstViolation structuralRules op = None.
Proof.
  unfold wellFormed, verdict.
  destruct (firstViolation structuralRules op); [discriminate | reflexivity].
Qed.

Lemma structural_marker (op : CustomCallOp) :
  firstViolation structuralRules op = None ->
  callTargetName op = shapeAssertionName.
Proof.
  intros H. apply firstViolation_none in H.
  unfold structuralRules in H.
  do 4 (apply Forall_inv_tail in H). apply Forall_inv in H.
  unfold callTargetRule in H.
  destruct (String.eqb_spec (callTargetName op) "shape_assertion") as [E|E];
    [exact E | discriminate].
Qed.

Lemma structural_operand_count (op : CustomCallOp) :
  firstViolation structuralRules op = None ->
  (1 <= List.length (inputs op) <= 5)%nat.
Proof.
  intros H. apply firstViolation_none in H. apply Forall_inv in H.
  unfold operandCountRule in H.
  destruct (Nat.leb_spec 1 (List.length (inputs op)));
    destruct (Nat.leb_spec (List.length (inputs op)) 5);
    simpl in H; try discriminate. lia.
Qed.

Lemma matchErrorMessageInputs_trace (op : CustomCallOp) (operands : list Value) :
  forall (i : nat) (acc : list Z) (s : PassState) r s',
    matchErrorMessageInputs op i operands acc s = Ok (r, s') ->
    exists new,
      trace s' = (trace s ++ new)%list
      /\ Forall isMatchInts new
      /\ forall values, r = Some values ->
           List.length values = (List.length acc + List.length operands)%nat.
Proof.
  induction operands as [|operand rest IH]; intros i acc s r s'.
  - cbn. intros [= <- <-]. exists []. rewrite app_nil_r.
    repeat split; [constructor|]. intros values [= <-]. lia.
  - cbn [matchErrorMessageInputs]. unfold bind at 1. cbn [logEvent modify].
    destruct (matchInts operand) as [input|].
    + unfold bind at 1. destruct input as [|input0 input]; cbn [at_ nth_error lift];
        [discriminate|].
      intros H. apply IH in H as (new & Htr & Hnew & Hlen).
      cbn [trace] in Htr. exists (EvMatchInts op i :: new).
      rewrite Htr, <- app_assoc. repeat split.
      * constructor; [exact I | exact Hnew].
      * intros values Hv. rewrite (Hlen _ Hv), length_app. simpl. lia.
    + unfold bind, emitError, signalPassFailure, modify, ret. cbn.
      intros [= <- <-]. exists [EvMatchInts op i]. cbn.
      repeat split; [repeat constructor|]. discriminate.
Qed.

(** Every call of [formatErrorMessage] the callback makes is on a
    well-formed marker, with one value for each operand after the first. *)
Lemma visit_format_inputs (enable : bool) (op : CustomCallOp) (s : PassState)
    (v : Visit) (s' : PassState) :
  visitCustomCall enable op s = Ok (v, s') ->
  exists new,
    trace s' = (trace s ++ new)%list
    /\ forall op' values, In (EvFormat op' values) new ->
         op' = op /\ wellFormed op
         /\ S (List.length values) = List.length (inputs op).
Proof.
  unfold visitCustomCall.
  destruct (String.eqb (callTargetName op) shapeAssertionName); cbn [negb].
  2:{ intros [= <- <-]. exists []. rewrite app_nil_r. split; [reflexivity|].
      intros ? ? []. }
  destruct enable; cbn [negb].
  2:{ unfold erase, bind, logEvent, modify, ret. intros [= <- <-].
      exists [EvErase op]. split; [reflexivity|].
      intros ? ? [H|[]]. discriminate. }
  unfold bind at 1. cbn [logEvent modify].
  unfold bind at 1. rewrite verifyShapeAssertion_verdict.
  destruct (verdict op) as [[d|]|c] eqn:Hv; [| |discriminate].
  { cbn [succeeded negb]. unfold bind, signalPassFailure, modify, ret.
    intros [= <- <-]. exists [EvVerify op]. split; [reflexivity|].
    intros ? ? [H|[]]. discriminate. }
  cbn [succeeded negb].
  destruct (inputs op) as [|assertWhat operands] eqn:Hin.
  { unfold bind. cbn. discriminate. }
  unfold bind at 1. cbn [at_ nth_error lift].
  unfold bind at 1. cbn [logEvent modify].
  destruct (matchInts assertWhat) as [[|c more]|].
  - unfold bind. cbn. discriminate.
  - unfold bind at 1. cbn [at_ nth_error lift].
    destruct (c =? 0); cbn [negb].
    + unfold bind at 1.
      destruct (getErrorMessage op) as [template|c']; cbn [lift];
        [|discriminate].
      unfold bind at 1. cbn [tl].
      destruct (matchErrorMessageInputs op 1 operands [] _)
        as [[[values|] s1]|c'] eqn:Hm; [| |discriminate].
      * apply matchErrorMessageInputs_trace in Hm as (new & Htr & Hnew & Hlen).
        specialize (Hlen _ eq_refl). cbn [trace List.length] in Htr, Hlen.
        unfold bind at 1. cbn [logEvent modify].
        unfold bind at 1.
        destruct (formatErrorMessage template values) as [message|c'];
          cbn [lift]; [|discriminate].
        unfold bind, emitError, signalPassFailure, modify, ret. cbn.
        intros [= <- <-].
        exists ([EvVerify op; EvMatchInts op 0] ++ new ++ [EvFormat op values])%list.
        rewrite Htr, <- !app_assoc. split; [reflexivity|].
        intros op' values' Hev. cbn in Hev.
        destruct Hev as [Hev|[Hev|Hev]]; try discriminate.
        apply in_app_or in Hev as [Hev|[Hev|[]]].
        -- rewrite Forall_forall in Hnew. apply Hnew in Hev. destruct Hev.
        -- injection Hev as <- <-. repeat split; [exact Hv|].
           cbn [List.length]. now rewrite Hlen.
      * apply matchErrorMessageInputs_trace in Hm as (new & Htr & Hnew & _).
        cbn [trace] in Htr. intros [= <- <-].
        exists ([EvVerify op; EvMatchInts op 0] ++ new)%list.
        rewrite Htr, <- !app_assoc. split; [reflexivity|].
        intros op' values' Hev. cbn in Hev.
        destruct Hev as [Hev|[Hev|Hev]]; try discriminate.
        rewrite Forall_forall in Hnew. apply Hnew in Hev. destruct Hev.
    + unfold erase, bind, logEvent, modify, ret. cbn. intros [= <- <-].
      exists [EvVerify op; EvMatchInts op 0; EvErase op].
      rewrite <- !app_assoc. split; [reflexivity|].
      intros ? ? [H|[H|[H|[]]]]; discriminate.
  - unfold bind, emitError, signalPassFailure, modify, ret. cbn.
    intros [= <- <-]. exists [EvVerify op; EvMatchInts op 0].
    rewrite <- !app_assoc. split; [reflexivity|].
    intros ? ? [H|[H|[]]]; discriminate.
Qed.



Lemma getErrorMessage_attr (op : CustomCallOp) (template : string) :
  getErrorMessage op = Ok template
  <-> getAttr op "error_message" = Some (StringAttr template).
Proof.
  unfold getErrorMessage, errorMessageAttrName.
  destruct (getAttr op "error_message") as [[value| | |]|];
    split; intros H; try discriminate H; congruence.
Qed.

Lemma inputCount_bound (op : CustomCallOp) :
  firstViolation structuralRules op = None -> inputCount op <= INT_MAX + 1.
Proof.
  intros H. apply structural_operand_count in H.
  unfold inputCount, INT_MAX. lia.
Qed.

(** What [verifyShapeAssertion] gives on a marker that passes rules 1 to 9,
    from the verdict of rule 10 of the specification on its message. *)
Lemma verdict_validation (op : CustomCallOp) (template : string)
    (offending : option (string * ascii)) :
  firstViolation structuralRules op = None ->
  getAttr op "error_message" = Some (StringAttr template) ->
  Validation (inputCount op) template offending ->
  verdict op
  = match offending with
    | None => Ok None
    | Some (digits, close) =>
        if indexOf digits <=? INT_MAX
        then Ok (Some (placeholderDiagnostic (inputCount op) digits close))
        else Abort StoiOutOfRange
    end.
Proof.
  intros Hrules Hattr Hv.
  rewrite (verdict_messageCheck op Hrules). unfold messageCheck.
  rewrite (proj2 (getErrorMessage_attr op template) Hattr). cbn [obind].
  exact (checkFormatSpecifiers_validation (inputCount_bound op Hrules) Hv).
Qed.

Lemma verdict_bad_cast (op : CustomCallOp) :
  firstViolation structuralRules op = None ->
  (forall template, getAttr op "error_message" <> Some (StringAttr template)) ->
  verdict op = Abort BadAttributeCast.
Proof.
  intros Hrules Hattr.
  rewrite (verdict_messageCheck op Hrules). unfold messageCheck.
  unfold getErrorMessage, errorMessageAttrName.
  destruct (getAttr op "error_message") as [[value| | |]|]; try reflexivity.
  now elim (Hattr value).
Qed.

Lemma visit_abort (op : CustomCallOp) (s : PassState) (c : Crash) :
  callTargetName op = shapeAssertionName ->
  verdict op = Abort c ->
  visitCustomCall true op s = Abort c.
Proof.
  intros Hname Hv. unfold visitCustomCall.
  rewrite Hname, String.eqb_refl. cbn [negb].
  unfold bind at 1. cbn [logEvent modify].
  unfold bind at 1. rewrite verifyShapeAssertion_verdict, Hv.
  reflexivity.
Qed.

(** C4. [verifyShapeAssertion] checks the rules in the order of the
    specification.  A rule among the first nine that is violated while
    those before it hold gives its diagnostic.  When all nine hold and the
    message is a string, the result follows rule 10 of the specification
    (which has a verdict on every message): success when the validation
    succeeds, the diagnostic that names the offending placeholder and the
    bound when it fails, except that an offending index above [INT_MAX]
    makes [std::stoi] throw, so that no diagnostic is returned.  When all
    nine hold and the message attribute is not a string, the cast fails and
    no diagnostic is returned either.  A marker with six operands is
    rejected by rule 1 with no call of [matchInts]. *)
Theorem verifyShapeAssertion_first_violation :
  (forall (op : CustomCallOp) (s : PassState) (before after : list Rule)
          (rule : Rule) (d : string),
      structuralRules = (before ++ rule :: after)%list ->
      Forall (fun r => r op = None) before ->
      rule op = Some d ->
      verifyShapeAssertion op s = Ok (failure, afterError op d s))
  /\ (forall (n : Z) (template : string),
        exists offending, Validation n template offending)
  /\ (forall (op : CustomCallOp) (s : PassState) (template : string)
             (offending : option (string * ascii)),
        Forall (fun r => r op = None) structuralRules ->
        getAttr op "error_message" = Some (StringAttr template) ->
        Validation (inputCount op) template offending ->
        match offending with
        | None => verifyShapeAssertion op s = Ok (success, s)
        | Some (digits, close) =>
            (indexOf digits <= INT_MAX ->
             verifyShapeAssertion op s
             = Ok (failure,
                   afterError op
                     (placeholderDiagnostic (inputCount op) digits close) s))
            /\ (INT_MAX < indexOf digits ->
                verifyShapeAssertion op s = Abort StoiOutOfRange)
        end)
  /\ (forall (op : CustomCallOp) (s : PassState),
        Forall (fun r => r op = None) structuralRules ->
        (forall template,
            getAttr op "error_message" <> Some (StringAttr template)) ->
        verifyShapeAssertion op s = Abort BadAttributeCast)
  /\ (forall (op : CustomCallOp) (s : PassState),
        callTargetName op = shapeAssertionName ->
        List.length (inputs op) = 6%nat ->
        visitCustomCall true op s
        = Ok (Kept,
              mkPassState
                (diags s ++ [mkDiagnostic (CustomCall op)
                               "expects 1 <= size(operands) <= 5"])%list
                true (trace s ++ [EvVerify op])%list)).
Proof.
  split; [|split; [|split; [|split]]].
  - intros op s before after rule d Hrules Hbefore Hrule.
    rewrite verifyShapeAssertion_verdict.
    rewrite (verdict_structural op (d := d)); [reflexivity|].
    rewrite Hrules. now apply firstViolation_at.
  - apply Validation_total.
  - intros op s template offending Hall Hattr Hv.
    apply firstViolation_none in Hall.
    pose proof (@verdict_validation op template offending Hall Hattr Hv)
      as Hverdict.
    destruct offending as [[digits close]|].
    + split; intros Hindex; rewrite verifyShapeAssertion_verdict, Hverdict.
      * apply Z.leb_le in Hindex. now rewrite Hindex.
      * apply Z.leb_gt in Hindex. now rewrite Hindex.
    + now rewrite verifyShapeAssertion_verdict, Hverdict.
  - intros op s Hall Hattr. apply firstViolation_none in Hall.
    now rewrite verifyShapeAssertion_verdict, (@verdict_bad_cast op Hall Hattr).
  - intros op s Hname Hsix. apply visit_ill_formed; [exact Hname|].
    apply verdict_structural. cbn. unfold operandCountRule. now rewrite Hsix.
Qed.

(** Arithmetic on the index of a given placeholder and the number of inputs
    of a given marker. *)
Ltac index_arith :=
  cbn [mDigits mPrefix mDelim mSuffix];
  repeat match goal with
         | |- context [indexOf ?digits] =>
             let v := eval vm_compute in (indexOf digits) in
             change (indexOf digits) with v
         end;
  repeat match goal with
         | |- context [inputCount ?op] =>
             let v := eval vm_compute in (inputCount op) in
             change (inputCount op) with v
         end;
  unfold INT_MAX; lia.

Lemma verifyShapeAssertion_first_violation_witness :
  verifyShapeAssertion withResult initialState
  = Ok (failure, afterError withResult "expects size(results) = 0" initialState)
  /\ verifyShapeAssertion holding initialState = Ok (success, initialState)
  /\ verifyShapeAssertion outOfRange initialState
     = Ok (failure,
           afterError outOfRange (placeholderDiagnostic 1 "1" "}") initialState)
  /\ verifyShapeAssertion bigIndex initialState = Abort StoiOutOfRange
  /\ verifyShapeAssertion nonStringMessage initialState = Abort BadAttributeCast
  /\ visitCustomCall true sixOperands initialState
     = Ok (Kept,
           mkPassState [mkDiagnostic (CustomCall sixOperands)
                          "expects 1 <= size(operands) <= 5"]
             true [EvVerify sixOperands]).
Proof.
  destruct verifyShapeAssertion_first_violation
    as (Hrule & _ & Hten & Hcast & Hsix).
  assert (Hall : forall op, firstViolation structuralRules op = None ->
                            Forall (fun r : Rule => r op = None) structuralRules).
  { intros op. apply firstViolation_none. }
  split; [|split; [|split; [|split; [|split]]]].
  - apply (Hrule withResult initialState [operandCountRule] (tl (tl structuralRules))
             resultCountRule);
      [reflexivity | repeat constructor | reflexivity].
  - apply (Hten holding initialState "never shown" None (Hall holding eq_refl)
             eq_refl).
    apply ValidationSucceeds. now apply regexMatch_complete.
  - apply (Hten outOfRange initialState "bad value {0}, expected {1}"
             (Some ("1", "}"%char)) (Hall outOfRange eq_refl) eq_refl).
    + apply (ValidationContinues
               (@regexMatch_sound "bad value {0}, expected {1}"
                  (mkMatch "bad value " "0" "}" ", expected {1}") eq_refl)).
      * index_arith.
      * apply (ValidationFails
                 (@regexMatch_sound "bad value , expected {1}"
                    (mkMatch "bad value , expected " "1" "}" EmptyString)
                    eq_refl)).
        index_arith.
    + index_arith.
  - apply (Hten bigIndex initialState "bad value {99999999999}"
             (Some ("99999999999", "}"%char)) (Hall bigIndex eq_refl) eq_refl).
    + apply (ValidationFails
               (@regexMatch_sound "bad value {99999999999}"
                  (mkMatch "bad value " "99999999999" "}" EmptyString) eq_refl)).
      index_arith.
    + index_arith.
  - apply (Hcast nonStringMessage initialState (Hall nonStringMessage eq_refl)).
    intros template. discriminate.
  - apply (Hsix sixOperands initialState); reflexivity.
Defined.

(** C6. On a marker that passes rules 1 to 9 and whose message is a string,
    when the validation of the specification comes to a placeholder whose
    index [k] is not below the number [n] of message inputs: if [k] fits an
    [int], the loop of the code ends with the diagnostic that names the
    placeholder and the bound [n], and the callback ends on that failure
    without a call of [formatErrorMessage]; if [k] is above [INT_MAX],
    [std::stoi] throws before the index is compared with [n]: no diagnostic
    is emitted and neither [verifyShapeAssertion] nor the callback
    returns. *)
Theorem out_of_range_placeholder_outcome (op : CustomCallOp) (s : PassState)
    (template digits : string) (close : ascii) :
  firstViolation structuralRules op = None ->
  getAttr op "error_message" = Some (StringAttr template) ->
  Validation (inputCount op) template (Some (digits, close)) ->
  let n := inputCount op in
  let d := placeholderDiagnostic n digits close in
  n <= indexOf digits
  /\ (indexOf digits <= INT_MAX ->
      checkFormatSpecifiers n template = Ok (Some d)
      /\ Occurs (placeholderText digits close) d
      /\ Occurs ("index less than " ++ decimalZ n) d
      /\ visitCustomCall true op s
         = Ok (Kept,
               mkPassState (diags s ++ [mkDiagnostic (CustomCall op) d])%list
                 true (trace s ++ [EvVerify op])%list))
  /\ (INT_MAX < indexOf digits ->
      checkFormatSpecifiers n template = Abort StoiOutOfRange
      /\ verifyShapeAssertion op s = Abort StoiOutOfRange
      /\ visitCustomCall true op s = Abort StoiOutOfRange).
Proof.
  intros Hrules Hattr Hv n d.
  pose proof (structural_marker op Hrules) as Hname.
  pose proof (@verdict_validation op template _ Hrules Hattr Hv) as Hverdict.
  pose proof (checkFormatSpecifiers_validation (inputCount_bound op Hrules) Hv)
    as Hcheck.
  cbv beta iota in Hverdict, Hcheck.
  split; [exact (Validation_offending Hv)|]. split; intros Hindex.
  - apply Z.leb_le in Hindex. rewrite Hindex in Hverdict, Hcheck.
    split; [exact Hcheck|]. split; [|split].
    + exists ("expects error_message to contain format specifiers with "
              ++ "error_message_input index less than " ++ decimalZ n
              ++ ". Found specifier "), EmptyString.
      unfold d, placeholderDiagnostic.
      now rewrite append_empty_r, !append_assoc.
    + exists ("expects error_message to contain format specifiers with "
              ++ "error_message_input "),
             (". Found specifier " ++ placeholderText digits close).
      unfold d, placeholderDiagnostic. now rewrite !append_assoc.
    + now apply visit_ill_formed.
  - apply Z.leb_gt in Hindex. rewrite Hindex in Hverdict, Hcheck.
    split; [exact Hcheck|]. split.
    + now rewrite verifyShapeAssertion_verdict, Hverdict.
    + now apply visit_abort.
Qed.

Lemma out_of_range_placeholder_outcome_witness :
  1 <= indexOf "99999999999"
  /\ checkFormatSpecifiers 1 "bad value {99999999999}" = Abort StoiOutOfRange
  /\ verifyShapeAssertion bigIndex initialState = Abort StoiOutOfRange
  /\ visitCustomCall true bigIndex initialState = Abort StoiOutOfRange.
Proof.
  assert (Hv : Validation (inputCount bigIndex) "bad value {99999999999}"
                 (Some ("99999999999", "}"%char))).
  { apply (ValidationFails
             (@regexMatch_sound "bad value {99999999999}"
                (mkMatch "bad value " "99999999999" "}" EmptyString) eq_refl)).
    index_arith. }
  destruct (@out_of_range_placeholder_outcome bigIndex initialState
              "bad value {99999999999}" "99999999999" "}"%char
              eq_refl eq_refl Hv) as (Hk & _ & Hbig).
  split; [exact Hk|]. apply Hbig. index_arith.
Defined.

(** A well-formed marker has a message, and formatting a message always
    gives a text. *)
Lemma wellFormed_message (op : CustomCallOp) :
  wellFormed op -> exists template, getErrorMessage op = Ok template.
Proof.
  intros Hwf. pose proof (wellFormed_structural Hwf) as Hrules.
  unfold wellFormed in Hwf. rewrite (verdict_messageCheck op Hrules) in Hwf.
  unfold messageCheck in Hwf.
  destruct (getErrorMessage op) as [template|c]; [|discriminate].
  now exists template.
Qed.

Lemma formatErrorMessage_returns (template : string) (values : list Z) :
  exists message, formatErrorMessage template values = Ok message.
Proof.
  rewrite formatErrorMessage_arm.
  destruct (formatArm (List.length values)); eexists; reflexivity.
Qed.

(** C3. With assertions enabled, on every well-formed marker whose operand
    #0 is a constant: when the constant is not zero the callback erases the
    marker, which leaves its block, and emits no diagnostic; when it is zero
    and the message inputs are constants, the marker has a message,
    formatting it with the constants gives a text, and the callback attaches
    that text to the marker as a diagnostic, signals the failure of the
    pass, and keeps the marker in its block. *)
Theorem marker_with_constant_predicate (op : CustomCallOp) (assertWhat : Value)
    (operands : list Value) (c : Z) (more : list Z) :
  wellFormed op ->
  inputs op = assertWhat :: operands ->
  matchInts assertWhat = Some (c :: more) ->
  (c <> 0 ->
   forall (s : PassState) (rest : Ops),
     let s1 := mkPassState (diags s) (failed s)
                 (trace s ++ [EvVerify op; EvMatchInts op 0; EvErase op])%list in
     visitCustomCall true op s = Ok (Erased, s1)
     /\ walkOps (callback true) (ConsOp (CustomCall op) rest) s
        = walkOps (callback true) rest s1)
  /\ (c = 0 ->
      forall values : list Z,
        Resolved operands values ->
        exists template message,
          getErrorMessage op = Ok template
          /\ formatErrorMessage template values = Ok message
          /\ forall (s : PassState) (rest : Ops),
               let after :=
                 mkPassState
                   (diags s ++ [mkDiagnostic (CustomCall op) message])%list true
                   (trace s ++ [EvVerify op; EvMatchInts op 0]
                    ++ map (EvMatchInts op) (seq 1 (List.length operands))
                    ++ [EvFormat op values])%list in
               visitCustomCall true op s = Ok (Kept, after)
               /\ walkOps (callback true) (ConsOp (CustomCall op) rest) s
                  = obind (walkOps (callback true) rest after) (fun r =>
                    Ok (ConsOp (CustomCall op) (fst r), snd r))).
Proof.
  intros Hwf Hin Hc.
  pose proof (structural_marker op (wellFormed_structural Hwf)) as Hname.
  split.
  - intros Hnz s rest s1.
    pose proof (visit_holds s Hname Hwf Hin Hc Hnz) as Hvisit.
    split; [exact Hvisit|].
    rewrite walkOps_cons, walkOperation_custom_call.
    cbn [callback]. now rewrite Hvisit.
  - intros -> values Hres.
    destruct (wellFormed_message Hwf) as [template Hmsg].
    destruct (formatErrorMessage_returns template values) as [message Hformat].
    exists template, message. split; [exact Hmsg|]. split; [exact Hformat|].
    intros s rest after.
    pose proof (visit_violated s Hname Hwf Hin Hc Hres Hmsg) as Hvisit.
    rewrite Hformat in Hvisit. cbn [obind] in Hvisit.
    split; [exact Hvisit|].
    rewrite walkOps_cons, walkOperation_custom_call.
    cbn [callback]. now rewrite Hvisit.
Qed.

Lemma marker_with_constant_predicate_witness :
  visitCustomCall true holding initialState
  = Ok (Erased,
        mkPassState [] false
          [EvVerify holding; EvMatchInts holding 0; EvErase holding])
  /\ visitCustomCall true violatedAssertion initialState
     = Ok (Kept,
           mkPassState
             [mkDiagnostic (CustomCall violatedAssertion)
                "bad value 3, expected 7"]
             true
             [EvVerify violatedAssertion; EvMatchInts violatedAssertion 0;
              EvMatchInts violatedAssertion 1; EvMatchInts violatedAssertion 2;
              EvFormat violatedAssertion [3; 7]]).
Proof.
  split.
  - apply (@marker_with_constant_predicate holding (constant i1 (-1)) [] (-1) []
             eq_refl eq_refl eq_refl);
      [discriminate | exact NoOp].
  - assert (Hres : Resolved [constant i32 3; constant i32 7] [3; 7]).
    { repeat constructor; exists []; reflexivity. }
    destruct (proj2 (@marker_with_constant_predicate violatedAssertion
                       (constant i1 0) [constant i32 3; constant i32 7] 0 []
                       eq_refl eq_refl eq_refl)
                eq_refl [3; 7] Hres)
      as (template & message & Hmsg & Hformat & Hvisit).
    vm_compute in Hmsg. injection Hmsg as <-.
    vm_compute in Hformat. injection Hformat as <-.
    apply (Hvisit initialState NoOp).
Defined.

End CallbackFacts.

(** ** What the walk of the pass keeps *)

Section PassWalkFacts.

Local Open Scope pass_scope.

Lemma Extends_refl (s : PassState) : Extends s s.
Proof. split; [exists []; now rewrite app_nil_r | auto]. Qed.

Lemma Extends_trans (s1 s2 s3 : PassState) :
  Extends s1 s2 -> Extends s2 s3 -> Extends s1 s3.
Proof.
  intros [[l1 H1] F1] [[l2 H2] F2]. split; [|auto].
  exists (l1 ++ l2)%list. now rewrite H2, H1, app_assoc.
Qed.

Lemma Monotone_ret {A} (a : A) : Monotone (ret a).
Proof. intros s a' s' [= <- <-]. apply Extends_refl. Qed.

Lemma Monotone_bind {A B} (m : M PassState A) (f : A -> M PassState B) :
  Monotone m -> (forall a, Monotone (f a)) -> Monotone (bind m f).
Proof.
  intros Hm Hf s b s'. unfold bind.
  destruct (m s) as [[a s1]|c] eqn:E; [|discriminate].
  intros H. eapply Extends_trans; [eapply Hm | eapply Hf]; eassumption.
Qed.

Lemma Monotone_lift {A} (x : Outcome A) : Monotone (lift x).
Proof.
  intros s a s'. unfold lift. destruct x; [|discriminate].
  intros [= <- <-]. apply Extends_refl.
Qed.

Lemma Monotone_emitError (op : CustomCallOp) (d : string) :
  Monotone (emitError op d).
Proof.
  intros s a s' H. inversion H; subst. split; [eexists; cbn; reflexivity | auto].
Qed.

Lemma Monotone_signalPassFailure : Monotone signalPassFailure.
Proof.
  intros s a s' H. inversion H; subst.
  split; [exists []; cbn; now rewrite app_nil_r | auto].
Qed.

Lemma Monotone_logEvent (e : Event) : Monotone (logEvent e).
Proof.
  intros s a s' H. inversion H; subst.
  split; [exists []; cbn; now rewrite app_nil_r | auto].
Qed.

Ltac monotone :=
  repeat first
    [ apply Monotone_ret
    | apply Monotone_lift
    | apply Monotone_emitError
    | apply Monotone_signalPassFailure
    | apply Monotone_logEvent
    | apply Monotone_bind; [|intros ?]
    | match goal with
      | |- Monotone (if ?b then _ else _) => destruct b
      | |- Monotone (match ?x with _ => _ end) => destruct x
      | |- Monotone (let x := _ in _) => cbv zeta
      end ].

Lemma Monotone_verifyShapeAssertion (op : CustomCallOp) :
  Monotone (verifyShapeAssertion op).
Proof. unfold verifyShapeAssertion, emitFailure. monotone. Qed.

Lemma Monotone_matchErrorMessageInputs (op : CustomCallOp)
    (operands : list Value) :
  forall i acc, Monotone (matchErrorMessageInputs op i operands acc).
Proof.
  induction operands as [|operand rest IH]; intros i acc;
    cbn [matchErrorMessageInputs]; monotone. apply IH.
Qed.

Lemma Monotone_callback (enable : bool) (o : Operation) :
  Monotone (callback enable o).
Proof.
  destruct o as [op|]; cbn [callback]; [|apply Monotone_ret].
  unfold visitCustomCall, erase. monotone;
    first [apply Monotone_verifyShapeAssertion
          | apply Monotone_matchErrorMessageInputs].
Qed.

(** The walk of the pass never drops a diagnostic nor a failure. *)
Lemma walkOps_extends (enable : bool) (os : Ops) (s : PassState) r s' :
  walkOps (callback enable) os s = Ok (r, s') -> Extends s s'.
Proof.
  intros H.
  destruct (walk_invariant (callback enable) (fun x => Extends s x))
    as (_ & _ & _ & Hops).
  - intros o s1 v s2 Hcb Hs1. eapply Extends_trans; [exact Hs1|].
    eapply Monotone_callback; eassumption.
  - eapply Hops; [exact H | apply Extends_refl].
Qed.

Lemma formatArm_bounded (n : nat) : (n <= 4)%nat -> formatArm n <> ArmDefault.
Proof.
  intros H. do 5 (destruct n as [|n]; [discriminate|]). lia.
Qed.

(** C10. Every call of [formatErrorMessage] in a run of the pass is on a
    marker that passed [verifyShapeAssertion], with one value for each
    operand after the first: at most four values, so the [default] arm of
    the [switch], which returns the template as it is, is not taken. *)
Theorem formatter_default_arm_unreachable (enable : bool) (func : Operation)
    (r : option Operation) (s' : PassState) :
  runOnOperation enable func initialState = Ok (r, s') ->
  forall (op : CustomCallOp) (values : list Z),
    In (EvFormat op values) (trace s') ->
    wellFormed op
    /\ S (List.length values) = List.length (inputs op)
    /\ (List.length values <= 4)%nat
    /\ formatArm (List.length values) <> ArmDefault.
Proof.
  intros Hrun.
  set (P := fun s : PassState =>
              forall op values, In (EvFormat op values) (trace s) ->
                wellFormed op
                /\ S (List.length values) = List.length (inputs op)).
  assert (HP : P s').
  { destruct (walk_invariant (callback enable) P) as (Hop & _).
    - intros o s v s1 Hcb Hs. destruct o as [op|]; cbn [callback] in Hcb.
      + apply visit_format_inputs in Hcb as (new & Htr & Hnew).
        intros op' values Hin. rewrite Htr in Hin.
        apply in_app_or in Hin as [Hin|Hin]; [now apply Hs|].
        apply Hnew in Hin as (-> & Hwf & Hlen). now split.
      + injection Hcb as <- <-. exact Hs.
    - eapply Hop; [exact Hrun|]. intros op values [].
  }
  intros op values Hin. destruct (HP _ _ Hin) as [Hwf Hlen].
  pose proof (structural_operand_count op (wellFormed_structural Hwf)) as Hcount.
  repeat split; try assumption; [lia|].
  apply formatArm_bounded. lia.
Qed.

Lemma formatter_default_arm_unreachable_witness :
  wellFormed violatedAssertion
  /\ formatArm (List.length [3; 7]) <> ArmDefault.
Proof.
  assert (Hrun : runOnOperation true
                   (func (ConsOp (CustomCall violatedAssertion) NoOp))
                   initialState
                 = Ok (Some (func (ConsOp (CustomCall violatedAssertion) NoOp)),
                       mkPassState
                         [mkDiagnostic (CustomCall violatedAssertion)
                            "bad value 3, expected 7"]
                         true
                         [EvVerify violatedAssertion;
                          EvMatchInts violatedAssertion 0;
                          EvMatchInts violatedAssertion 1;
                          EvMatchInts violatedAssertion 2;
                          EvFormat violatedAssertion [3; 7]]))
    by reflexivity.
  destruct (formatter_default_arm_unreachable _ _ Hrun violatedAssertion [3; 7])
    as (Hwf & _ & _ & Harm).
  - cbn. do 4 right. now left.
  - split; [exact Hwf | exact Harm].
Defined.

(** The run of the pass on a function whose first marker is ill-formed and
    whose second holds: the second is verified, evaluated and erased. *)
Lemma later_marker_is_processed :
  runOnOperation true illFormedThenHolding initialState
  = Ok (Some (func (ConsOp (CustomCall withResult) NoOp)),
        mkPassState
          [mkDiagnostic (CustomCall withResult) "expects size(results) = 0"]
          true
          [EvVerify withResult; EvVerify holding; EvMatchInts holding 0;
           EvErase holding]).
Proof. reflexivity. Qed.

(** C1, amended. With assertions enabled, when the well-formedness check
    of a marker fails the callback records the diagnostic and signals the
    failure of the pass, and the marker stays; the walk then goes on with
    the operations after it in the block, from that state, and the
    diagnostic and the failure are still there when it ends. *)
Theorem ill_formed_marker_does_not_stop_walk (op : CustomCallOp) (d : string)
    (rest : Ops) (s : PassState) :
  callTargetName op = shapeAssertionName ->
  verdict op = Ok (Some d) ->
  let s1 := mkPassState (diags s ++ [mkDiagnostic (CustomCall op) d])%list true
              (trace s ++ [EvVerify op])%list in
  visitCustomCall true op s = Ok (Kept, s1)
  /\ walkOps (callback true) (ConsOp (CustomCall op) rest) s
     = obind (walkOps (callback true) rest s1)
             (fun r => Ok (ConsOp (CustomCall op) (fst r), snd r))
  /\ (forall rest' s',
        walkOps (callback true) rest s1 = Ok (rest', s') ->
        failed s' = true /\ In (mkDiagnostic (CustomCall op) d) (diags s')).
Proof.
  intros Hname Hv s1.
  pose proof (@visit_ill_formed op s d Hname Hv) as Hvisit.
  split; [exact Hvisit|]. split.
  - rewrite walkOps_cons, walkOperation_custom_call. cbn [callback].
    now rewrite Hvisit.
  - intros rest' s' Hwalk. apply walkOps_extends in Hwalk as [[later Hd] Hf].
    split; [now apply Hf|].
    rewrite Hd. apply in_or_app. left. apply in_or_app. right. now left.
Qed.

Lemma ill_formed_marker_does_not_stop_walk_witness :
  walkOps (callback true)
    (ConsOp (CustomCall withResult) (ConsOp (CustomCall holding) NoOp))
    initialState
  = obind (walkOps (callback true) (ConsOp (CustomCall holding) NoOp)
             (mkPassState
                [mkDiagnostic (CustomCall withResult) "expects size(results) = 0"]
                true [EvVerify withResult]))
          (fun r => Ok (ConsOp (CustomCall withResult) (fst r), snd r)).
Proof.
  apply (@ill_formed_marker_does_not_stop_walk withResult
           "expects size(results) = 0" (ConsOp (CustomCall holding) NoOp)
           initialState eq_refl eq_refl).
Defined.

End PassWalkFacts.

(** ** Assertions disabled *)

Section DisabledFacts.

Lemma afterErasing_nil (s : PassState) : afterErasing s [] = s.
Proof. destruct s. unfold afterErasing. cbn. now rewrite app_nil_r. Qed.

Lemma afterErasing_app (s : PassState) (l1 l2 : list CustomCallOp) :
  afterErasing (afterErasing s l1) l2 = afterErasing s (l1 ++ l2).
Proof. unfold afterErasing. cbn. now rewrite map_app, app_assoc. Qed.

Lemma assertionsIn_app (l1 l2 : list Operation) :
  assertionsIn (l1 ++ l2) = (assertionsIn l1 ++ assertionsIn l2)%list.
Proof. apply flat_map_app. Qed.

Lemma callback_disabled (o : Operation) (s : PassState) :
  callback false o s
  = Ok (if isShapeAssertion o then Erased else Kept,
        afterErasing s (assertionsOf o)).
Proof.
  destruct o as [op|name operands results regions];
    cbn [callback isShapeAssertion assertionsOf].
  - unfold visitCustomCall.
    destruct (String.eqb (callTargetName op) shapeAssertionName); cbn [negb].
    + reflexivity.
    + now rewrite afterErasing_nil.
  - now rewrite afterErasing_nil.
Qed.

(** With assertions disabled the walk erases the markers and does nothing
    else. *)
Lemma walk_disabled :
  (forall o s,
      walkOperation (callback false) o s
      = Ok (eraseAssertions o,
            afterErasing s (assertionsIn (opsOfOperation o))))
  /\ (forall rs s,
        walkRegions (callback false) rs s
        = Ok (eraseAssertionsRegions rs,
              afterErasing s (assertionsIn (opsOfRegions rs))))
  /\ (forall bs s,
        walkBlocks (callback false) bs s
        = Ok (eraseAssertionsBlocks bs,
              afterErasing s (assertionsIn (opsOfBlocks bs))))
  /\ (forall os s,
        walkOps (callback false) os s
        = Ok (eraseAssertionsOps os,
              afterErasing s (assertionsIn (opsOfOps os)))).
Proof.
  apply ir_mutind.
  - intros op s. rewrite walkOperation_custom_call, callback_disabled.
    cbn [opsOfOperation assertionsIn flat_map eraseAssertions].
    rewrite app_nil_r.
    destruct (isShapeAssertion (CustomCall op)); reflexivity.
  - intros name operands results regions IH s.
    rewrite walkOperation_eq. unfold bind, ret. rewrite IH, callback_disabled.
    cbn [isShapeAssertion assertionsOf opsOfOperation eraseAssertions].
    rewrite assertionsIn_app. cbn [assertionsIn flat_map assertionsOf app].
    now rewrite afterErasing_app.
  - intros s. cbn. now rewrite afterErasing_nil.
  - intros blocks IHb rest IHr s. rewrite walkRegions_eq. unfold bind, ret.
    rewrite IHb, IHr, afterErasing_app. cbn [opsOfRegions].
    now rewrite assertionsIn_app.
  - intros s. cbn. now rewrite afterErasing_nil.
  - intros arguments body IHb rest IHr s. rewrite walkBlocks_eq.
    unfold bind, ret.
    rewrite IHb, IHr, afterErasing_app. cbn [opsOfBlocks].
    now rewrite assertionsIn_app.
  - intros s. cbn. now rewrite afterErasing_nil.
  - intros op IHo rest IHr s. rewrite walkOps_eq. unfold bind, ret.
    rewrite IHo, IHr, afterErasing_app. cbn [opsOfOps eraseAssertionsOps].
    now rewrite assertionsIn_app.
Qed.

(** No marker is left in a tree whose markers were erased. *)
Lemma eraseAssertions_clean :
  (forall o, assertionsIn (opsOfKept (eraseAssertions o)) = [])
  /\ (forall rs, assertionsIn (opsOfRegions (eraseAssertionsRegions rs)) = [])
  /\ (forall bs, assertionsIn (opsOfBlocks (eraseAssertionsBlocks bs)) = [])
  /\ (forall os, assertionsIn (opsOfOps (eraseAssertionsOps os)) = []).
Proof.
  apply ir_mutind.
  - intros op. cbn [eraseAssertions].
    destruct (isShapeAssertion (CustomCall op)) eqn:E; cbn; [reflexivity|].
    cbn in E. now rewrite E.
  - intros name operands results regions IH. cbn [eraseAssertions opsOfKept].
    cbn [opsOfOperation]. rewrite assertionsIn_app, IH. reflexivity.
  - reflexivity.
  - intros blocks IHb rest IHr. cbn [eraseAssertionsRegions opsOfRegions].
    now rewrite assertionsIn_app, IHb, IHr.
  - reflexivity.
  - intros arguments body IHb rest IHr. cbn [eraseAssertionsBlocks opsOfBlocks].
    now rewrite assertionsIn_app, IHb, IHr.
  - reflexivity.
  - intros op IHo rest IHr. cbn [eraseAssertionsOps].
    destruct (eraseAssertions op) as [kept|]; cbn [opsOfKept] in IHo.
    + cbn [opsOfOps]. now rewrite assertionsIn_app, IHo, IHr.
    + exact IHr.
Qed.

Lemma assertionsOf_nil_iff (o : Operation) :
  assertionsOf o = [] <-> isShapeAssertion o = false.
Proof.
  destruct o as [op|]; cbn; [|tauto].
  destruct (String.eqb (callTargetName op) shapeAssertionName);
    split; (discriminate || reflexivity).
Qed.

Lemma assertionsIn_nil_iff (l : list Operation) :
  assertionsIn l = [] <-> forall o, In o l -> isShapeAssertion o = false.
Proof.
  induction l as [|o l IH].
  - split; [intros _ ? [] | reflexivity].
  - change (assertionsIn (o :: l))
      with (assertionsOf o ++ assertionsIn l)%list.
    split.
    + intros H o' [<-|Hin]; apply app_eq_nil in H as [Ho Hl].
      * now apply assertionsOf_nil_iff.
      * now apply IH.
    + intros H.
      rewrite (proj2 IH) by (intros; apply H; now right).
      rewrite app_nil_r. apply assertionsOf_nil_iff. apply H. now left.
Qed.

(** C7. With assertions disabled, a run of the pass erases every marker of
    the function, whatever its operands and attributes: its only calls are
    the erasures, one for each marker (no [verifyShapeAssertion], no
    [matchInts]), it emits no diagnostic and does not signal a failure, and
    no marker is left. *)
Theorem disabled_assertions_erase_every_marker (func : Operation)
    (s : PassState) :
  runOnOperation false func s
  = Ok (eraseAssertions func,
        mkPassState (diags s) (failed s)
          (trace s ++ map EvErase (assertionsIn (opsOfOperation func))))
  /\ (forall o, In o (opsOfKept (eraseAssertions func)) ->
                isShapeAssertion o = false)
  /\ runOnOperation false func initialState
     = Ok (eraseAssertions func,
           mkPassState [] false
             (map EvErase (assertionsIn (opsOfOperation func)))).
Proof.
  destruct walk_disabled as (Hop & _). split; [|split].
  - unfold runOnOperation. now rewrite Hop.
  - apply assertionsIn_nil_iff. apply eraseAssertions_clean.
  - unfold runOnOperation. now rewrite Hop.
Qed.

Lemma disabled_assertions_erase_every_marker_witness :
  runOnOperation false illFormedThenHolding initialState
  = Ok (Some (func NoOp),
        mkPassState [] false [EvErase withResult; EvErase holding])
  /\ isShapeAssertion (func NoOp) = false.
Proof.
  destruct (disabled_assertions_erase_every_marker illFormedThenHolding
              initialState) as (Hrun & Hclean & _).
  split; [exact Hrun|].
  apply Hclean. cbn. now left.
Defined.

End DisabledFacts.

(** ** The validation of static shapes *)

Section ValidateFacts.

Lemma auditAfter_nil (s : AuditState) : auditAfter s [] = s.
Proof.
  destruct s. unfold auditAfter. cbn. now rewrite !orb_false_r, app_nil_r.
Qed.

Lemma auditAfter_app (s : AuditState) (l1 l2 : list Operation) :
  auditAfter (auditAfter s l1) l2 = auditAfter s (l1 ++ l2).
Proof.
  unfold auditAfter. cbn.
  now rewrite !existsb_app, flat_map_app, !orb_assoc, app_assoc.
Qed.

Lemma auditOperation_spec (o : Operation) (s : AuditState) :
  auditOperation o s = Ok (Kept, auditAfter s [o]).
Proof.
  unfold auditOperation, auditAfter, diagnosticsOf, bind, modify, ret,
    emitOpError.
  cbn [existsb flat_map]. rewrite !orb_false_r, app_nil_r.
  destruct (opHasDynamicShapes o), (isShapeAssertion o); cbn;
    rewrite ?orb_true_r, ?orb_false_r, ?app_nil_r, <- ?app_assoc;
    try reflexivity; now destruct s.
Qed.

(** The audit calls back on every operation and erases none. *)
Lemma walk_audit :
  (forall o s,
      walkOperation auditOperation o s
      = Ok (Some o, auditAfter s (opsOfOperation o)))
  /\ (forall rs s,
        walkRegions auditOperation rs s
        = Ok (rs, auditAfter s (opsOfRegions rs)))
  /\ (forall bs s,
        walkBlocks auditOperation bs s
        = Ok (bs, auditAfter s (opsOfBlocks bs)))
  /\ (forall os s,
        walkOps auditOperation os s = Ok (os, auditAfter s (opsOfOps os))).
Proof.
  apply ir_mutind.
  - intros op s. now rewrite walkOperation_custom_call, auditOperation_spec.
  - intros name operands results regions IH s.
    rewrite walkOperation_eq. unfold bind, ret.
    rewrite IH, auditOperation_spec, auditAfter_app. reflexivity.
  - intros s. cbn. now rewrite auditAfter_nil.
  - intros blocks IHb rest IHr s. rewrite walkRegions_eq. unfold bind, ret.
    now rewrite IHb, IHr, auditAfter_app.
  - intros s. cbn. now rewrite auditAfter_nil.
  - intros arguments body IHb rest IHr s. rewrite walkBlocks_eq.
    unfold bind, ret. now rewrite IHb, IHr, auditAfter_app.
  - intros s. cbn. now rewrite auditAfter_nil.
  - intros op IHo rest IHr s. rewrite walkOps_eq. unfold bind, ret.
    now rewrite IHo, IHr, auditAfter_app.
Qed.

Lemma auditWalk_spec (module : ModuleOp) :
  auditWalk module
  = Ok (auditAfter auditStart (opsOfOperation (moduleOperation module))).
Proof.
  unfold auditWalk. destruct walk_audit as (Hop & _). now rewrite Hop.
Qed.

Lemma ConsumeStatus_occurs (d : Diagnostic) (l : list Diagnostic) :
  In d l -> Occurs (diagMessage d) (ConsumeStatus l).
Proof.
  induction l as [|x l IH]; [intros []|].
  cbn [ConsumeStatus fold_right]. intros [->|Hin].
  - exists EmptyString. eexists. reflexivity.
  - apply Occurs_prepend, Occurs_prepend. now apply IH.
Qed.







End ValidateFacts.

(** ** Trees without markers *)

Section MarkerFreeFacts.

(** A walk whose callback keeps every operation and the state is the
    identity. *)
Lemma walk_identity (St : Type) (cb : Operation -> M St Visit) :
  (forall o, (forall x, In x (opsOfOperation o) ->
                        forall s, cb x s = Ok (Kept, s)) ->
             forall s, walkOperation cb o s = Ok (Some o, s))
  /\ (forall rs, (forall x, In x (opsOfRegions rs) ->
                           forall s, cb x s = Ok (Kept, s)) ->
                forall s, walkRegions cb rs s = Ok (rs, s))
  /\ (forall bs, (forall x, In x (opsOfBlocks bs) ->
                           forall s, cb x s = Ok (Kept, s)) ->
                forall s, walkBlocks cb bs s = Ok (bs, s))
  /\ (forall os, (forall x, In x (opsOfOps os) ->
                           forall s, cb x s = Ok (Kept, s)) ->
                forall s, walkOps cb os s = Ok (os, s)).
Proof.
  apply ir_mutind.
  - intros op H s. rewrite walkOperation_custom_call, H; [reflexivity|].
    now left.
  - intros name operands results regions IH H s.
    rewrite walkOperation_eq. unfold bind, ret.
    rewrite IH.
    + rewrite H; [reflexivity|]. cbn. apply in_or_app. right. now left.
    + intros x Hx. apply H. cbn. apply in_or_app. now left.
  - reflexivity.
  - intros blocks IHb rest IHr H s. rewrite walkRegions_eq. unfold bind, ret.
    rewrite IHb, IHr; [reflexivity| |];
      intros x Hx; apply H; cbn; apply in_or_app; auto.
  - reflexivity.
  - intros arguments body IHb rest IHr H s. rewrite walkBlocks_eq.
    unfold bind, ret.
    rewrite IHb, IHr; [reflexivity| |];
      intros x Hx; apply H; cbn; apply in_or_app; auto.
  - reflexivity.
  - intros op IHo rest IHr H s. rewrite walkOps_eq. unfold bind, ret.
    rewrite IHo, IHr; [reflexivity| |];
      intros x Hx; apply H; cbn; apply in_or_app; auto.
Qed.

Lemma callback_without_marker (enable : bool) (o : Operation) (s : PassState) :
  isShapeAssertion o = false -> callback enable o s = Ok (Kept, s).
Proof.
  destruct o as [op|]; cbn; [|reflexivity].
  unfold visitCustomCall. now intros ->.
Qed.

(** The pass leaves a function without markers as it is. *)
Lemma runOnOperation_without_markers (enable : bool) (func : Operation)
    (s : PassState) :
  (forall o, In o (opsOfOperation func) -> isShapeAssertion o = false) ->
  runOnOperation enable func s = Ok (Some func, s).
Proof.
  intros H. unfold runOnOperation.
  destruct (walk_identity (callback enable)) as (Hop & _).
  apply Hop. intros x Hx s1. apply callback_without_marker. now apply H.
Qed.

Lemma existsb_false_iff {A} (f : A -> bool) (l : list A) :
  existsb f l = false <-> forall x, In x l -> f x = false.
Proof.
  induction l as [|a l IH]; cbn.
  - split; [intros _ ? [] | reflexivity].
  - rewrite orb_false_iff, IH. split.
    + intros [Ha Hl] x [<-|Hx]; auto.
    + intros H. split; [apply H; now left | intros x Hx; apply H; now right].
Qed.

(** [ValidateStaticShapes] succeeds exactly on the modules without dynamic
    shapes and without markers. *)
Lemma ValidateStaticShapes_ok (module : ModuleOp) :
  ValidateStaticShapes module = Ok OkStatus
  <-> FullyRefined module /\ MarkerFree module.
Proof.
  unfold ValidateStaticShapes, FullyRefined, MarkerFree.
  rewrite auditWalk_spec. unfold auditAfter, auditStart.
  cbn [obind moduleHasDynamicShapes moduleHasShapeAssertions collected orb].
  rewrite <- !existsb_false_iff.
  destruct (existsb opHasDynamicShapes _), (existsb isShapeAssertion _);
    split; try discriminate; try tauto; intros [? ?]; discriminate.
Qed.

Lemma functionsOf_ops (body : Ops) (f x : Operation) :
  In f (functionsOf body) -> In x (opsOfOperation f) -> In x (opsOfOps body).
Proof.
  induction body as [|op rest IH]; cbn; [intros []|].
  intros Hf Hx. apply in_or_app.
  destruct (isFuncOp op); [destruct Hf as [<-|Hf]|]; auto.
Qed.

Lemma moduleOperation_ops (module : ModuleOp) (x : Operation) :
  In x (opsOfOps (moduleBody module)) ->
  In x (opsOfOperation (moduleOperation module)).
Proof.
  intros H. cbn. rewrite !app_nil_r. apply in_or_app. now left.
Qed.

End MarkerFreeFacts.

(** ** The pipeline *)

Section PipelineFacts.

Local Open Scope pass_scope.

Variable verify : ModuleOp -> LogicalResult * list Diagnostic.
Variable createInlinerPass : ModuleOp -> Transformed ModuleOp.
Variable createCSEPass : ModuleOp -> Transformed ModuleOp.
Variable createStablehloRefineShapesPass : ModuleOp -> Transformed ModuleOp.
Variable createStablehloCanonicalizeDynamismPass :
  Operation -> Transformed Operation.
Variable enable_shape_assertions : bool.

Let canonicalize := canonicalizeFunction createStablehloCanonicalizeDynamismPass.
Let check := checkFunction enable_shape_assertions.
Let nested :=
  runOnFunctions createStablehloCanonicalizeDynamismPass enable_shape_assertions.

Lemma allSucceeded_app (l1 l2 : list (Step * LogicalResult)) :
  allSucceeded (l1 ++ l2) = allSucceeded l1 && allSucceeded l2.
Proof. apply forallb_app. Qed.

Lemma LogOf_single (step : Step) (r : LogicalResult) : LogOf r [(step, r)].
Proof.
  destruct r; cbn; [reflexivity|]. exists [], step. now split.
Qed.

Lemma LogOf_after (log1 log2 : list (Step * LogicalResult)) (r : LogicalResult) :
  allSucceeded log1 = true -> LogOf r log2 -> LogOf r (log1 ++ log2).
Proof.
  intros H1. destruct r; cbn.
  - intros H2. now rewrite allSucceeded_app, H1, H2.
  - intros (before & step & -> & Hb). exists (log1 ++ before)%list, step.
    split; [now rewrite app_assoc|]. now rewrite allSucceeded_app, H1, Hb.
Qed.

Lemma canonicalize_log (func : Operation) (s : RunState) r s' :
  canonicalize func s = Ok (r, s') ->
  steps s' = (steps s ++ [(CanonicalizeDynamism func, fst r)])%list.
Proof.
  unfold canonicalize, canonicalizeFunction.
  destruct (createStablehloCanonicalizeDynamismPass func) as [[res func'] ds].
  unfold bind, report, modify, ret. now intros [= <- <-].
Qed.

Lemma check_log (func : Operation) (s : RunState) r s' :
  check func s = Ok (r, s') ->
  steps s' = (steps s ++ [(CheckShapeAssertions func, fst r)])%list.
Proof.
  unfold check, checkFunction. unfold bind at 1.
  destruct (runOnOperation enable_shape_assertions func initialState)
    as [[func' ps]|c]; cbn [lift]; [|discriminate].
  unfold bind, report, modify, ret. now intros [= <- <-].
Qed.

(** The log of the nested passes: steps on functions, stopped by the first
    failure. *)
Lemma runOnFunctions_log (body : Ops) :
  forall (s : RunState) r s',
    nested body s = Ok (r, s') ->
    exists log,
      steps s' = (steps s ++ log)%list
      /\ Forall (fun e => isNestedStep (fst e) = true) log
      /\ LogOf (fst r) log.
Proof.
  unfold nested.
  induction body as [|op rest IH]; intros s r s'.
  - cbn. intros [= <- <-]. exists []. rewrite app_nil_r.
    repeat split. constructor.
  - cbn [runOnFunctions]. destruct (isFuncOp op).
    + unfold bind at 1.
      destruct (canonicalizeFunction _ op s) as [[c s1]|x] eqn:Ec;
        [|discriminate].
      apply canonicalize_log in Ec.
      destruct c as [[|] op1]; cbn [fst snd succeeded negb] in *.
      2:{ intros [= <- <-]. eexists. split; [exact Ec|].
          split; [repeat constructor | apply LogOf_single]. }
      unfold bind at 1.
      destruct (checkFunction _ op1 s1) as [[k s2]|x] eqn:Ek; [|discriminate].
      apply check_log in Ek.
      destruct k as [[|] op2]; cbn [fst snd succeeded negb] in *.
      2:{ intros [= <- <-]. eexists. rewrite Ek, Ec, <- app_assoc.
          split; [reflexivity|]. split; [repeat constructor|].
          apply (LogOf_after [(CanonicalizeDynamism op, success)]);
            [reflexivity | apply LogOf_single]. }
      unfold bind.
      destruct (runOnFunctions _ _ rest s2) as [[rr s3]|x] eqn:Er;
        [|discriminate].
      intros [= <- <-]. apply IH in Er as (log & Hlog & Hnested & Hof).
      eexists. rewrite Hlog, Ek, Ec, <- !app_assoc.
      split; [reflexivity|]. split.
      * repeat constructor. exact Hnested.
      * cbn [fst].
        apply (LogOf_after
                 [(CanonicalizeDynamism op, success);
                  (CheckShapeAssertions op1, success)]);
          [reflexivity | exact Hof].
    + unfold bind.
      destruct (runOnFunctions _ _ rest s) as [[rr s3]|x] eqn:Er;
        [|discriminate].
      intros [= <- <-]. apply IH in Er as (log & Hlog & Hnested & Hof).
      exists log. now repeat split.
Qed.

Let passes :=
  pm createInlinerPass createCSEPass createStablehloRefineShapesPass
     createStablehloCanonicalizeDynamismPass enable_shape_assertions.

Lemma modulePass_run (step : Step) (transformation : ModuleOp -> Transformed ModuleOp)
    (module : ModuleOp) (s : RunState) :
  modulePass step transformation module s
  = Ok (fst (transformation module),
        mkRunState (handled s ++ snd (transformation module))
          (steps s ++ [(step, fst (fst (transformation module)))])).
Proof.
  unfold modulePass.
  destruct (transformation module) as [[r module'] ds]. reflexivity.
Qed.

(** The log of [pm.run]: the passes in the order they were added, stopped
    by the first failure. *)
Lemma PassManager_run_log (module : ModuleOp) (s : RunState) r s' :
  PassManager_run passes module s = Ok (r, s') ->
  exists log,
    steps s' = (steps s ++ log)%list
    /\ Forall (fun e => isPassStep (fst e) = true) log
    /\ LogOf (fst r) log
    /\ (fst r = success ->
        exists onFunctions,
          log = ((Inliner, success) :: (CSE, success)
                 :: (RefineShapes, success) :: onFunctions)
          /\ Forall (fun e => isNestedStep (fst e) = true) onFunctions).
Proof.
  unfold passes, pm. cbn [PassManager_run].
  unfold bind at 1. rewrite modulePass_run.
  destruct (createInlinerPass module) as [[r1 m1] d1]. cbn [fst snd].
  destruct r1; cbn [succeeded negb].
  2:{ intros [= <- <-]. eexists. split; [reflexivity|].
      split; [repeat constructor|]. split; [apply LogOf_single|].
      discriminate. }
  unfold bind at 1. rewrite modulePass_run.
  destruct (createCSEPass m1) as [[r2 m2] d2]. cbn [fst snd steps handled].
  destruct r2; cbn [succeeded negb].
  2:{ intros [= <- <-]. eexists.
      split; [cbn [steps]; rewrite <- ?app_assoc; reflexivity|].
      split; [repeat constructor|].
      split; [|discriminate].
      apply (LogOf_after [(Inliner, success)]);
        [reflexivity | apply LogOf_single]. }
  unfold bind at 1. rewrite modulePass_run.
  destruct (createStablehloRefineShapesPass m2) as [[r3 m3] d3].
  cbn [fst snd steps handled].
  destruct r3; cbn [succeeded negb].
  2:{ intros [= <- <-]. eexists.
      split; [cbn [steps]; rewrite <- ?app_assoc; reflexivity|].
      split; [repeat constructor|].
      split; [|discriminate].
      apply (LogOf_after [(Inliner, success); (CSE, success)]);
        [reflexivity | apply LogOf_single]. }
  unfold bind at 1. unfold nestedFunctionPasses at 1. unfold bind at 1.
  match goal with
  | |- context [runOnFunctions _ _ ?b ?st] =>
      destruct (runOnFunctions createStablehloCanonicalizeDynamismPass
                  enable_shape_assertions b st) as [[rn sn]|x] eqn:En
  end; [|discriminate].
  apply runOnFunctions_log in En as (log & Hlog & Hnested & Hof).
  cbn [steps] in Hlog. cbn [ret fst snd].
  assert (Hpass : Forall (fun e : Step * LogicalResult => isPassStep (fst e) = true)
                    ((Inliner, success) :: (CSE, success)
                     :: (RefineShapes, success) :: log)).
  { repeat constructor. eapply Forall_impl; [|exact Hnested].
    intros [[] res]; cbn; congruence. }
  destruct (fst rn) eqn:Ern; cbn [succeeded negb]; intros [= <- <-];
    exists ((Inliner, success) :: (CSE, success) :: (RefineShapes, success) :: log);
    rewrite Hlog, <- !app_assoc; (split; [reflexivity|]);
    (split; [exact Hpass|]); cbn [fst]; split.
  - apply (LogOf_after [(Inliner, success); (CSE, success); (RefineShapes, success)]);
      [reflexivity | exact Hof].
  - intros _. now exists log.
  - apply (LogOf_after [(Inliner, success); (CSE, success); (RefineShapes, success)]);
      [reflexivity | exact Hof].
  - discriminate.
Qed.

Let stepOf :=
  stepResult verify createInlinerPass createCSEPass
    createStablehloRefineShapesPass createStablehloCanonicalizeDynamismPass
    enable_shape_assertions.

Let diagsOf :=
  stepDiagnostics verify createInlinerPass createCSEPass
    createStablehloRefineShapesPass createStablehloCanonicalizeDynamismPass
    enable_shape_assertions.

Let planOf :=
  plan createInlinerPass createCSEPass createStablehloRefineShapesPass
    createStablehloCanonicalizeDynamismPass.

Let nestedPlanOf := nestedPlan createStablehloCanonicalizeDynamismPass.

(** The nested passes against the plan: the steps run are the first of the
    plan, each with its own result and its diagnostics handed over; all of
    the plan is run when nothing fails. *)
Ltac own_results :=
  repeat first
    [ apply Forall_nil
    | apply Forall_cons; [cbn [fst snd]; congruence|] ].

Lemma runOnFunctions_plan (module left : ModuleOp) (body : Ops) :
  forall (s : RunState) r s',
    nested body s = Ok (r, s') ->
    exists log,
      steps s' = (steps s ++ log)%list
      /\ handled s' = (handled s ++ flat_map (diagsOf module) (map fst log))%list
      /\ Forall (fun e => snd e = stepOf module left (fst e)) log
      /\ exists later,
           nestedPlanOf (functionsOf body) = (map fst log ++ later)%list
           /\ (fst r = success -> later = []).
Proof.
  unfold nested.
  induction body as [|op rest IH]; intros s r s'.
  - cbn. intros [= <- <-]. exists []. rewrite !app_nil_r.
    split; [reflexivity|]. split; [reflexivity|]. split; [constructor|].
    exists []. now split.
  - cbn [runOnFunctions functionsOf]. destruct (isFuncOp op).
    + unfold bind at 1. unfold canonicalizeFunction.
      destruct (createStablehloCanonicalizeDynamismPass op) as [[c op1] ds]
        eqn:Ec.
      unfold bind at 1. cbn [report modify ret fst snd].
      assert (Hplan : nestedPlanOf (op :: functionsOf rest)
                      = CanonicalizeDynamism op :: CheckShapeAssertions op1
                        :: nestedPlanOf (functionsOf rest)).
      { unfold nestedPlanOf, nestedPlan. cbn [flat_map app]. now rewrite Ec. }
      assert (Hcanon : stepOf module left (CanonicalizeDynamism op) = c)
        by (unfold stepOf; cbn [stepResult]; now rewrite Ec).
      assert (Hcanond : diagsOf module (CanonicalizeDynamism op) = ds)
        by (unfold diagsOf; cbn [stepDiagnostics]; now rewrite Ec).
      destruct c; cbn [succeeded negb].
      2:{ intros [= <- <-]. exists [(CanonicalizeDynamism op, failure)].
          cbn [steps handled map fst flat_map]. rewrite Hcanond, app_nil_r.
          split; [reflexivity|]. split; [reflexivity|]. split; [own_results|].
          eexists. split; [rewrite Hplan; reflexivity | discriminate]. }
      unfold bind at 1. unfold checkFunction. unfold bind at 1.
      destruct (runOnOperation enable_shape_assertions op1 initialState)
        as [[rr1 ps1]|x] eqn:Ek; cbn [lift]; [|discriminate].
      unfold bind at 1. cbn [report modify ret fst snd].
      assert (Hcheck : stepOf module left (CheckShapeAssertions op1)
                       = if failed ps1 then failure else success)
        by (unfold stepOf; cbn [stepResult]; now rewrite Ek).
      assert (Hcheckd : diagsOf module (CheckShapeAssertions op1) = diags ps1)
        by (unfold diagsOf; cbn [stepDiagnostics]; now rewrite Ek).
      destruct (failed ps1) eqn:Efailed; cbn [succeeded negb].
      * intros [= <- <-].
        exists [(CanonicalizeDynamism op, success);
                (CheckShapeAssertions op1, failure)].
        cbn [steps handled map fst flat_map].
        rewrite Hcanond, Hcheckd, app_nil_r, <- !app_assoc.
        split; [reflexivity|]. split; [reflexivity|]. split; [own_results|].
        eexists. split; [rewrite Hplan; reflexivity | discriminate].
      * unfold bind.
        destruct (runOnFunctions _ enable_shape_assertions rest _)
          as [[rn sn]|x] eqn:Er; [|discriminate].
        intros [= <- <-].
        apply IH in Er as (log & Hs & Hh & Hown & later & Hlater & Hdone).
        cbn [handled steps] in Hh, Hs.
        exists ((CanonicalizeDynamism op, success)
                :: (CheckShapeAssertions op1, success) :: log).
        cbn [steps handled map fst flat_map].
        rewrite Hs, Hh, Hcanond, Hcheckd, <- !app_assoc.
        split; [reflexivity|]. split; [reflexivity|].
        split; [own_results; exact Hown|].
        exists later. rewrite Hplan, Hlater. now split.
    + unfold bind.
      destruct (runOnFunctions _ enable_shape_assertions rest s)
        as [[rn sn]|x] eqn:Er; [|discriminate].
      intros [= <- <-].
      apply IH in Er as (log & Hs & Hh & Hown & later & Hlater & Hdone).
      exists log. split; [exact Hs|]. split; [exact Hh|]. split; [exact Hown|].
      now exists later.
Qed.

(** C8. A run of [RefinePolymorphicShapes] logs each step with the result
    the step itself gave, and the steps it runs are the first steps of the
    plan (the verification, the inliner, CSE, the refinement of shapes, the
    canonicalization and the check on each function, the validation), in
    that order.  When the verification fails, nothing else runs and the
    error is that of the verification.  When a pass fails, it is the last
    step of the run, every step before it succeeded, the validation does
    not run, and the error is that of the refinement, with the diagnostics
    of the steps run.  The validation runs only as the last step of the
    whole plan, after every step before it succeeded, and its status is the
    one returned. *)
Theorem refine_steps_in_order (module : ModuleOp) (run : Run) :
  RefinePolymorphicShapes verify createInlinerPass createCSEPass
    createStablehloRefineShapesPass createStablehloCanonicalizeDynamismPass
    enable_shape_assertions module = Ok run ->
  let ran := map fst (runSteps run) in
  Forall (fun e => snd e = stepOf module (runModule run) (fst e)) (runSteps run)
  /\ (exists later, planOf module = (ran ++ later)%list)
  /\ ((fst (verify module) = failure
       /\ runSteps run = [(VerifyModule, failure)]
       /\ runModule run = module
       /\ runStatus run
          = InvalidArgumentError
              ("Module verification failed: "
               ++ ConsumeStatus (snd (verify module))))
      \/ (exists before step,
            runSteps run = (before ++ [(step, failure)])%list
            /\ allSucceeded before = true
            /\ isPassStep step = true
            /\ runStatus run
               = InvalidArgumentError
                   ("Module shape refinement failed: "
                    ++ ConsumeStatus (flat_map (diagsOf module) ran)))
      \/ (exists passes validated,
            runSteps run = (passes ++ [(ValidateShapes, validated)])%list
            /\ allSucceeded passes = true
            /\ ran = planOf module
            /\ ValidateStaticShapes (runModule run) = Ok (runStatus run))).
Proof.
  unfold RefinePolymorphicShapes, refine.
  destruct (verify module) as [verified dv] eqn:Ev. cbn [fst snd].
  assert (Hverify : forall left, stepOf module left VerifyModule = verified)
    by (intros; unfold stepOf; cbn [stepResult]; now rewrite Ev).
  assert (Hverifyd : diagsOf module VerifyModule = dv)
    by (unfold diagsOf; cbn [stepDiagnostics]; now rewrite Ev).
  unfold bind at 1. cbn [report modify].
  destruct verified; cbn [succeeded negb].
  2:{ unfold bind, get, ret. cbn [obind]. intros [= <-].
      cbn [runSteps runModule runStatus fst snd steps handled app map].
      split; [own_results|].
      split; [eexists; unfold planOf, plan; reflexivity|].
      left. now repeat split. }
  unfold bind at 1. unfold pm. cbn [PassManager_run].
  unfold bind at 1. rewrite modulePass_run.
  destruct (createInlinerPass module) as [[r1 m1] d1] eqn:Ei. cbn [fst snd].
  assert (Hinliner : forall left, stepOf module left Inliner = r1)
    by (intros; unfold stepOf; cbn [stepResult]; now rewrite Ei).
  assert (Hinlinerd : diagsOf module Inliner = d1)
    by (unfold diagsOf; cbn [stepDiagnostics]; now rewrite Ei).
  destruct r1; cbn [succeeded negb].
  2:{ unfold bind, get, ret. cbn [obind]. intros [= <-].
      cbn [runSteps runModule runStatus fst snd steps handled app map flat_map].
      rewrite Hverifyd, Hinlinerd, app_nil_r.
      split; [own_results|].
      split; [eexists; unfold planOf, plan; reflexivity|].
      right. left. exists [(VerifyModule, success)], Inliner.
      now repeat split. }
  unfold bind at 1. rewrite modulePass_run.
  destruct (createCSEPass m1) as [[r2 m2] d2] eqn:Ec. cbn [fst snd].
  assert (Hcse : forall left, stepOf module left CSE = r2)
    by (intros; unfold stepOf; cbn [stepResult]; unfold afterInliner;
        now rewrite Ei; cbn [fst snd]; rewrite Ec).
  assert (Hcsed : diagsOf module CSE = d2)
    by (unfold diagsOf; cbn [stepDiagnostics]; unfold afterInliner;
        now rewrite Ei; cbn [fst snd]; rewrite Ec).
  destruct r2; cbn [succeeded negb].
  2:{ unfold bind, get, ret. cbn [obind]. intros [= <-].
      cbn [runSteps runModule runStatus fst snd steps handled app map flat_map].
      rewrite Hverifyd, Hinlinerd, Hcsed, app_nil_r, <- !app_assoc.
      split; [own_results|].
      split; [eexists; unfold planOf, plan; reflexivity|].
      right. left. exists [(VerifyModule, success); (Inliner, success)], CSE.
      now repeat split. }
  unfold bind at 1. rewrite modulePass_run.
  destruct (createStablehloRefineShapesPass m2) as [[r3 m3] d3] eqn:Er.
  cbn [fst snd].
  assert (Hm3 : afterRefineShapes createInlinerPass createCSEPass
                  createStablehloRefineShapesPass module = m3)
    by (unfold afterRefineShapes, afterCSE, afterInliner;
        now rewrite Ei; cbn [fst snd]; rewrite Ec; cbn [fst snd]; rewrite Er).
  assert (Hrefine : forall left, stepOf module left RefineShapes = r3)
    by (intros; unfold stepOf; cbn [stepResult]; unfold afterCSE, afterInliner;
        now rewrite Ei; cbn [fst snd]; rewrite Ec; cbn [fst snd]; rewrite Er).
  assert (Hrefined : diagsOf module RefineShapes = d3)
    by (unfold diagsOf; cbn [stepDiagnostics]; unfold afterCSE, afterInliner;
        now rewrite Ei; cbn [fst snd]; rewrite Ec; cbn [fst snd]; rewrite Er).
  destruct r3; cbn [succeeded negb].
  2:{ unfold bind, get, ret. cbn [obind]. intros [= <-].
      cbn [runSteps runModule runStatus fst snd steps handled app map flat_map].
      rewrite Hverifyd, Hinlinerd, Hcsed, Hrefined, app_nil_r, <- !app_assoc.
      split; [own_results|].
      split; [eexists; unfold planOf, plan; reflexivity|].
      right. left.
      exists [(VerifyModule, success); (Inliner, success); (CSE, success)],
             RefineShapes.
      now repeat split. }
  unfold bind at 1. unfold nestedFunctionPasses at 1. unfold bind at 1.
  match goal with
  | |- context [runOnFunctions _ _ (moduleBody m3) ?st] =>
      destruct (runOnFunctions createStablehloCanonicalizeDynamismPass
                  enable_shape_assertions (moduleBody m3) st)
        as [[rn sn]|x] eqn:En
  end; [|discriminate].
  pose proof (runOnFunctions_log _ _ En) as (log' & Hlog' & Hnested & Hof).
  destruct (fst rn) eqn:Ern; cbn [ret fst snd succeeded negb].
  - unfold bind at 1.
    destruct (ValidateStaticShapes (mkModule (snd rn))) as [status|x] eqn:Evalid;
      cbn [lift]; [|discriminate].
    unfold bind, report, modify, ret. cbn [obind]. intros [= <-].
    cbn [runSteps runModule runStatus fst snd steps handled].
    apply (runOnFunctions_plan module (mkModule (snd rn))) in En
      as (log & Hs & Hh & Hown & later & Hlater & Hdone).
    cbn [steps handled] in Hs, Hh, Hlog'. rewrite Ern in Hdone.
    specialize (Hdone eq_refl). subst later. rewrite app_nil_r in Hlater.
    rewrite Hs in Hlog'. apply app_inv_head in Hlog'. subst log'.
    cbn [LogOf] in Hof. rewrite Hs. cbn [app map].
    assert (Hplan : planOf module
                    = VerifyModule :: Inliner :: CSE :: RefineShapes
                      :: map fst (log ++ [(ValidateShapes,
                                           match status with
                                           | OkStatus => success
                                           | _ => failure
                                           end)])%list).
    { unfold planOf, plan. rewrite Hm3. fold nestedPlanOf.
      now rewrite Hlater, map_app. }
    split; [|split].
    + own_results. apply Forall_app. split; [exact Hown|].
      apply Forall_cons; [|apply Forall_nil]. cbn [fst snd].
      unfold stepOf. cbn [stepResult]. rewrite Evalid. now destruct status.
    + exists []. now rewrite app_nil_r.
    + right. right.
      exists ((VerifyModule, success) :: (Inliner, success) :: (CSE, success)
              :: (RefineShapes, success) :: log).
      eexists. split; [reflexivity|].
      split; [exact Hof|]. split; [now rewrite Hplan | exact Evalid].
  - unfold bind, get, ret. cbn [obind]. intros [= <-].
    cbn [runSteps runModule runStatus fst snd steps handled].
    apply (runOnFunctions_plan module (mkModule (snd rn))) in En
      as (log & Hs & Hh & Hown & later & Hlater & Hdone).
    cbn [steps handled] in Hs, Hh, Hlog'.
    rewrite Hs in Hlog'. apply app_inv_head in Hlog'. subst log'.
    cbn [LogOf] in Hof. destruct Hof as (before & step & -> & Hbefore).
    rewrite Hs, Hh.
    split; [|split].
    + cbn [app]. own_results. exact Hown.
    + exists (later ++ [ValidateShapes])%list. cbn [app map].
      unfold planOf, plan. rewrite Hm3. fold nestedPlanOf.
      rewrite Hlater. cbn [app]. now rewrite <- app_assoc.
    + right. left.
      exists ((VerifyModule, success) :: (Inliner, success) :: (CSE, success)
              :: (RefineShapes, success) :: before), step.
      split; [reflexivity|]. split; [exact Hbefore|]. split.
      * rewrite Forall_app in Hnested. destruct Hnested as [_ Hlast].
        apply Forall_inv in Hlast. cbn [fst] in Hlast.
        destruct step; cbn in *; congruence.
      * apply f_equal.
        apply (f_equal (append "Module shape refinement failed: ")).
        apply f_equal.
        match goal with
        | |- _ = flat_map ?f ?l =>
            change (flat_map f l)
              with (diagsOf module VerifyModule ++ diagsOf module Inliner
                    ++ diagsOf module CSE ++ diagsOf module RefineShapes
                    ++ flat_map (diagsOf module)
                         (map fst (before ++ [(step, failure)])))%list
        end.
        rewrite Hverifyd, Hinlinerd, Hcsed, Hrefined.
        now rewrite <- !app_assoc.
Qed.

(** A run that returns [OkStatus] went through the validation, on the
    module it leaves. *)
Lemma refine_ok_validated (module : ModuleOp) (run : Run) :
  RefinePolymorphicShapes verify createInlinerPass createCSEPass
    createStablehloRefineShapesPass createStablehloCanonicalizeDynamismPass
    enable_shape_assertions module = Ok run ->
  runStatus run = OkStatus ->
  ValidateStaticShapes (runModule run) = Ok OkStatus.
Proof.
  unfold RefinePolymorphicShapes, refine.
  destruct (verify module) as [verified ds].
  unfold bind at 1. cbn [report modify].
  destruct verified; cbn [succeeded negb].
  - unfold bind at 1.
    destruct (PassManager_run _ module _) as [[r s1]|x]; [|discriminate].
    destruct (fst r); cbn [succeeded negb].
    + unfold bind at 1.
      destruct (ValidateStaticShapes (snd r)) as [status|x] eqn:Ev;
        cbn [lift]; [|discriminate].
      unfold bind, report, modify, ret. cbn [obind].
      intros [= <-]. cbn [runModule runStatus fst snd]. now intros ->.
    + unfold bind, get, ret. cbn [obind]. intros [= <-]. discriminate.
  - unfold bind, get, ret. cbn [obind]. intros [= <-]. discriminate.
Qed.



Let Refine :=
  RefinePolymorphicShapes verify createInlinerPass createCSEPass
    createStablehloRefineShapesPass createStablehloCanonicalizeDynamismPass
    enable_shape_assertions.

Let Fixpoint_ :=
  AtFixpoint verify createInlinerPass createCSEPass
    createStablehloRefineShapesPass createStablehloCanonicalizeDynamismPass.

(** The nested passes leave functions without markers that the
    canonicalization leaves unchanged as they are. *)
Lemma runOnFunctions_fixpoint (body : Ops) :
  (forall f, In f (functionsOf body) ->
             fst (createStablehloCanonicalizeDynamismPass f) = (success, f)) ->
  (forall x, In x (opsOfOps body) -> isShapeAssertion x = false) ->
  forall s, exists s', nested body s = Ok ((success, body), s').
Proof.
  unfold nested. induction body as [|op rest IH]; intros Hcanon Hfree s.
  - eexists. reflexivity.
  - cbn [runOnFunctions]. cbn [functionsOf] in Hcanon.
    assert (Hrest : forall x, In x (opsOfOps rest) -> isShapeAssertion x = false).
    { intros x Hx. apply Hfree. cbn. apply in_or_app. now right. }
    destruct (isFuncOp op) eqn:Efunc.
    + unfold bind at 1. unfold canonicalizeFunction.
      pose proof (Hcanon op (or_introl eq_refl)) as Hop.
      destruct (createStablehloCanonicalizeDynamismPass op) as [[r op'] ds].
      cbn [fst] in Hop. injection Hop as -> ->.
      unfold bind at 1. cbn [report modify ret fst snd succeeded negb].
      unfold bind at 1. unfold checkFunction. unfold bind at 1.
      rewrite runOnOperation_without_markers
        by (intros x Hx; apply Hfree; cbn; apply in_or_app; now left).
      cbn [lift]. unfold bind at 1.
      cbn [report modify ret fst snd succeeded negb failed initialState].
      unfold bind.
      match goal with
      | |- context [runOnFunctions _ _ rest ?st] =>
          destruct (IH (fun f Hf => Hcanon f (or_intror Hf)) Hrest st)
            as [s' Hs']
      end.
      rewrite Hs'. eexists. reflexivity.
    + unfold bind.
      destruct (IH Hcanon Hrest s) as [s' Hs']. rewrite Hs'.
      eexists. reflexivity.
Qed.

(** A run on a module at the fixpoint of the transformations, without
    dynamic shapes nor markers, succeeds and leaves the module as it is. *)
Lemma refine_at_fixpoint (module : ModuleOp) :
  Fixpoint_ module -> FullyRefined module -> MarkerFree module ->
  exists run,
    Refine module = Ok run
    /\ runStatus run = OkStatus /\ runModule run = module.
Proof.
  intros (Hv & Hi & Hc & Hr & Hf) Hrefined Hfree.
  unfold Refine, RefinePolymorphicShapes, refine.
  destruct (verify module) as [verified ds]. cbn [fst] in Hv. subst verified.
  unfold bind at 1. cbn [report modify succeeded negb].
  unfold bind at 1. unfold pm. cbn [PassManager_run].
  unfold bind at 1. rewrite modulePass_run, Hi. cbn [fst snd succeeded negb].
  unfold bind at 1. rewrite modulePass_run, Hc. cbn [fst snd succeeded negb].
  unfold bind at 1. rewrite modulePass_run, Hr. cbn [fst snd succeeded negb].
  unfold bind at 1. unfold nestedFunctionPasses at 1. unfold bind at 1.
  match goal with
  | |- context [runOnFunctions _ _ (moduleBody module) ?st] =>
      destruct (@runOnFunctions_fixpoint (moduleBody module) Hf
                  (fun x Hx => Hfree x (moduleOperation_ops module x Hx)) st)
        as [s' Hs']
  end.
  unfold nested in Hs'. rewrite Hs'. cbn [ret fst snd succeeded negb].
  replace (mkModule (moduleBody module)) with module by now destruct module.
  unfold bind at 1.
  rewrite (proj2 (ValidateStaticShapes_ok module) (conj Hrefined Hfree)).
  cbn. eexists. repeat split.
Qed.

(** C9, amended. On a module that passes the verification, that the
    transformations of the libraries accept and leave unchanged, that has
    no dynamic shape and no marker, [RefinePolymorphicShapes] succeeds and
    leaves the module unchanged, and so does a second run.  After any run
    that succeeds, a second run on its result succeeds and leaves it
    unchanged when that result passes the verification and the
    transformations accept it and leave it unchanged. *)
Theorem refine_twice_at_fixpoint :
  (forall module : ModuleOp,
      Fixpoint_ module -> FullyRefined module -> MarkerFree module ->
      exists first second,
        Refine module = Ok first
        /\ runStatus first = OkStatus /\ runModule first = module
        /\ Refine (runModule first) = Ok second
        /\ runStatus second = OkStatus
        /\ runModule second = runModule first)
  /\ (forall (module : ModuleOp) (first : Run),
        Refine module = Ok first ->
        runStatus first = OkStatus ->
        Fixpoint_ (runModule first) ->
        exists second,
          Refine (runModule first) = Ok second
          /\ runStatus second = OkStatus
          /\ runModule second = runModule first).
Proof.
  split.
  - intros module Hfix Hrefined Hfree.
    destruct (refine_at_fixpoint Hfix Hrefined Hfree) as (run & Hrun & Hs & Hm).
    exists run, run. rewrite Hm. now repeat split.
  - intros module first Hrun Hok Hfix.
    pose proof (@refine_ok_validated module first Hrun Hok) as Hvalid.
    apply ValidateStaticShapes_ok in Hvalid as [Hrefined Hfree].
    now apply refine_at_fixpoint.
Qed.

End PipelineFacts.

(** ** Runs of the pipeline on sample modules *)

Section PipelineSamples.

Let RefineSample :=
  RefinePolymorphicShapes verifyFunctions (@unchanged ModuleOp)
    (@unchanged ModuleOp) (@unchanged ModuleOp) (@unchanged Operation) true.

Lemma refine_steps_in_order_witness :
  exists run,
    RefineSample illFormedModule = Ok run
    /\ Forall
         (fun e =>
            snd e
            = stepResult verifyFunctions (@unchanged ModuleOp)
                (@unchanged ModuleOp) (@unchanged ModuleOp)
                (@unchanged Operation) true illFormedModule (runModule run)
                (fst e))
         (runSteps run)
    /\ exists later,
         plan (@unchanged ModuleOp) (@unchanged ModuleOp) (@unchanged ModuleOp)
           (@unchanged Operation) illFormedModule
         = (map fst (runSteps run) ++ later)%list.
Proof.
  eexists. split; [reflexivity|].
  pose proof (@refine_steps_in_order verifyFunctions (@unchanged ModuleOp)
                (@unchanged ModuleOp) (@unchanged ModuleOp)
                (@unchanged Operation) true illFormedModule _ eq_refl) as H.
  cbv zeta in H. destruct H as (Hown & Hplan & _).
  split; [exact Hown | exact Hplan].
Defined.

(** A module without dynamic shapes and without markers on which the
    verification fails: [RefinePolymorphicShapes] returns an error. *)
Lemma refine_fails_on_refined_module :
  FullyRefined functionWithoutRegion
  /\ MarkerFree functionWithoutRegion
  /\ RefineSample functionWithoutRegion
     = Ok (mkRun
             (InvalidArgumentError
                ("Module verification failed: "
                 ++ "'func.func' op requires one region" ++ newline))
             functionWithoutRegion [(VerifyModule, failure)]).
Proof.
  split; [|split].
  - intros o [<-|[<-|[]]]; reflexivity.
  - intros o [<-|[<-|[]]]; reflexivity.
  - reflexivity.
Qed.

Lemma refine_twice_at_fixpoint_witness :
  exists first second,
    RefineSample emptyFunction = Ok first
    /\ runStatus first = OkStatus /\ runModule first = emptyFunction
    /\ RefineSample (runModule first) = Ok second
    /\ runStatus second = OkStatus
    /\ runModule second = runModule first.
Proof.
  apply (proj1 (@refine_twice_at_fixpoint verifyFunctions (@unchanged ModuleOp)
                  (@unchanged ModuleOp) (@unchanged ModuleOp)
                  (@unchanged Operation) true)).
  - repeat split; try (intros f [<-|[]]; reflexivity).
  - intros o [<-|[<-|[]]]; reflexivity.
  - intros o [<-|[<-|[]]]; reflexivity.
Defined.

End PipelineSamples.

(** ** The validation and the formatting of templates written as pieces *)

Section TemplateFacts.

Lemma matchHere_other (c : ascii) (t : string) :
  Ascii.eqb c "{" = false -> matchHere (String c t) = None.
Proof.
  destruct c as [[|] [|] [|] [|] [|] [|] [|] [|]]; cbn; congruence.
Qed.

Lemma regexMatch_literal (lit s : string) :
  braceFree lit = true ->
  regexMatch (lit ++ s)
  = match regexMatch s with
    | Some m => Some (mkMatch (lit ++ mPrefix m) (mDigits m) (mDelim m) (mSuffix m))
    | None => None
    end.
Proof.
  induction lit as [|c lit IH]; intros H.
  - cbn [append]. destruct (regexMatch s) as [[p d c r]|]; reflexivity.
  - cbn [braceFree] in H. apply andb_true_iff in H as [Hc Hlit].
    apply negb_true_iff in Hc.
    change (String c lit ++ s) with (String c (lit ++ s)).
    cbn [regexMatch]. rewrite matchHere_other by exact Hc. rewrite (IH Hlit).
    destruct (regexMatch s) as [m|]; reflexivity.
Qed.

Lemma decimalN_nonempty (n : N) : decimalN n <> EmptyString.
Proof.
  rewrite decimalN_NilEmpty. pose proof (N_to_uint_not_Nil n) as H.
  destruct (N.to_uint n); (congruence || discriminate).
Qed.

Lemma matchHere_placeholder (i : nat) (rest : string) :
  matchHere (pieceText (Placeholder i) ++ rest)
  = Some (decimalN (N.of_nat i), "}"%char, rest).
Proof.
  unfold pieceText.
  change (("{" ++ decimalN (N.of_nat i) ++ "}") ++ rest)
    with (String "{" ((decimalN (N.of_nat i) ++ "}") ++ rest)).
  rewrite append_assoc. unfold matchHere.
  change ("}" ++ rest) with (String "}" rest).
  rewrite spanDigits_app by (apply allDigits_decimalN || reflexivity).
  pose proof (decimalN_nonempty (N.of_nat i)) as Hne.
  destruct (decimalN (N.of_nat i)); [congruence | reflexivity].
Qed.

Lemma regexMatch_placeholder (lit : string) (i : nat) (rest : string) :
  braceFree lit = true ->
  regexMatch (lit ++ pieceText (Placeholder i) ++ rest)
  = Some (mkMatch lit (decimalN (N.of_nat i)) "}" rest).
Proof.
  intros H. rewrite regexMatch_literal by exact H.
  assert (E : regexMatch (pieceText (Placeholder i) ++ rest)
              = Some (mkMatch EmptyString (decimalN (N.of_nat i)) "}" rest)).
  { pose proof (matchHere_placeholder i rest) as Hm.
    destruct (pieceText (Placeholder i) ++ rest) eqn:E; [discriminate|].
    cbn [regexMatch]. now rewrite Hm. }
  rewrite E. cbn. now rewrite append_empty_r.
Qed.

Lemma regexMatch_braceFree (lit : string) :
  braceFree lit = true -> regexMatch lit = None.
Proof.
  intros H. rewrite <- (append_empty_r lit).
  rewrite regexMatch_literal by exact H.
  reflexivity.
Qed.

Lemma braceFree_app (a b : string) :
  braceFree (a ++ b) = braceFree a && braceFree b.
Proof.
  induction a as [|c a IH]; cbn; [reflexivity|]. now rewrite IH, andb_assoc.
Qed.

(** [std::stoi] reads back a decimal number that a character other than a
    digit follows. *)
Lemma stoi_decimalN (k : N) (c : ascii) (rest : string) :
  isDigit c = false ->
  stoi (decimalN k ++ String c rest)
  = if Z.of_N k <=? INT_MAX then Ok (Z.of_N k) else Abort StoiOutOfRange.
Proof.
  intros Hc. unfold stoi.
  rewrite spanDigits_app by (apply allDigits_decimalN || exact Hc).
  cbn [fst]. pose proof (decimalN_nonempty k) as Hne.
  destruct (decimalN k) as [|d ds] eqn:E; [congruence|].
  rewrite <- E, digitsValue_decimalN. reflexivity.
Qed.

Lemma matched_placeholder (lit rest : string) (k : nat) (n : Z) :
  badSpecifierMessage n (mkMatch lit (decimalN (N.of_nat k)) "}" rest)
  = rejectedMessage n k.
Proof.
  unfold badSpecifierMessage, rejectedMessage, matched. cbn [mDigits mDelim].
  reflexivity.
Qed.

(** The validation of a template written as pieces, after a literal
    prefix. *)
Lemma checkFormatSpecifiers_pieces (n : Z) (ps : list Piece) :
  literalsBraceFree ps = true ->
  forall lit, braceFree lit = true ->
    checkFormatSpecifiers n (lit ++ templateText ps) = validationOf n ps.
Proof.
  unfold validationOf.
  induction ps as [|p ps IH]; intros Hps lit Hlit.
  - cbn. rewrite append_empty_r, checkFormatSpecifiers_unfold.
    now rewrite regexMatch_braceFree.
  - cbn [literalsBraceFree forallb] in Hps.
    apply andb_true_iff in Hps as [Hp Hps].
    destruct p as [t|i]; cbn [templateText fold_right pieceText firstRejected].
    + rewrite <- append_assoc. apply (IH Hps).
      now rewrite braceFree_app, Hlit, Hp.
    + fold (templateText ps).
      change ("{" ++ decimalN (N.of_nat i) ++ "}")
        with (pieceText (Placeholder i)).
      rewrite checkFormatSpecifiers_unfold.
      rewrite regexMatch_placeholder by exact Hlit.
      unfold group1Data. cbn [mDigits mDelim mSuffix].
      rewrite stoi_decimalN by reflexivity.
      rewrite nat_N_Z. unfold accepted.
      destruct (Z.of_nat i <=? INT_MAX) eqn:Hmax.
      * rewrite andb_true_r.
        assert (H0 : (0 <=? Z.of_nat i) = true) by (apply Z.leb_le; lia).
        rewrite H0. cbn [andb].
        destruct (Z.of_nat i <? n) eqn:Hn.
        -- unfold subEmpty. cbn [mPrefix mSuffix]. now apply IH.
        -- rewrite Hmax. now rewrite matched_placeholder.
      * rewrite andb_false_r. now rewrite Hmax.
Qed.

Lemma firstRejected_none (n : Z) (ps : list Piece) :
  firstRejected n ps = None
  <-> Forall (fun i => accepted n i = true) (placeholders ps).
Proof.
  induction ps as [|[t|i] ps IH]; cbn [firstRejected placeholders].
  - split; [constructor | reflexivity].
  - exact IH.
  - destruct (accepted n i) eqn:E.
    + rewrite IH. split; [now constructor | now inversion 1].
    + split; [discriminate|]. inversion 1. congruence.
Qed.

Lemma firstRejected_at (n : Z) (before after : list Piece) (k : nat) :
  Forall (fun i => accepted n i = true) (placeholders before) ->
  accepted n k = false ->
  firstRejected n (before ++ Placeholder k :: after) = Some k.
Proof.
  induction before as [|[t|i] before IH]; intros Hb Hk;
    cbn [placeholders] in Hb; rewrite <- ?app_comm_cons, ?app_nil_l;
    cbn [firstRejected].
  - now rewrite Hk.
  - now apply IH.
  - inversion Hb as [|? ? Hi Hrest]; subst. rewrite Hi. now apply IH.
Qed.

Lemma accepted_spec (n : Z) (i : nat) :
  accepted n i = true <-> Z.of_nat i < n /\ Z.of_nat i <= INT_MAX.
Proof.
  unfold accepted. now rewrite andb_true_iff, Z.ltb_lt, Z.leb_le.
Qed.

(** X1. On a template made of literal text without opening braces and of
    placeholders [{i}], the validation succeeds exactly when every index is
    below the number of message inputs (and fits an [int]). *)
Theorem validation_accepts_iff (n : Z) (ps : list Piece) :
  literalsBraceFree ps = true ->
  (checkFormatSpecifiers n (templateText ps) = Ok None
   <-> Forall (fun i => Z.of_nat i < n /\ Z.of_nat i <= INT_MAX)
              (placeholders ps)).
Proof.
  intros Hps.
  pose proof (@checkFormatSpecifiers_pieces n ps Hps EmptyString eq_refl) as E.
  cbn [append] in E. rewrite E. unfold validationOf.
  split.
  - intros H.
    assert (Hnone : firstRejected n ps = None).
    { destruct (firstRejected n ps) as [k|]; [|reflexivity].
      destruct (Z.of_nat k <=? INT_MAX); discriminate. }
    apply firstRejected_none in Hnone.
    eapply Forall_impl; [|exact Hnone]. intros i. apply accepted_spec.
  - intros H.
    assert (Hnone : firstRejected n ps = None).
    { apply firstRejected_none. eapply Forall_impl; [|exact H].
      intros i. apply accepted_spec. }
    now rewrite Hnone.
Qed.

Lemma validation_accepts_iff_witness :
  checkFormatSpecifiers 2 (templateText badValueTemplate) = Ok None.
Proof.
  apply (proj2 (@validation_accepts_iff 2 badValueTemplate eq_refl)).
  cbn [badValueTemplate placeholders].
  repeat first [apply Forall_cons | apply Forall_nil]; unfold INT_MAX; lia.
Defined.

(** X2. On a message made of literal text without an opening brace and of
    placeholders [{i}]: when the first placeholder, in the order of the
    message, whose index is not below the number [n] of message inputs has
    an index that fits an [int], the validation returns the diagnostic that
    names the bound [n] and that placeholder. *)
Theorem validation_reports_first_rejected (n : Z) (before after : list Piece)
    (k : nat) :
  literalsBraceFree (before ++ Placeholder k :: after) = true ->
  Forall (fun i => Z.of_nat i < n /\ Z.of_nat i <= INT_MAX)
         (placeholders before) ->
  n <= Z.of_nat k <= INT_MAX ->
  checkFormatSpecifiers n (templateText (before ++ Placeholder k :: after))
  = Ok (Some ("expects error_message to contain format specifiers with "
              ++ "error_message_input index less than " ++ decimalZ n
              ++ ". Found specifier {" ++ decimalN (N.of_nat k) ++ "}")).
Proof.
  intros Hps Hbefore [Hn Hmax].
  pose proof (@checkFormatSpecifiers_pieces n _ Hps EmptyString eq_refl) as E.
  cbn [append] in E. rewrite E. unfold validationOf.
  rewrite firstRejected_at.
  - apply Z.leb_le in Hmax. now rewrite Hmax.
  - eapply Forall_impl; [|exact Hbefore]. intros i. apply accepted_spec.
  - unfold accepted. apply andb_false_iff. left. apply Z.ltb_ge. exact Hn.
Qed.

Lemma validation_reports_first_rejected_witness :
  checkFormatSpecifiers 1
    (templateText ([Literal "bad value "; Placeholder 0; Literal ", expected "]
                   ++ Placeholder 1 :: [Placeholder 7]))
  = Ok (Some ("expects error_message to contain format specifiers with "
              ++ "error_message_input index less than 1"
              ++ ". Found specifier {1}")).
Proof.
  apply (@validation_reports_first_rejected 1
           [Literal "bad value "; Placeholder 0; Literal ", expected "]
           [Placeholder 7] 1 eq_refl).
  - cbn [placeholders].
    repeat first [apply Forall_cons | apply Forall_nil]; unfold INT_MAX; lia.
  - unfold INT_MAX. lia.
Defined.

(** X3. A placeholder whose index does not fit an [int], met before any
    placeholder is rejected, makes [std::stoi] throw: the validation does
    not return a diagnostic, whatever the number of message inputs. *)
Theorem validation_overflow_throws (n : Z) (before after : list Piece)
    (k : nat) :
  literalsBraceFree (before ++ Placeholder k :: after) = true ->
  Forall (fun i => Z.of_nat i < n /\ Z.of_nat i <= INT_MAX)
         (placeholders before) ->
  INT_MAX < Z.of_nat k ->
  checkFormatSpecifiers n (templateText (before ++ Placeholder k :: after))
  = Abort StoiOutOfRange.
Proof.
  intros Hps Hbefore Hmax.
  pose proof (@checkFormatSpecifiers_pieces n _ Hps EmptyString eq_refl) as E.
  cbn [append] in E. rewrite E. unfold validationOf.
  rewrite firstRejected_at.
  - apply Z.leb_gt in Hmax. now rewrite Hmax.
  - eapply Forall_impl; [|exact Hbefore]. intros i. apply accepted_spec.
  - unfold accepted. apply andb_false_iff. right. apply Z.leb_gt. exact Hmax.
Qed.

Lemma validation_overflow_throws_witness :
  checkFormatSpecifiers 5
    (templateText ([Literal "dim "] ++ Placeholder (2 ^ 31) :: []))
  = Abort StoiOutOfRange.
Proof.
  apply (@validation_overflow_throws 5 [Literal "dim "] [] (2 ^ 31) eq_refl).
  - constructor.
  - rewrite Nat2Z.inj_pow. reflexivity.
Defined.

Lemma validated_pieces_ok (values : list Z) (ps : list Piece) :
  literalsBraceFree ps = true ->
  Forall (fun i => (i < List.length values)%nat) (placeholders ps) ->
  forallb (pieceOk (List.length values)) ps = true.
Proof.
  induction ps as [|[t|i] ps IH]; cbn [literalsBraceFree forallb placeholders pieceOk];
    intros Hps Hi.
  - reflexivity.
  - apply andb_true_iff in Hps as [Ht Hps]. rewrite Ht. now apply IH.
  - inversion Hi as [|? ? H1 H2]; subst.
    apply Nat.ltb_lt in H1. rewrite H1. now apply IH.
Qed.

(** X4. On a message made of literal text without an opening brace and of
    placeholders [{i}], with at most four message inputs: when the
    validation of the message against the number of inputs passes,
    [formatErrorMessage] returns the message with every placeholder replaced
    by its input in decimal. *)
Theorem validated_template_formats (values : list Z) (ps : list Piece) :
  literalsBraceFree ps = true ->
  (List.length values <= 4)%nat ->
  checkFormatSpecifiers (Z.of_nat (List.length values)) (templateText ps)
  = Ok None ->
  formatErrorMessage (templateText ps) values = Ok (expansion values ps).
Proof.
  intros Hps Hlen Hcheck.
  pose proof (@checkFormatSpecifiers_pieces (Z.of_nat (List.length values)) ps
                Hps EmptyString eq_refl) as E.
  cbn [append] in E. rewrite E in Hcheck. unfold validationOf in Hcheck.
  assert (Hnone : firstRejected (Z.of_nat (List.length values)) ps = None).
  { destruct (firstRejected _ ps) as [k|]; [|reflexivity].
    destruct (Z.of_nat k <=? INT_MAX); discriminate. }
  apply firstRejected_none in Hnone.
  assert (Hok : forallb (pieceOk (List.length values)) ps = true).
  { apply validated_pieces_ok; [exact Hps|].
    eapply Forall_impl; [|exact Hnone]. cbn. intros i Hi.
    apply accepted_spec in Hi. lia. }
  rewrite formatErrorMessage_arm.
  destruct values as [|a [|b [|c [|d [|e r]]]]]; cbn [List.length] in *;
    try lia; cbn [formatArm];
    try (f_equal; apply formatv_template; [simpl; lia | exact Hok]).
  f_equal. now apply template_without_inputs.
Qed.

Lemma validated_template_formats_witness :
  formatErrorMessage (templateText badValueTemplate) [3; 7]
  = Ok "bad value 3, expected 7".
Proof.
  apply (@validated_template_formats [3; 7] badValueTemplate eq_refl).
  - cbn. lia.
  - reflexivity.
Defined.

End TemplateFacts.

(** ** The contract [verifyShapeAssertion] checks *)

Section ContractFacts.

Lemma isScalarInteger_spec (widths : list N) (t : Type_) :
  isScalarInteger widths t = true <-> exists w, In w widths /\ t = scalarOf w.
Proof.
  unfold isScalarInteger, scalarOf. split.
  - destruct t as [[|d shape] [w [| |]|name]|e|name]; try discriminate.
    intros H. apply existsb_exists in H as (x & Hx & Hw).
    apply N.eqb_eq in Hw. subst x. now exists w.
  - intros (w & Hw & ->). apply existsb_exists. exists w.
    split; [exact Hw | apply N.eqb_refl].
Qed.

Lemma firstNonScalar_none (i : nat) (operands : list Value) :
  firstNonScalar i operands = None
  <-> Forall (fun v => vType v = scalarOf 32 \/ vType v = scalarOf 64) operands.
Proof.
  revert i. induction operands as [|v rest IH]; intros i; cbn [firstNonScalar].
  - split; [constructor | reflexivity].
  - destruct (isScalarInteger [32%N; 64%N] (vType v)) eqn:E.
    + rewrite IH. apply isScalarInteger_spec in E as (w & [<-|[<-|[]]] & Hw);
        (split; [intros H; constructor; auto | now inversion 1]).
    + split; [discriminate|]. inversion 1 as [|? ? Hv _]; subst.
      assert (Ht : isScalarInteger [32%N; 64%N] (vType v) = true).
      { apply isScalarInteger_spec. destruct Hv as [Hv|Hv]; eexists;
          (split; [|exact Hv]); cbn; auto. }
      congruence.
Qed.

Lemma find_none_iff {A} (f : A -> bool) (l : list A) :
  find f l = None <-> forall x, In x l -> f x = false.
Proof.
  split; [apply find_none|].
  induction l as [|a l IH]; cbn; [reflexivity|]. intros H.
  rewrite (H a (or_introl eq_refl)). apply IH. intros x Hx. apply H. now right.
Qed.

Lemma allowList_spec (name : string) :
  existsb (String.eqb name) allowList = true <-> In name allowList.
Proof.
  rewrite existsb_exists. split.
  - intros (x & Hx & E). apply String.eqb_eq in E. now subst.
  - intros H. exists name. split; [exact H | apply String.eqb_refl].
Qed.

Lemma allowListRule_none (op : CustomCallOp) :
  allowListRule op = None
  <-> forall attr, In attr (otherAttrs op) -> In (fst attr) allowList.
Proof.
  unfold allowListRule.
  match goal with
  | |- context [find ?f ?l] => destruct (find f l) as [a|] eqn:E
  end; cbn [option_map].
  - split; [discriminate|]. intros H. exfalso.
    apply find_some in E as [Hin Hbad]. apply negb_true_iff in Hbad.
    assert (Hgood : existsb (String.eqb (fst a)) allowList = true).
    { apply allowList_spec. unfold getAttrs in Hin.
      destruct Hin as [<-|[<-|[<-|Hin]]]; [cbn; auto 6 ..| now apply H]. }
    congruence.
  - split; [|reflexivity]. intros _ attr Hin.
    apply allowList_spec.
    pose proof (proj1 (find_none_iff _ _) E attr) as Hn.
    cbn beta in Hn. apply negb_false_iff. apply Hn.
    unfold getAttrs. now do 3 right.
Qed.

Lemma getErrorMessage_ok (op : CustomCallOp) (template : string) :
  getErrorMessage op = Ok template
  <-> getAttr op "error_message" = Some (StringAttr template).
Proof.
  unfold getErrorMessage, errorMessageAttrName.
  destruct (getAttr op "error_message") as [[v|b|z|t]|]; split;
    intros H; try discriminate; congruence.
Qed.

(** The structural rules hold exactly on the operations that meet the
    first seven parts of the contract and carry an error message. *)
Lemma structuralRules_none (op : CustomCallOp) :
  firstViolation structuralRules op = None
  <-> (1 <= List.length (inputs op) <= 5)%nat
      /\ resultTypes op = []
      /\ (forall attr, In attr (otherAttrs op) -> In (fst attr) allowList)
      /\ backendConfig op = EmptyString
      /\ callTargetName op = "shape_assertion"
      /\ hasSideEffect op = true
      /\ (exists assertWhat operands,
            inputs op = assertWhat :: operands
            /\ vType assertWhat = scalarOf 1
            /\ Forall (fun v => vType v = scalarOf 32 \/ vType v = scalarOf 64)
                      operands)
      /\ hasAttr op "error_message" = true.
Proof.
  rewrite firstViolation_none. unfold structuralRules.
  repeat rewrite Forall_cons_iff.
  rewrite allowListRule_none.
  unfold operandCountRule, resultCountRule, backendConfigRule, callTargetRule,
    sideEffectRule, predicateTypeRule, messageInputTypesRule, errorMessageRule,
    violatedWhen.
  split.
  - intros (H1 & H2 & H3 & H4 & H5 & H6 & H7 & H8 & H9 & _).
    assert (C1 : (1 <= List.length (inputs op) <= 5)%nat).
    { destruct (Nat.leb_spec 1 (List.length (inputs op)));
        destruct (Nat.leb_spec (List.length (inputs op)) 5);
        cbn in H1; try discriminate; lia. }
    split; [exact C1|].
    split. { destruct (resultTypes op); [reflexivity | discriminate]. }
    split; [exact H3|].
    split. { destruct (String.eqb_spec (backendConfig op) ""); [assumption | discriminate]. }
    split. { destruct (String.eqb_spec (callTargetName op) "shape_assertion");
             [assumption | discriminate]. }
    split. { destruct (hasSideEffect op); [reflexivity | discriminate]. }
    split.
    + destruct (inputs op) as [|assertWhat operands]; [cbn in C1; lia|].
      exists assertWhat, operands. split; [reflexivity|]. split.
      * destruct (isScalarInteger [1%N] (vType assertWhat)) eqn:E;
          [|discriminate].
        apply isScalarInteger_spec in E as (w & [<-|[]] & Hw). exact Hw.
      * cbn [tl] in H8. apply (firstNonScalar_none 1).
        destruct (firstNonScalar 1 operands); [discriminate | reflexivity].
    + destruct (hasAttr op "error_message"); [reflexivity | discriminate].
  - intros (C1 & C2 & C3 & C4 & C5 & C6 & (assertWhat & operands & Hin & Hp & Hops)
            & C9).
    assert (E1 : (1 <=? List.length (inputs op))%nat = true)
      by (apply Nat.leb_le; lia).
    assert (E2 : (List.length (inputs op) <=? 5)%nat = true)
      by (apply Nat.leb_le; lia).
    rewrite E1, E2, C2, C4, C5, C6, C9, Hin. cbn [tl].
    assert (E7 : isScalarInteger [1%N] (vType assertWhat) = true).
    { apply isScalarInteger_spec. exists 1%N. split; [now left | exact Hp]. }
    rewrite E7, (proj2 (firstNonScalar_none 1 operands) Hops).
    cbn. repeat split; auto.
Qed.

(** X5. [verifyShapeAssertion] succeeds, leaving the state as it is,
    exactly on the operations that meet the contract: one to five operands,
    no result, only supported attribute names, an empty backend config, the
    call target [shape_assertion], [has_side_effect] true, operand #0 of type
    [tensor<i1>], the other operands of type [tensor<i32>] or [tensor<i64>],
    and a string attribute [error_message] whose placeholders pass the
    validation. *)
Theorem verifyShapeAssertion_succeeds_iff (op : CustomCallOp) (s : PassState) :
  verifyShapeAssertion op s = Ok (success, s) <-> ShapeContract op.
Proof.
  rewrite verifyShapeAssertion_verdict. unfold ShapeContract, verdict.
  fold allowList.
  split.
  - destruct (firstViolation structuralRules op) as [d|] eqn:Hrules;
      [discriminate|].
    apply structuralRules_none in Hrules
      as (C1 & C2 & C3 & C4 & C5 & C6 & C7 & C9).
    unfold messageCheck.
    destruct (getErrorMessage op) as [template|c] eqn:Hmsg; cbn [obind];
      [|discriminate].
    destruct (checkFormatSpecifiers _ template) as [[d|]|c] eqn:Hcheck;
      try discriminate.
    intros _. repeat (split; [assumption|]).
    exists template. split; [now apply getErrorMessage_ok | exact Hcheck].
  - intros (C1 & C2 & C3 & C4 & C5 & C6 & C7 & template & Hattr & Hcheck).
    assert (Hrules : firstViolation structuralRules op = None).
    { apply structuralRules_none. repeat (split; [assumption|]).
      unfold hasAttr. now rewrite Hattr. }
    rewrite Hrules. unfold messageCheck.
    rewrite (proj2 (getErrorMessage_ok op template) Hattr). cbn [obind].
    now rewrite Hcheck.
Qed.

Lemma verifyShapeAssertion_succeeds_iff_witness :
  ShapeContract violatedAssertion.
Proof.
  apply (proj1 (verifyShapeAssertion_succeeds_iff violatedAssertion initialState)).
  reflexivity.
Defined.

End ContractFacts.

(** ** A summary of the walk of the pass *)

Section SummaryFacts.

Local Open Scope pass_scope.

Lemma matchErrorMessageInputs_summary (op : CustomCallOp)
    (operands : list Value) :
  forall (i : nat) (acc : list Z) (s : PassState) r s',
    matchErrorMessageInputs op i operands acc s = Ok (r, s') ->
    exists new,
      trace s' = (trace s ++ new)%list
      /\ Forall isMatchInts new
      /\ match r with
         | Some _ => diags s' = diags s /\ failed s' = failed s
         | None =>
             (exists message,
                 diags s' = (diags s ++ [mkDiagnostic (CustomCall op) message])%list)
             /\ failed s' = true
         end.
Proof.
  induction operands as [|operand rest IH]; intros i acc s r s'.
  - cbn. intros [= <- <-]. exists []. rewrite app_nil_r.
    repeat split. constructor.
  - cbn [matchErrorMessageInputs]. unfold bind at 1. cbn [logEvent modify].
    destruct (matchInts operand) as [input|].
    + unfold bind at 1.
      destruct input as [|input0 input]; cbn [at_ nth_error lift];
        [discriminate|].
      intros H. apply IH in H as (new & Htr & Hnew & Hr).
      cbn [trace diags failed] in Htr, Hr. exists (EvMatchInts op i :: new).
      rewrite Htr, <- app_assoc. repeat split; [|exact Hr].
      constructor; [exact I | exact Hnew].
    + unfold bind, emitError, signalPassFailure, modify, ret. cbn.
      intros [= <- <-]. exists [EvMatchInts op i]. cbn.
      repeat split; [repeat constructor|]. eexists. reflexivity.
Qed.

(** The two ways the callback ends on a marker: the marker is erased and
    nothing is emitted, or it is kept with one diagnostic and the failure
    signalled. *)
Lemma visit_cases (enable : bool) (op : CustomCallOp) (s : PassState)
    (v : Visit) (s' : PassState) :
  String.eqb (callTargetName op) shapeAssertionName = true ->
  visitCustomCall enable op s = Ok (v, s') ->
  exists mid,
    Forall isMatchInts mid
    /\ ((v = Erased
         /\ s' = mkPassState (diags s) (failed s)
                  (trace s ++ (if enable then [EvVerify op] else [])
                   ++ mid ++ [EvErase op])%list)
        \/ (v = Kept /\ enable = true
            /\ exists message tail,
                 s' = mkPassState
                        (diags s ++ [mkDiagnostic (CustomCall op) message])%list
                        true
                        (trace s ++ [EvVerify op] ++ mid ++ tail)%list
                 /\ (tail = [] \/ exists values, tail = [EvFormat op values]))).
Proof.
  intros Hname. unfold visitCustomCall. rewrite Hname. cbn [negb].
  destruct enable; cbn [negb].
  2:{ unfold erase, bind, logEvent, modify, ret. intros [= <- <-].
      exists []. split; [constructor|]. left. split; reflexivity. }
  unfold bind at 1. cbn [logEvent modify].
  unfold bind at 1. rewrite verifyShapeAssertion_verdict.
  destruct (verdict op) as [[d|]|c] eqn:Hv; [| |discriminate].
  { cbn [succeeded negb]. unfold bind, signalPassFailure, modify, ret.
    intros [= <- <-]. exists []. split; [constructor|]. right.
    repeat split. exists d, []. split; [reflexivity | now left]. }
  cbn [succeeded negb].
  destruct (inputs op) as [|assertWhat operands] eqn:Hin.
  { unfold bind. cbn. discriminate. }
  unfold bind at 1. cbn [at_ nth_error lift].
  unfold bind at 1. cbn [logEvent modify].
  destruct (matchInts assertWhat) as [[|c more]|].
  - unfold bind. cbn. discriminate.
  - unfold bind at 1. cbn [at_ nth_error lift].
    destruct (c =? 0); cbn [negb].
    + unfold bind at 1.
      destruct (getErrorMessage op) as [template|c']; cbn [lift];
        [|discriminate].
      unfold bind at 1. cbn [tl].
      destruct (matchErrorMessageInputs op 1 operands [] _)
        as [[[values|] s1]|c'] eqn:Hm; [| |discriminate].
      * apply matchErrorMessageInputs_summary in Hm
          as (new & Htr & Hnew & Hd & Hf).
        cbn [trace diags failed] in Htr, Hd, Hf.
        unfold bind at 1. cbn [logEvent modify].
        unfold bind at 1.
        destruct (formatErrorMessage template values) as [message|c'];
          cbn [lift]; [|discriminate].
        unfold bind, emitError, signalPassFailure, modify, ret. cbn.
        intros [= <- <-].
        exists (EvMatchInts op 0 :: new). split; [now constructor|]. right.
        repeat split. exists message, [EvFormat op values].
        split; [|right; now exists values].
        rewrite Htr, Hd. f_equal. now rewrite <- !app_assoc.
      * apply matchErrorMessageInputs_summary in Hm
          as (new & Htr & Hnew & (message & Hd) & Hf).
        cbn [trace diags failed] in Htr, Hd, Hf. intros [= <- <-].
        exists (EvMatchInts op 0 :: new). split; [now constructor|]. right.
        repeat split. exists message, []. split; [|now left].
        destruct s1 as [d1 f1 t1]. cbn in *. subst.
        f_equal. now rewrite app_nil_r, <- !app_assoc.
    + unfold erase, bind, logEvent, modify, ret. cbn. intros [= <- <-].
      exists [EvMatchInts op 0]. split; [repeat constructor|]. left.
      split; [reflexivity|]. f_equal. now rewrite <- !app_assoc.
  - unfold bind, emitError, signalPassFailure, modify, ret. cbn.
    intros [= <- <-]. exists [EvMatchInts op 0].
    split; [repeat constructor|]. right. repeat split.
    eexists. exists []. split; [|now left].
    f_equal. now rewrite <- !app_assoc.
Qed.

Lemma verifiedIn_app (a b : list Event) :
  verifiedIn (a ++ b) = (verifiedIn a ++ verifiedIn b)%list.
Proof. apply flat_map_app. Qed.

Lemma erasedIn_app (a b : list Event) :
  erasedIn (a ++ b) = (erasedIn a ++ erasedIn b)%list.
Proof. apply flat_map_app. Qed.

Lemma isMatchInts_silent (mid : list Event) :
  Forall isMatchInts mid -> verifiedIn mid = [] /\ erasedIn mid = [].
Proof.
  induction 1 as [|e mid He _ [IH1 IH2]]; [now split|].
  destruct e; try destruct He. unfold verifiedIn, erasedIn in *. cbn.
  now rewrite IH1, IH2.
Qed.

Lemma nonEmpty_app {A} (a b : list A) :
  nonEmpty (a ++ b) = nonEmpty a || nonEmpty b.
Proof. destruct a; [reflexivity | reflexivity]. Qed.

Lemma WalkSummary_refl (enable : bool) (before after : list Operation)
    (s : PassState) :
  assertionsIn before = [] -> assertionsIn after = [] ->
  WalkSummary enable before after s s.
Proof.
  intros Hb Ha. exists [], []. rewrite !app_nil_r, orb_false_r, Hb, Ha.
  repeat split; try easy. now destruct enable.
Qed.

Lemma WalkSummary_trans (enable : bool) (l1 l1' l2 l2' : list Operation)
    (s s1 s2 : PassState) :
  WalkSummary enable l1 l1' s s1 ->
  WalkSummary enable l2 l2' s1 s2 ->
  WalkSummary enable (l1 ++ l2) (l1' ++ l2') s s2.
Proof.
  intros (e1 & g1 & Hd1 & Ht1 & Hf1 & Ha1 & Hr1 & Hv1 & Hc1)
         (e2 & g2 & Hd2 & Ht2 & Hf2 & Ha2 & Hr2 & Hv2 & Hc2).
  exists (e1 ++ e2)%list, (g1 ++ g2)%list.
  rewrite Hd2, Hd1, Ht2, Ht1, Hf2, Hf1, !app_assoc, nonEmpty_app, orb_assoc.
  refine (conj eq_refl (conj eq_refl (conj eq_refl
            (conj _ (conj _ (conj _ _)))))).
  - intros d Hd. apply in_app_or in Hd as [Hd|Hd].
    + destruct (Ha1 d Hd) as [Hm Hin]. split; [exact Hm|].
      apply in_or_app. now left.
    + destruct (Ha2 d Hd) as [Hm Hin]. split; [exact Hm|].
      apply in_or_app. now right.
  - intros m Hm. rewrite assertionsIn_app in Hm. rewrite map_app.
    apply in_app_or in Hm as [Hm|Hm]; apply in_or_app; auto.
  - rewrite verifiedIn_app, Hv1, Hv2, assertionsIn_app. now destruct enable.
  - rewrite erasedIn_app, !assertionsIn_app, !length_app. lia.
Qed.

Lemma WalkSummary_visit (enable : bool) (o : Operation) (s : PassState)
    (v : Visit) (s' : PassState) :
  callback enable o s = Ok (v, s') ->
  WalkSummary enable [o] (match v with Kept => [o] | Erased => [] end) s s'.
Proof.
  destruct o as [op|name operands results regions]; cbn [callback].
  2:{ intros [= <- <-]. now apply WalkSummary_refl. }
  destruct (String.eqb (callTargetName op) shapeAssertionName) eqn:Hname.
  2:{ unfold visitCustomCall. rewrite Hname. cbn [negb]. intros [= <- <-].
      apply WalkSummary_refl; cbn; now rewrite Hname. }
  intros H. apply (@visit_cases enable op s v s' Hname) in H
    as (mid & Hmid & Hcase).
  destruct (isMatchInts_silent Hmid) as [Hv He].
  assert (Hmarker : assertionsIn [CustomCall op] = [op])
    by (cbn; now rewrite Hname).
  destruct Hcase as [(-> & ->)
                    |(-> & -> & message & tail & -> & Htail)].
  - exists [], ((if enable then [EvVerify op] else []) ++ mid ++ [EvErase op])%list.
    cbn [diags trace failed nonEmpty]. rewrite app_nil_r, orb_false_r, Hmarker.
    refine (conj eq_refl (conj eq_refl (conj eq_refl
              (conj _ (conj _ (conj _ _)))))).
    + intros d [].
    + intros m [].
    + rewrite !verifiedIn_app, Hv. now destruct enable.
    + rewrite !erasedIn_app, He. now destruct enable.
  - exists [mkDiagnostic (CustomCall op) message],
           ([EvVerify op] ++ mid ++ tail)%list.
    cbn [diags trace failed nonEmpty]. rewrite orb_true_r, Hmarker.
    refine (conj eq_refl (conj eq_refl (conj eq_refl
              (conj _ (conj _ (conj _ _)))))).
    + intros d [<-|[]]. split; [exact Hname | now left].
    + intros m [<-|[]]. now left.
    + rewrite !verifiedIn_app, Hv.
      destruct Htail as [->|(values & ->)]; reflexivity.
    + rewrite !erasedIn_app, He.
      destruct Htail as [->|(values & ->)]; reflexivity.
Qed.

(** What a walk of the pass does, on each kind of tree. *)
Lemma walk_summary (enable : bool) :
  (forall o s r s',
      walkOperation (callback enable) o s = Ok (r, s') ->
      WalkSummary enable (opsOfOperation o) (opsOfKept r) s s')
  /\ (forall rs s r s',
        walkRegions (callback enable) rs s = Ok (r, s') ->
        WalkSummary enable (opsOfRegions rs) (opsOfRegions r) s s')
  /\ (forall bs s r s',
        walkBlocks (callback enable) bs s = Ok (r, s') ->
        WalkSummary enable (opsOfBlocks bs) (opsOfBlocks r) s s')
  /\ (forall os s r s',
        walkOps (callback enable) os s = Ok (r, s') ->
        WalkSummary enable (opsOfOps os) (opsOfOps r) s s').
Proof.
  apply ir_mutind.
  - intros op s r s'. rewrite walkOperation_custom_call.
    destruct (callback enable (CustomCall op) s) as [[v s1]|c] eqn:E;
      [|discriminate].
    apply WalkSummary_visit in E.
    destruct v; intros [= <- <-]; exact E.
  - intros name operands results regions IH s r s'.
    rewrite walkOperation_eq. unfold bind, ret.
    destruct (walkRegions (callback enable) regions s) as [[rs' s1]|c] eqn:E;
      [|discriminate].
    cbn [callback]. intros [= <- <-]. cbn [opsOfOperation opsOfKept].
    eapply WalkSummary_trans; [eapply IH; exact E|].
    now apply WalkSummary_refl.
  - intros s r s' [= <- <-]. now apply WalkSummary_refl.
  - intros blocks IHb rest IHr s r s'. rewrite walkRegions_eq.
    unfold bind, ret.
    destruct (walkBlocks _ blocks s) as [[b' s1]|c] eqn:E1; [|discriminate].
    destruct (walkRegions _ rest s1) as [[r' s2]|c] eqn:E2; [|discriminate].
    intros [= <- <-]. cbn [opsOfRegions].
    eapply WalkSummary_trans; eauto.
  - intros s r s' [= <- <-]. now apply WalkSummary_refl.
  - intros arguments body IHb rest IHr s r s'. rewrite walkBlocks_eq.
    unfold bind, ret.
    destruct (walkOps _ body s) as [[b' s1]|c] eqn:E1; [|discriminate].
    destruct (walkBlocks _ rest s1) as [[r' s2]|c] eqn:E2; [|discriminate].
    intros [= <- <-]. cbn [opsOfBlocks].
    eapply WalkSummary_trans; eauto.
  - intros s r s' [= <- <-]. now apply WalkSummary_refl.
  - intros op IHo rest IHr s r s'. rewrite walkOps_eq. unfold bind, ret.
    destruct (walkOperation _ op s) as [[o' s1]|c] eqn:E1; [|discriminate].
    destruct (walkOps _ rest s1) as [[r' s2]|c] eqn:E2; [|discriminate].
    intros [= <- <-].
    assert (Hops : opsOfOps (match o' with
                             | Some kept => ConsOp kept r'
                             | None => r'
                             end)
                   = (opsOfKept o' ++ opsOfOps r')%list)
      by (destruct o'; reflexivity).
    rewrite Hops. cbn [opsOfOps].
    eapply WalkSummary_trans; eauto.
Qed.

Lemma callback_erased_marker (enable : bool) (o : Operation) (s s' : PassState) :
  callback enable o s = Ok (Erased, s') -> isShapeAssertion o = true.
Proof.
  destruct o as [op|]; cbn [callback isShapeAssertion]; [|discriminate].
  unfold visitCustomCall.
  destruct (String.eqb (callTargetName op) shapeAssertionName);
    [reflexivity | discriminate].
Qed.

(** The walk of the pass takes nothing but shape assertions out of a
    tree. *)
Lemma walk_erases_only_markers (enable : bool) :
  (forall o s r s',
      walkOperation (callback enable) o s = Ok (r, s') ->
      eraseAssertionsKept r = eraseAssertions o)
  /\ (forall rs s r s',
        walkRegions (callback enable) rs s = Ok (r, s') ->
        eraseAssertionsRegions r = eraseAssertionsRegions rs)
  /\ (forall bs s r s',
        walkBlocks (callback enable) bs s = Ok (r, s') ->
        eraseAssertionsBlocks r = eraseAssertionsBlocks bs)
  /\ (forall os s r s',
        walkOps (callback enable) os s = Ok (r, s') ->
        eraseAssertionsOps r = eraseAssertionsOps os).
Proof.
  apply ir_mutind.
  - intros op s r s'. rewrite walkOperation_custom_call.
    destruct (callback enable (CustomCall op) s) as [[[|] s1]|c] eqn:E;
      intros [= <- <-]; [reflexivity|].
    apply callback_erased_marker in E. cbn [eraseAssertionsKept eraseAssertions].
    now rewrite E.
  - intros name operands results regions IH s r s'.
    rewrite walkOperation_eq. unfold bind, ret.
    destruct (walkRegions (callback enable) regions s) as [[rs' s1]|c] eqn:E;
      [|discriminate].
    cbn [callback]. intros [= <- <-]. cbn [eraseAssertionsKept eraseAssertions].
    now rewrite (IH _ _ _ E).
  - now intros s r s' [= <- <-].
  - intros blocks IHb rest IHr s r s'. rewrite walkRegions_eq.
    unfold bind, ret.
    destruct (walkBlocks _ blocks s) as [[b' s1]|c] eqn:E1; [|discriminate].
    destruct (walkRegions _ rest s1) as [[r' s2]|c] eqn:E2; [|discriminate].
    intros [= <- <-]. cbn. now rewrite (IHb _ _ _ E1), (IHr _ _ _ E2).
  - now intros s r s' [= <- <-].
  - intros arguments body IHb rest IHr s r s'. rewrite walkBlocks_eq.
    unfold bind, ret.
    destruct (walkOps _ body s) as [[b' s1]|c] eqn:E1; [|discriminate].
    destruct (walkBlocks _ rest s1) as [[r' s2]|c] eqn:E2; [|discriminate].
    intros [= <- <-]. cbn. now rewrite (IHb _ _ _ E1), (IHr _ _ _ E2).
  - now intros s r s' [= <- <-].
  - intros op IHo rest IHr s r s'. rewrite walkOps_eq. unfold bind, ret.
    destruct (walkOperation _ op s) as [[o' s1]|c] eqn:E1; [|discriminate].
    destruct (walkOps _ rest s1) as [[r' s2]|c] eqn:E2; [|discriminate].
    intros [= <- <-]. cbn [eraseAssertionsOps].
    rewrite <- (IHo _ _ _ E1), <- (IHr _ _ _ E2).
    destruct o' as [kept|]; reflexivity.
Qed.

(** X6. A run of the pass, with assertions enabled or not, changes nothing
    but shape assertions: the function it leaves and the function it was
    given are the same once their shape assertions are taken out. *)
Theorem pass_changes_only_markers (enable : bool) (func : Operation)
    (s : PassState) (r : option Operation) (s' : PassState) :
  runOnOperation enable func s = Ok (r, s') ->
  eraseAssertionsKept r = eraseAssertions func.
Proof.
  destruct (walk_erases_only_markers enable) as (Hop & _). apply Hop.
Qed.

Lemma pass_changes_only_markers_witness :
  eraseAssertionsKept
    (Some (func (ConsOp (CustomCall violatedAssertion) NoOp)))
  = eraseAssertions threeMarkers.
Proof.
  apply (@pass_changes_only_markers true threeMarkers initialState
           (Some (func (ConsOp (CustomCall violatedAssertion) NoOp)))
           (mkPassState
              [mkDiagnostic (CustomCall violatedAssertion)
                 "bad value 3, expected 7"]
              true
              [EvVerify holding; EvMatchInts holding 0; EvErase holding;
               EvVerify violatedAssertion; EvMatchInts violatedAssertion 0;
               EvMatchInts violatedAssertion 1; EvMatchInts violatedAssertion 2;
               EvFormat violatedAssertion [3; 7];
               EvVerify holding; EvMatchInts holding 0; EvErase holding])).
  reflexivity.
Defined.

(** X7. When a run of the pass ends without a failure signalled, no shape
    assertion is left in the function. *)
Theorem pass_success_leaves_no_marker (enable : bool) (func : Operation)
    (s : PassState) (r : option Operation) (s' : PassState) :
  runOnOperation enable func s = Ok (r, s') ->
  failed s' = false ->
  forall o, In o (opsOfKept r) -> isShapeAssertion o = false.
Proof.
  intros Hrun Hok. destruct (walk_summary enable) as (Hop & _).
  apply Hop in Hrun as (emitted & logged & _ & _ & Hf & _ & Hleft & _).
  rewrite Hok in Hf. symmetry in Hf. apply orb_false_iff in Hf as [_ Hnone].
  destruct emitted; [|discriminate].
  apply assertionsIn_nil_iff.
  destruct (assertionsIn (opsOfKept r)) as [|m l]; [reflexivity|].
  destruct (Hleft m (or_introl eq_refl)).
Qed.

Lemma pass_success_leaves_no_marker_witness :
  isShapeAssertion (func NoOp) = false.
Proof.
  apply (@pass_success_leaves_no_marker true
           (func (ConsOp (CustomCall holding) NoOp)) initialState
           (Some (func NoOp))
           (mkPassState [] false
              [EvVerify holding; EvMatchInts holding 0; EvErase holding])
           eq_refl eq_refl).
  cbn. now left.
Defined.

(** X8. A run of the pass signals a failure exactly when it emits a
    diagnostic; every diagnostic is attached to a shape assertion that is
    still in the function, and every shape assertion still in the function
    has a diagnostic. *)
Theorem pass_fails_iff_diagnostic (enable : bool) (func : Operation)
    (r : option Operation) (s' : PassState) :
  runOnOperation enable func initialState = Ok (r, s') ->
  failed s' = nonEmpty (diags s')
  /\ (forall d, In d (diags s') ->
        isShapeAssertion (diagOp d) = true /\ In (diagOp d) (opsOfKept r))
  /\ (forall o, In o (opsOfKept r) -> isShapeAssertion o = true ->
        exists d, In d (diags s') /\ diagOp d = o).
Proof.
  intros Hrun. destruct (walk_summary enable) as (Hop & _).
  apply Hop in Hrun as (emitted & logged & Hd & _ & Hf & Hat & Hleft & _).
  cbn in Hd, Hf. rewrite Hd, Hf. split; [reflexivity|]. split; [exact Hat|].
  intros o Hin Hmarker.
  destruct o as [op|]; [|discriminate].
  assert (Hm : In op (assertionsIn (opsOfKept r))).
  { apply in_flat_map. exists (CustomCall op). split; [exact Hin|].
    cbn [assertionsOf]. rewrite Hmarker. now left. }
  apply Hleft in Hm. apply in_map_iff in Hm as (d & Hd' & Hind).
  now exists d.
Qed.

Lemma pass_fails_iff_diagnostic_witness :
  true = nonEmpty [mkDiagnostic (CustomCall withResult) "expects size(results) = 0"].
Proof.
  apply (@pass_fails_iff_diagnostic true illFormedThenHolding
           (Some (func (ConsOp (CustomCall withResult) NoOp)))
           (mkPassState
              [mkDiagnostic (CustomCall withResult) "expects size(results) = 0"]
              true
              [EvVerify withResult; EvVerify holding; EvMatchInts holding 0;
               EvErase holding])
           eq_refl).
Defined.

(** X9. With assertions enabled, a run of the pass calls
    [verifyShapeAssertion] once on every shape assertion of the function,
    in the order of the walk, whatever failed before; and every shape
    assertion is then erased or left in the function. *)
Theorem every_marker_is_verified_once (func : Operation)
    (r : option Operation) (s' : PassState) :
  runOnOperation true func initialState = Ok (r, s') ->
  verifiedIn (trace s') = assertionsIn (opsOfOperation func)
  /\ (List.length (erasedIn (trace s'))
      + List.length (assertionsIn (opsOfKept r))
      = List.length (assertionsIn (opsOfOperation func)))%nat.
Proof.
  intros Hrun. destruct (walk_summary true) as (Hop & _).
  apply Hop in Hrun as (emitted & logged & _ & Ht & _ & _ & _ & Hv & Hc).
  cbn in Ht. rewrite Ht. now split.
Qed.

Lemma every_marker_is_verified_once_witness :
  verifiedIn
    [EvVerify holding; EvMatchInts holding 0; EvErase holding;
     EvVerify violatedAssertion; EvMatchInts violatedAssertion 0;
     EvMatchInts violatedAssertion 1; EvMatchInts violatedAssertion 2;
     EvFormat violatedAssertion [3; 7];
     EvVerify holding; EvMatchInts holding 0; EvErase holding]
  = [holding; violatedAssertion; holding].
Proof.
  apply (@every_marker_is_verified_once threeMarkers
           (Some (func (ConsOp (CustomCall violatedAssertion) NoOp)))
           (mkPassState
              [mkDiagnostic (CustomCall violatedAssertion)
                 "bad value 3, expected 7"]
              true
              [EvVerify holding; EvMatchInts holding 0; EvErase holding;
               EvVerify violatedAssertion; EvMatchInts violatedAssertion 0;
               EvMatchInts violatedAssertion 1; EvMatchInts violatedAssertion 2;
               EvFormat violatedAssertion [3; 7];
               EvVerify holding; EvMatchInts holding 0; EvErase holding])
           eq_refl).
Defined.

Lemma matchErrorMessageInputs_unresolved (op : CustomCallOp)
    (resolved : list Value) (values : list Z) (unresolved : Value)
    (rest : list Value) :
  Resolved resolved values ->
  matchInts unresolved = None ->
  forall (i : nat) (acc : list Z) (s : PassState),
    matchErrorMessageInputs op i (resolved ++ unresolved :: rest) acc s
    = Ok (None,
          mkPassState
            (diags s
             ++ [mkDiagnostic (CustomCall op)
                   ("expects static error_message_input (operand #"
                    ++ decimalN (N.of_nat (i + List.length resolved)) ++ ")")])%list
            true
            (trace s
             ++ map (EvMatchInts op) (seq i (S (List.length resolved))))%list).
Proof.
  intros Hres Hun.
  induction Hres as [|operand value resolved values [more Hv] _ IH];
    intros i acc s.
  - rewrite app_nil_l. cbn [matchErrorMessageInputs List.length].
    rewrite Nat.add_0_r.
    unfold bind at 1. cbn [logEvent modify]. rewrite Hun.
    unfold bind, emitError, signalPassFailure, modify, ret. reflexivity.
  - rewrite <- app_comm_cons. cbn [matchErrorMessageInputs].
    unfold bind at 1. cbn [logEvent modify]. rewrite Hv.
    unfold bind at 1. cbn [at_ nth_error lift]. rewrite IH.
    cbn [diags failed trace List.length].
    replace (S i + List.length resolved)%nat
      with (i + S (List.length resolved))%nat by lia.
    f_equal. f_equal. f_equal.
    change (seq i (S (S (List.length resolved))))
      with (i :: seq (S i) (S (List.length resolved))).
    cbn [map]. now rewrite <- app_assoc.
Qed.

(** X10. With assertions enabled, a well-formed marker whose operand #0 is
    not a constant is a structural error: the callback emits "expects
    static assert_what (operand #0)", signals the failure and keeps the
    marker; it reads no message input and formats nothing. *)
Theorem non_constant_predicate_is_an_error (op : CustomCallOp)
    (assertWhat : Value) (operands : list Value) (s : PassState) :
  wellFormed op ->
  inputs op = assertWhat :: operands ->
  matchInts assertWhat = None ->
  visitCustomCall true op s
  = Ok (Kept,
        mkPassState
          (diags s ++ [mkDiagnostic (CustomCall op)
                         "expects static assert_what (operand #0)"])%list
          true
          (trace s ++ [EvVerify op; EvMatchInts op 0])%list).
Proof.
  intros Hwf Hin Hnone.
  pose proof (structural_marker op (wellFormed_structural Hwf)) as Hname.
  unfold visitCustomCall.
  rewrite Hname, String.eqb_refl. cbn [negb].
  unfold bind at 1. cbn [logEvent modify].
  unfold bind at 1. rewrite verifyShapeAssertion_verdict, Hwf.
  cbn [succeeded negb]. rewrite Hin.
  unfold bind at 1. cbn [at_ nth_error lift].
  unfold bind at 1. cbn [logEvent modify]. rewrite Hnone.
  unfold bind, emitError, signalPassFailure, modify, ret. cbn.
  now rewrite <- !app_assoc.
Qed.

Lemma non_constant_predicate_is_an_error_witness :
  visitCustomCall true dynamicPredicate initialState
  = Ok (Kept,
        mkPassState
          [mkDiagnostic (CustomCall dynamicPredicate)
             "expects static assert_what (operand #0)"]
          true [EvVerify dynamicPredicate; EvMatchInts dynamicPredicate 0]).
Proof.
  apply (@non_constant_predicate_is_an_error dynamicPredicate
           (mkValue i1 None) [] initialState eq_refl eq_refl eq_refl).
Defined.

(** X11. With assertions enabled, on a well-formed marker whose predicate
    is the constant zero, the first message input that is not a constant is
    a structural error that names its operand: the callback emits "expects
    static error_message_input (operand #i)", signals the failure, keeps the
    marker, reads no later operand and does not call
    [formatErrorMessage]. *)
Theorem non_constant_input_is_an_error (op : CustomCallOp)
    (assertWhat : Value) (more : list Z) (resolved : list Value)
    (values : list Z) (unresolved : Value) (rest : list Value)
    (s : PassState) :
  wellFormed op ->
  inputs op = assertWhat :: (resolved ++ unresolved :: rest)%list ->
  matchInts assertWhat = Some (0 :: more) ->
  Resolved resolved values ->
  matchInts unresolved = None ->
  visitCustomCall true op s
  = Ok (Kept,
        mkPassState
          (diags s
           ++ [mkDiagnostic (CustomCall op)
                 ("expects static error_message_input (operand #"
                  ++ decimalN (N.of_nat (1 + List.length resolved)) ++ ")")])%list
          true
          (trace s ++ [EvVerify op]
           ++ map (EvMatchInts op) (seq 0 (2 + List.length resolved)))%list).
Proof.
  intros Hwf Hin Hc Hres Hun.
  pose proof (structural_marker op (wellFormed_structural Hwf)) as Hname.
  assert (Hmsg : exists template, getErrorMessage op = Ok template).
  { pose proof Hwf as Hp. unfold wellFormed in Hp.
    rewrite (verdict_messageCheck op (wellFormed_structural Hwf)) in Hp.
    unfold messageCheck in Hp.
    destruct (getErrorMessage op) as [t|c]; [now exists t | discriminate]. }
  destruct Hmsg as [template Hmsg].
  unfold visitCustomCall.
  rewrite Hname, String.eqb_refl. cbn [negb].
  unfold bind at 1. cbn [logEvent modify].
  unfold bind at 1. rewrite verifyShapeAssertion_verdict, Hwf.
  cbn [succeeded negb]. rewrite Hin.
  unfold bind at 1. cbn [at_ nth_error lift].
  unfold bind at 1. cbn [logEvent modify]. rewrite Hc.
  unfold bind at 1. cbn [at_ nth_error lift Z.eqb negb].
  unfold bind at 1. rewrite Hmsg. cbn [lift tl].
  unfold bind at 1.
  rewrite (@matchErrorMessageInputs_unresolved op resolved values unresolved
             rest Hres Hun).
  cbn [diags failed trace ret]. f_equal. f_equal. f_equal.
  rewrite <- !app_assoc. f_equal.
  change (seq 0 (2 + List.length resolved))
    with (0%nat :: seq 1 (S (List.length resolved))).
  reflexivity.
Qed.

Lemma non_constant_input_is_an_error_witness :
  visitCustomCall true dynamicInput initialState
  = Ok (Kept,
        mkPassState
          [mkDiagnostic (CustomCall dynamicInput)
             "expects static error_message_input (operand #2)"]
          true
          [EvVerify dynamicInput; EvMatchInts dynamicInput 0;
           EvMatchInts dynamicInput 1; EvMatchInts dynamicInput 2]).
Proof.
  assert (Hres : Resolved [constant i32 3] [3])
    by (repeat constructor; exists []; reflexivity).
  apply (@non_constant_input_is_an_error dynamicInput (constant i1 0) []
           [constant i32 3] [3] (mkValue i32 None) [] initialState
           eq_refl eq_refl eq_refl Hres eq_refl).
Defined.

End SummaryFacts.

(** ** More on the validation of static shapes *)

Section ValidateMoreFacts.

Lemma ValidateStaticShapes_total (module : ModuleOp) :
  exists status, ValidateStaticShapes module = Ok status.
Proof.
  unfold ValidateStaticShapes. rewrite auditWalk_spec. cbn [obind].
  destruct (moduleHasDynamicShapes _); [eexists; reflexivity|].
  destruct (moduleHasShapeAssertions _); eexists; reflexivity.
Qed.

(** X12. [ValidateStaticShapes] always returns; it returns [OkStatus]
    exactly when no operation of the module has a result or a region
    argument of dynamic shape and no operation is a shape assertion; and its
    walk erases nothing. *)
Theorem validate_succeeds_iff (module : ModuleOp) :
  (ValidateStaticShapes module = Ok OkStatus
   <-> FullyRefined module /\ MarkerFree module)
  /\ (exists status, ValidateStaticShapes module = Ok status)
  /\ (exists s,
        walkOperation auditOperation (moduleOperation module) auditStart
        = Ok (Some (moduleOperation module), s)).
Proof.
  split; [apply ValidateStaticShapes_ok|]. split.
  - apply ValidateStaticShapes_total.
  - destruct walk_audit as (Hop & _). rewrite Hop. eexists. reflexivity.
Qed.

Lemma validate_succeeds_iff_witness :
  ValidateStaticShapes emptyFunction = Ok OkStatus.
Proof.
  apply (proj2 (proj1 (validate_succeeds_iff emptyFunction))).
  split; intros o [<-|[<-|[]]]; reflexivity.
Defined.

Lemma diagnosticsOf_static (l : list Operation) :
  (forall o, In o l -> opHasDynamicShapes o = false) ->
  flat_map diagnosticsOf l = map residualDiagnostic (filter isShapeAssertion l).
Proof.
  induction l as [|o l IH]; intros H; [reflexivity|].
  cbn [flat_map filter]. rewrite IH by (intros x Hx; apply H; now right).
  unfold diagnosticsOf at 1. rewrite (H o (or_introl eq_refl)).
  cbn [app]. destruct (isShapeAssertion o) eqn:E; [|reflexivity].
  cbn [map app]. f_equal.
  destruct o as [op|]; [reflexivity | discriminate].
Qed.

(** X13. On a module without dynamic shapes in which a shape assertion is
    left, [ValidateStaticShapes] returns the error headed "Module has
    residual shape assertions: ", whose text is made of one diagnostic for
    each shape assertion of the module, in the order of the walk, and of
    nothing else. *)
Theorem validate_residual_assertions (module : ModuleOp) (marker : Operation) :
  FullyRefined module ->
  In marker (opsOfOperation (moduleOperation module)) ->
  isShapeAssertion marker = true ->
  ValidateStaticShapes module
  = Ok (InvalidArgumentError
          ("Module has residual shape assertions: "
           ++ ConsumeStatus
                (map residualDiagnostic
                   (filter isShapeAssertion
                      (opsOfOperation (moduleOperation module)))))).
Proof.
  intros Hrefined Hin Hmarker.
  unfold ValidateStaticShapes. rewrite auditWalk_spec.
  unfold auditAfter, auditStart.
  cbn [obind moduleHasDynamicShapes moduleHasShapeAssertions collected orb app].
  rewrite (proj2 (existsb_false_iff _ _) Hrefined).
  assert (H : existsb isShapeAssertion
                (opsOfOperation (moduleOperation module)) = true)
    by (apply existsb_exists; eauto).
  rewrite H. now rewrite diagnosticsOf_static.
Qed.

Lemma validate_residual_assertions_witness :
  ValidateStaticShapes twoResidualMarkers
  = Ok (InvalidArgumentError
          ("Module has residual shape assertions: "
           ++ "'stablehlo.custom_call' op has residual shape assertions"
           ++ newline
           ++ "'stablehlo.custom_call' op has residual shape assertions"
           ++ newline)).
Proof.
  apply (@validate_residual_assertions twoResidualMarkers (CustomCall holding)).
  - intros o [<-|[<-|[<-|[<-|[]]]]]; reflexivity.
  - cbn. now left.
  - reflexivity.
Defined.

End ValidateMoreFacts.

(** ** More on the pipeline *)

Section PipelineMoreFacts.

Local Open Scope pass_scope.

Variable verify : ModuleOp -> LogicalResult * list Diagnostic.
Variable createInlinerPass : ModuleOp -> Transformed ModuleOp.
Variable createCSEPass : ModuleOp -> Transformed ModuleOp.
Variable createStablehloRefineShapesPass : ModuleOp -> Transformed ModuleOp.
Variable createStablehloCanonicalizeDynamismPass :
  Operation -> Transformed Operation.

Let RefineWith (enable : bool) :=
  RefinePolymorphicShapes verify createInlinerPass createCSEPass
    createStablehloRefineShapesPass createStablehloCanonicalizeDynamismPass
    enable.

(** X14. When [RefinePolymorphicShapes] returns [OkStatus], the module it
    leaves has no result or region argument of dynamic shape and holds no
    shape assertion. *)
Theorem refine_ok_leaves_refined_module (enable : bool) (module : ModuleOp)
    (run : Run) :
  RefineWith enable module = Ok run ->
  runStatus run = OkStatus ->
  FullyRefined (runModule run) /\ MarkerFree (runModule run).
Proof.
  intros Hrun Hok. apply ValidateStaticShapes_ok.
  exact (@refine_ok_validated verify createInlinerPass createCSEPass
           createStablehloRefineShapesPass
           createStablehloCanonicalizeDynamismPass enable module run Hrun Hok).
Qed.

Lemma checkFunction_disabled (func : Operation) (s : RunState) :
  checkFunction false func s
  = Ok ((success, eraseAssertions func),
        mkRunState (handled s)
          (steps s ++ [(CheckShapeAssertions func, success)])).
Proof.
  unfold checkFunction. unfold bind at 1.
  destruct walk_disabled as (Hop & _).
  unfold runOnOperation. rewrite Hop. cbn [lift].
  unfold bind, report, modify, ret. cbn. now rewrite app_nil_r.
Qed.

Lemma runOnFunctions_disabled (body : Ops) :
  forall s, exists r s' log,
    runOnFunctions createStablehloCanonicalizeDynamismPass false body s
    = Ok (r, s')
    /\ steps s' = (steps s ++ log)%list
    /\ forall f res, In (CheckShapeAssertions f, res) log -> res = success.
Proof.
  induction body as [|op rest IH]; intros s.
  - exists (success, NoOp), s, []. rewrite app_nil_r.
    repeat split. intros f res [].
  - cbn [runOnFunctions]. destruct (isFuncOp op).
    + unfold bind at 1. unfold canonicalizeFunction.
      destruct (createStablehloCanonicalizeDynamismPass op) as [[c op1] ds].
      unfold bind at 1. cbn [report modify ret fst snd].
      destruct c; cbn [succeeded negb].
      * unfold bind at 1. rewrite checkFunction_disabled.
        cbn [fst snd succeeded negb steps handled]. unfold bind.
        match goal with
        | |- context [runOnFunctions _ _ rest ?st] =>
            destruct (IH st) as (r & s' & log & Hrun & Hsteps & Hlog)
        end.
        rewrite Hrun. cbn [steps] in Hsteps. eexists. exists s'.
        exists ((CanonicalizeDynamism op, success)
                :: (CheckShapeAssertions op1, success) :: log).
        split; [reflexivity|]. split.
        -- rewrite Hsteps, <- !app_assoc. reflexivity.
        -- intros f res [H|[H|H]]; [discriminate | congruence | eauto].
      * eexists. eexists. exists [(CanonicalizeDynamism op, failure)].
        split; [reflexivity|]. split; [reflexivity|].
        intros f res [H|[]]. discriminate.
    + unfold bind. destruct (IH s) as (r & s' & log & Hrun & Hsteps & Hlog).
      rewrite Hrun. eexists. exists s', log. now repeat split.
Qed.

(** X15. With assertions disabled a run of [RefinePolymorphicShapes]
    always returns (no call of it can throw), and every run of the
    assertion pass in it succeeds: an error can only come from the
    verification, from a pass of the libraries or from the final
    validation. *)
Theorem refine_disabled_always_returns (module : ModuleOp) :
  exists run,
    RefineWith false module = Ok run
    /\ forall f res, In (CheckShapeAssertions f, res) (runSteps run) ->
                     res = success.
Proof.
  unfold RefineWith, RefinePolymorphicShapes, refine.
  destruct (verify module) as [verified dv].
  unfold bind at 1. cbn [report modify].
  destruct verified; cbn [succeeded negb].
  2:{ unfold bind, get, ret. cbn. eexists. split; [reflexivity|].
      intros f res [H|[]]. discriminate. }
  unfold bind at 1. unfold pm. cbn [PassManager_run].
  unfold bind at 1. rewrite modulePass_run.
  destruct (createInlinerPass module) as [[r1 m1] d1]. cbn [fst snd].
  destruct r1; cbn [succeeded negb].
  2:{ unfold bind, get, ret. cbn. eexists. split; [reflexivity|].
      intros f res [H|[H|[]]]; discriminate. }
  unfold bind at 1. rewrite modulePass_run.
  destruct (createCSEPass m1) as [[r2 m2] d2]. cbn [fst snd].
  destruct r2; cbn [succeeded negb].
  2:{ unfold bind, get, ret. cbn. eexists. split; [reflexivity|].
      intros f res [H|[H|[H|[]]]]; discriminate. }
  unfold bind at 1. rewrite modulePass_run.
  destruct (createStablehloRefineShapesPass m2) as [[r3 m3] d3]. cbn [fst snd].
  destruct r3; cbn [succeeded negb].
  2:{ unfold bind, get, ret. cbn. eexists. split; [reflexivity|].
      intros f res [H|[H|[H|[H|[]]]]]; discriminate. }
  unfold bind at 1. unfold nestedFunctionPasses at 1. unfold bind at 1.
  match goal with
  | |- context [runOnFunctions _ _ (moduleBody m3) ?st] =>
      destruct (runOnFunctions_disabled (moduleBody m3) st)
        as (r & s' & log & Hrun & Hsteps & Hlog)
  end.
  rewrite Hrun. cbn [ret fst snd steps] in *.
  assert (Hall : forall f res, In (CheckShapeAssertions f, res) (steps s') ->
                               res = success).
  { intros f res Hin. rewrite Hsteps in Hin. cbn in Hin.
    destruct Hin as [H|[H|[H|[H|Hin]]]]; try discriminate. eauto. }
  destruct (fst r); cbn [ret fst snd succeeded negb].
  - unfold bind at 1.
    match goal with
    | |- context [ValidateStaticShapes ?m] =>
        destruct (ValidateStaticShapes_total m) as [status Hstatus]
    end.
    rewrite Hstatus. cbn [lift]. unfold bind, report, modify, ret.
    cbn [obind runSteps steps fst snd]. eexists. split; [reflexivity|].
    intros f res Hin. apply in_app_or in Hin as [Hin|[Hin|[]]];
      [eauto | discriminate].
  - unfold bind, get, ret. cbn [obind runSteps steps fst snd].
    eexists. split; [reflexivity | exact Hall].
Qed.

Lemma allSucceeded_in (log : list (Step * LogicalResult)) (step : Step) :
  allSucceeded log = true -> In (step, failure) log -> False.
Proof.
  unfold allSucceeded. rewrite forallb_forall. intros H Hin.
  apply H in Hin. discriminate.
Qed.

(** The diagnostics of every run of the assertion pass reach the handler
    of the pipeline. *)
Lemma runOnFunctions_handled (enable : bool) (body : Ops) :
  forall s r s',
    runOnFunctions createStablehloCanonicalizeDynamismPass enable body s
    = Ok (r, s') ->
    exists later log,
      handled s' = (handled s ++ later)%list
      /\ steps s' = (steps s ++ log)%list
      /\ (fst r = success -> allSucceeded log = true)
      /\ forall f res, In (CheckShapeAssertions f, res) log ->
           forall rr ps, runOnOperation enable f initialState = Ok (rr, ps) ->
           forall d, In d (diags ps) -> In d later.
Proof.
  induction body as [|op rest IH]; intros s r s'.
  - cbn. intros [= <- <-]. exists [], []. rewrite !app_nil_r.
    repeat split. intros f res [].
  - cbn [runOnFunctions]. destruct (isFuncOp op).
    + unfold bind at 1. unfold canonicalizeFunction.
      destruct (createStablehloCanonicalizeDynamismPass op) as [[c op1] ds].
      unfold bind at 1. cbn [report modify ret fst snd].
      destruct c; cbn [succeeded negb].
      2:{ intros [= <- <-]. exists ds, [(CanonicalizeDynamism op, failure)].
          cbn. repeat split; [discriminate|]. intros f res [H|[]].
          discriminate. }
      unfold bind at 1. unfold checkFunction. unfold bind at 1.
      destruct (runOnOperation enable op1 initialState) as [[rr1 ps1]|x] eqn:Ek;
        cbn [lift]; [|discriminate].
      unfold bind at 1. cbn [report modify ret fst snd].
      destruct (failed ps1); cbn [succeeded negb].
      * intros [= <- <-].
        exists (ds ++ diags ps1)%list,
               [(CanonicalizeDynamism op, success);
                (CheckShapeAssertions op1, failure)].
        cbn. rewrite <- !app_assoc. repeat split; [discriminate|].
        intros f res [H|[H|[]]]; [discriminate|].
        injection H as <- <-. intros rr ps Hrun d Hd.
        rewrite Ek in Hrun. injection Hrun as <- <-.
        apply in_or_app. now right.
      * unfold bind.
        destruct (runOnFunctions _ enable rest _) as [[rn sn]|x] eqn:Er;
          [|discriminate].
        intros [= <- <-]. apply IH in Er as (later & log & Hh & Hs & Hok & Hin).
        cbn [handled steps] in Hh, Hs.
        exists (ds ++ diags ps1 ++ later)%list,
               ((CanonicalizeDynamism op, success)
                :: (CheckShapeAssertions op1, success) :: log).
        rewrite Hh, Hs, <- !app_assoc. cbn [fst].
        repeat split.
        -- intros Hr. cbn. now apply Hok.
        -- intros f res [H|[H|H]]; [discriminate| |].
           ++ injection H as <- <-. intros rr ps Hrun d Hd.
              rewrite Ek in Hrun. injection Hrun as <- <-.
              apply in_or_app. right. apply in_or_app. now left.
           ++ intros rr ps Hrun d Hd. apply in_or_app. right.
              apply in_or_app. right. eapply Hin; eauto.
    + unfold bind.
      destruct (runOnFunctions _ enable rest s) as [[rn sn]|x] eqn:Er;
        [|discriminate].
      intros [= <- <-]. apply IH in Er as (later & log & Hh & Hs & Hok & Hin).
      exists later, log. now repeat split.
Qed.

(** X16. When a run of the assertion pass fails inside
    [RefinePolymorphicShapes], the error returned is headed "Module shape
    refinement failed: " and its text holds the message of every
    diagnostic of that run: the formatted message of a violated assertion
    reaches the caller. *)
Theorem assertion_failure_reaches_caller (enable : bool) (module : ModuleOp)
    (run : Run) (f : Operation) (r : option Operation) (ps : PassState)
    (d : Diagnostic) :
  RefineWith enable module = Ok run ->
  In (CheckShapeAssertions f, failure) (runSteps run) ->
  runOnOperation enable f initialState = Ok (r, ps) ->
  In d (diags ps) ->
  exists text,
    runStatus run
    = InvalidArgumentError ("Module shape refinement failed: " ++ text)
    /\ Occurs (diagMessage d) text.
Proof.
  unfold RefineWith, RefinePolymorphicShapes, refine.
  destruct (verify module) as [verified dv].
  unfold bind at 1. cbn [report modify].
  destruct verified; cbn [succeeded negb].
  2:{ unfold bind, get, ret. cbn. intros [= <-]. cbn.
      intros [H|[]]. discriminate. }
  unfold bind at 1. unfold pm. cbn [PassManager_run].
  unfold bind at 1. rewrite modulePass_run.
  destruct (createInlinerPass module) as [[r1 m1] d1]. cbn [fst snd].
  destruct r1; cbn [succeeded negb].
  2:{ unfold bind, get, ret. cbn. intros [= <-]. cbn.
      intros [H|[H|[]]]; discriminate. }
  unfold bind at 1. rewrite modulePass_run.
  destruct (createCSEPass m1) as [[r2 m2] d2]. cbn [fst snd].
  destruct r2; cbn [succeeded negb].
  2:{ unfold bind, get, ret. cbn. intros [= <-]. cbn.
      intros [H|[H|[H|[]]]]; discriminate. }
  unfold bind at 1. rewrite modulePass_run.
  destruct (createStablehloRefineShapesPass m2) as [[r3 m3] d3]. cbn [fst snd].
  destruct r3; cbn [succeeded negb].
  2:{ unfold bind, get, ret. cbn. intros [= <-]. cbn.
      intros [H|[H|[H|[H|[]]]]]; discriminate. }
  unfold bind at 1. unfold nestedFunctionPasses at 1. unfold bind at 1.
  match goal with
  | |- context [runOnFunctions _ _ (moduleBody m3) ?st] =>
      destruct (runOnFunctions createStablehloCanonicalizeDynamismPass enable
                  (moduleBody m3) st) as [[rn sn]|x] eqn:En
  end; [|discriminate].
  apply runOnFunctions_handled in En as (later & log & Hh & Hs & Hok & Hin).
  cbn [handled steps] in Hh, Hs.
  destruct (fst rn); cbn [ret fst snd succeeded negb].
  - unfold bind at 1.
    match goal with
    | |- context [ValidateStaticShapes ?m] =>
        destruct (ValidateStaticShapes m) as [status|x]
    end; cbn [lift]; [|discriminate].
    unfold bind, report, modify, ret. cbn [obind]. intros [= <-].
    cbn [runSteps runStatus steps fst snd]. rewrite Hs.
    intros Hstep. exfalso.
    apply in_app_or in Hstep as [Hstep|[Hstep|[]]]; [|discriminate].
    cbn in Hstep. destruct Hstep as [H|[H|[H|[H|Hstep]]]]; try discriminate.
    exact (@allSucceeded_in _ _ (Hok eq_refl) Hstep).
  - unfold bind, get, ret. cbn [obind]. intros [= <-].
    cbn [runSteps runStatus steps fst snd]. rewrite Hs, Hh.
    intros Hstep Hrun Hd. eexists. split; [reflexivity|].
    apply ConsumeStatus_occurs.
    cbn in Hstep. destruct Hstep as [H|[H|[H|[H|Hstep]]]]; try discriminate.
    apply in_or_app. right. eapply Hin; eauto.
Qed.

End PipelineMoreFacts.

(** ** [RefinePolymorphicShapes] on a text *)

Section TextEntryFacts.

Variable parseSourceString : string -> option ModuleOp.
Variable writeBytecodeToFile : ModuleOp -> LogicalResult * string.
Variable verify : ModuleOp -> LogicalResult * list Diagnostic.
Variable createInlinerPass : ModuleOp -> Transformed ModuleOp.
Variable createCSEPass : ModuleOp -> Transformed ModuleOp.
Variable createStablehloRefineShapesPass : ModuleOp -> Transformed ModuleOp.
Variable createStablehloCanonicalizeDynamismPass :
  Operation -> Transformed Operation.
Variable enable_shape_assertions : bool.

Let RefineModule :=
  RefinePolymorphicShapes verify createInlinerPass createCSEPass
    createStablehloRefineShapesPass createStablehloCanonicalizeDynamismPass
    enable_shape_assertions.

Let RefineText :=
  TextEntry.RefinePolymorphicShapes parseSourceString writeBytecodeToFile
    verify createInlinerPass createCSEPass createStablehloRefineShapesPass
    createStablehloCanonicalizeDynamismPass enable_shape_assertions.

(** X17. On a text, [RefinePolymorphicShapes] returns "Cannot parse
    module." when the text does not parse, and the error of the refinement
    as it is when the refinement of the parsed module fails; in both cases
    nothing is written to the stream.  It writes the module only after a
    refinement that succeeded, and returns "Cannot serialize module." when
    that fails. *)
Theorem text_refine_errors (module_str : string) (status : Status)
    (written : string) :
  RefineText module_str = Ok (status, written) ->
  (parseSourceString module_str = None ->
   status = InvalidArgumentError "Cannot parse module."
   /\ written = EmptyString)
  /\ (forall module, parseSourceString module_str = Some module ->
       exists run,
         RefineModule module = Ok run
         /\ (runStatus run <> OkStatus ->
             status = runStatus run /\ written = EmptyString)
         /\ (runStatus run = OkStatus ->
             written = snd (writeBytecodeToFile (runModule run))
             /\ status
                = if succeeded (fst (writeBytecodeToFile (runModule run)))
                  then OkStatus
                  else InternalError "Cannot serialize module.")).
Proof.
  unfold RefineText, TextEntry.RefinePolymorphicShapes.
  destruct (parseSourceString module_str) as [module|].
  - fold RefineModule.
    destruct (RefineModule module) as [run|c] eqn:Hrun; cbn [obind];
      [|discriminate].
    intros H. split; [discriminate|]. intros m [= <-]. exists run.
    rewrite Hrun. split; [reflexivity|].
    destruct (runStatus run) eqn:Es.
    + destruct (writeBytecodeToFile (runModule run)) as [w bytes].
      cbn [fst snd]. split; [congruence|]. intros _.
      destruct (succeeded w); injection H as <- <-; now split.
    + injection H as <- <-. split; [now split | discriminate].
    + injection H as <- <-. split; [now split | discriminate].
  - intros [= <- <-]. split; [now split | discriminate].
Qed.

(** X18. When [RefinePolymorphicShapes] on a text returns [OkStatus], the
    stream received the bytes of a module that has no result or region
    argument of dynamic shape and holds no shape assertion: the module the
    refinement of the parsed text left. *)
Theorem text_refine_ok_writes_refined_module (module_str : string)
    (written : string) :
  RefineText module_str = Ok (OkStatus, written) ->
  exists module run,
    parseSourceString module_str = Some module
    /\ RefineModule module = Ok run
    /\ writeBytecodeToFile (runModule run) = (success, written)
    /\ FullyRefined (runModule run)
    /\ MarkerFree (runModule run).
Proof.
  unfold RefineText, TextEntry.RefinePolymorphicShapes.
  destruct (parseSourceString module_str) as [module|]; [|discriminate].
  fold RefineModule.
  destruct (RefineModule module) as [run|c] eqn:Hrun; cbn [obind];
    [|discriminate].
  destruct (runStatus run) eqn:Es; try discriminate.
  destruct (writeBytecodeToFile (runModule run)) as [[|] bytes] eqn:Hw;
    cbn [succeeded]; [|discriminate].
  intros [= <-]. exists module, run.
  split; [reflexivity|]. split; [exact Hrun|]. split; [exact Hw|].
  apply ValidateStaticShapes_ok.
  exact (@refine_ok_validated verify createInlinerPass createCSEPass
           createStablehloRefineShapesPass
           createStablehloCanonicalizeDynamismPass enable_shape_assertions
           module run Hrun Es).
Qed.

End TextEntryFacts.

(** ** Runs of the pipeline and of the text entry point on samples *)

Section MoreSamples.

Let RefineEnabled :=
  RefinePolymorphicShapes verifyFunctions (@unchanged ModuleOp)
    (@unchanged ModuleOp) (@unchanged ModuleOp) (@unchanged Operation) true.

Let RefineTextSample :=
  TextEntry.RefinePolymorphicShapes TextEntry.parseSample TextEntry.writeSample
    verifyFunctions (@unchanged ModuleOp) (@unchanged ModuleOp)
    (@unchanged ModuleOp) (@unchanged Operation) true.

Lemma refine_ok_leaves_refined_module_witness :
  FullyRefined emptyFunction /\ MarkerFree emptyFunction.
Proof.
  apply (@refine_ok_leaves_refined_module verifyFunctions (@unchanged ModuleOp)
           (@unchanged ModuleOp) (@unchanged ModuleOp) (@unchanged Operation)
           true emptyFunction
           (mkRun OkStatus emptyFunction
              [(VerifyModule, success); (Inliner, success); (CSE, success);
               (RefineShapes, success);
               (CanonicalizeDynamism (func NoOp), success);
               (CheckShapeAssertions (func NoOp), success);
               (ValidateShapes, success)])
           eq_refl eq_refl).
Defined.

Lemma refine_disabled_always_returns_witness :
  exists run,
    RefinePolymorphicShapes verifyFunctions (@unchanged ModuleOp)
      (@unchanged ModuleOp) (@unchanged ModuleOp) (@unchanged Operation)
      false violatedModule = Ok run
    /\ forall f res, In (CheckShapeAssertions f, res) (runSteps run) ->
                     res = success.
Proof.
  exact (@refine_disabled_always_returns verifyFunctions (@unchanged ModuleOp)
           (@unchanged ModuleOp) (@unchanged ModuleOp) (@unchanged Operation)
           violatedModule).
Defined.

Lemma assertion_failure_reaches_caller_witness :
  exists text,
    InvalidArgumentError
      ("Module shape refinement failed: " ++ "bad value 3, expected 7"
       ++ newline)
    = InvalidArgumentError ("Module shape refinement failed: " ++ text)
    /\ Occurs "bad value 3, expected 7" text.
Proof.
  apply (@assertion_failure_reaches_caller verifyFunctions (@unchanged ModuleOp)
           (@unchanged ModuleOp) (@unchanged ModuleOp) (@unchanged Operation)
           true violatedModule
           (mkRun
              (InvalidArgumentError
                 ("Module shape refinement failed: "
                  ++ "bad value 3, expected 7" ++ newline))
              violatedModule
              [(VerifyModule, success); (Inliner, success); (CSE, success);
               (RefineShapes, success);
               (CanonicalizeDynamism
                  (func (ConsOp (CustomCall violatedAssertion) NoOp)), success);
               (CheckShapeAssertions
                  (func (ConsOp (CustomCall violatedAssertion) NoOp)), failure)])
           (func (ConsOp (CustomCall violatedAssertion) NoOp))
           (Some (func (ConsOp (CustomCall violatedAssertion) NoOp)))
           (mkPassState
              [mkDiagnostic (CustomCall violatedAssertion)
                 "bad value 3, expected 7"]
              true
              [EvVerify violatedAssertion; EvMatchInts violatedAssertion 0;
               EvMatchInts violatedAssertion 1; EvMatchInts violatedAssertion 2;
               EvFormat violatedAssertion [3; 7]])
           (mkDiagnostic (CustomCall violatedAssertion) "bad value 3, expected 7")
           eq_refl).
  - cbn. do 5 right. now left.
  - reflexivity.
  - now left.
Defined.

Lemma text_refine_errors_witness :
  InvalidArgumentError "Cannot parse module."
  = InvalidArgumentError "Cannot parse module."
  /\ EmptyString = EmptyString.
Proof.
  apply (proj1 (@text_refine_errors TextEntry.parseSample TextEntry.writeSample
                  verifyFunctions (@unchanged ModuleOp) (@unchanged ModuleOp)
                  (@unchanged ModuleOp) (@unchanged Operation) true
                  "not a module"
                  (InvalidArgumentError "Cannot parse module.") EmptyString
                  eq_refl)).
  reflexivity.
Defined.

Lemma text_refine_ok_writes_refined_module_witness :
  exists module run,
    TextEntry.parseSample "module { func.func @main() { return } }"
    = Some module
    /\ RefineEnabled module = Ok run
    /\ TextEntry.writeSample (runModule run)
       = (success, String "001"%char EmptyString)
    /\ FullyRefined (runModule run)
    /\ MarkerFree (runModule run).
Proof.
  apply (@text_refine_ok_writes_refined_module TextEntry.parseSample
           TextEntry.writeSample verifyFunctions (@unchanged ModuleOp)
           (@unchanged ModuleOp) (@unchanged ModuleOp) (@unchanged Operation)
           true "module { func.func @main() { return } }"
           (String "001"%char EmptyString)).
  reflexivity.
Defined.

End MoreSamples.
